(** * Visibility scoring: [analysis/report.py]

    A shallow embedding of [normalize], [contains_any], [analyze_answers]
    and [generate_report], together with the Python built-ins they rely on
    ([str.lower], [str.split], [in], [str.count], [dict], [sorted], true
    division and [int]), and the properties of the scoring engine.

    Conventions of the model.
    - A Python [str] is a list of code points; code points are taken below
      256, so a character is an [ascii] and [lower] / [split] follow Python
      on that range.
    - A Python [int] is a [Z]; a Python [float] is an IEEE 754 binary64
      value, a [spec_float] with precision 53 and maximal exponent 1024.
    - A Python [dict] is an association list in insertion order with
      pairwise distinct keys.
    - A raised exception is the [Raise] outcome of a [result].
    - The scorer is given twice: on values, and on a store of list and
      dict objects that it reads and updates through references. *)

From Stdlib Require Import Ascii String.
From Stdlib Require Import List ZArith Lia Bool Arith.
From Stdlib Require Import Permutation Sorted.
From Stdlib Require Import Floats.SpecFloat.
Import ListNotations.

Local Open Scope Z_scope.

(** ** Strings *)

Definition str := list ascii.

(** A string literal of the source. *)
Definition lit (s : string) : str := list_ascii_of_string s.

Definition str_eq_dec : forall a b : str, {a = b} + {a <> b} :=
  list_eq_dec ascii_dec.

(** [c.lower()] for one code point below 256: the letters A-Z and the
    Latin-1 capitals U+00C0-U+00DE (the sign U+00D7 apart) move up by 32. *)
Definition lower_char (c : ascii) : ascii :=
  let n := N_of_ascii c in
  if ((65 <=? n) && (n <=? 90))%N
     || ((192 <=? n) && (n <=? 222) && negb (n =? 215))%N
  then ascii_of_N (n + 32)
  else c.

(** [s.lower()] *)
Definition lower (s : str) : str := map lower_char s.

(** The characters [str.split()] treats as separators. *)
Definition isspace (c : ascii) : bool :=
  let n := N_of_ascii c in
  (((9 <=? n) && (n <=? 13)) || ((28 <=? n) && (n <=? 32))
   || (n =? 133) || (n =? 160))%N.

(** [s.split()]: a left-to-right scan; [word] is the word being read. *)
Fixpoint split_from (word : str) (s : str) : list str :=
  match s with
  | [] => match word with [] => [] | _ => [word] end
  | c :: rest =>
      if isspace c
      then match word with
           | [] => split_from [] rest
           | _ => word :: split_from [] rest
           end
      else split_from (word ++ [c]) rest
  end.

Definition split (s : str) : list str := split_from [] s.

(** [sep.join(parts)] *)
Fixpoint join (sep : str) (parts : list str) : str :=
  match parts with
  | [] => []
  | [x] => x
  | x :: rest => x ++ sep ++ join sep rest
  end.

(** [text.startswith(sub)] *)
Fixpoint startswith (text sub : str) {struct sub} : bool :=
  match sub, text with
  | [], _ => true
  | _ :: _, [] => false
  | a :: sub', c :: text' => Ascii.eqb a c && startswith text' sub'
  end.

(** [sub in text] *)
Fixpoint str_in (sub text : str) : bool :=
  startswith text sub
  || match text with
     | [] => false
     | _ :: rest => str_in sub rest
     end.

(** The scan of [text.count(sub)] for a non-empty [sub]: [skip] characters
    of the last match are still to be passed over. *)
Fixpoint count_from (sub : str) (skip : nat) (text : str) : Z :=
  match text with
  | [] => 0
  | _ :: rest =>
      match skip with
      | S k => count_from sub k rest
      | O =>
          if startswith text sub
          then 1 + count_from sub (length sub - 1) rest
          else count_from sub 0 rest
      end
  end.

(** [text.count(sub)]: the number of non-overlapping occurrences, found
    from the left; the empty string occurs [len(text) + 1] times. *)
Definition count (text sub : str) : Z :=
  match sub with
  | [] => Z.of_nat (length text) + 1
  | _ :: _ => count_from sub 0 text
  end.

(** ** Exceptions *)

(** The exceptions of the built-ins the code calls, and [ModelFailure]
    for whatever else the model layer raises. *)
Inductive exn : Type :=
| KeyError (key : str)
| IndexError
| OverflowError
| ValueError
| ModelFailure (what : str).

Inductive result (A : Type) : Type :=
| Ok (a : A)
| Raise (e : exn).

Arguments Ok {A} a.
Arguments Raise {A} e.

Definition bind {A B : Type} (r : result A) (k : A -> result B) : result B :=
  match r with
  | Ok a => k a
  | Raise e => Raise e
  end.

Notation "x <- r ;; k" := (bind r (fun x => k))
  (at level 61, r at next level, right associativity).

(** ** Dictionaries *)

Definition dict (V : Type) := list (str * V).

Section Dict.
Context {V : Type}.

Fixpoint dict_get (k : str) (d : dict V) : option V :=
  match d with
  | [] => None
  | (k', v) :: d' => if str_eq_dec k k' then Some v else dict_get k d'
  end.

(** [d[k] = v]: an existing key keeps its place, a new one goes last. *)
Fixpoint dict_set (k : str) (v : V) (d : dict V) : dict V :=
  match d with
  | [] => [(k, v)]
  | (k', v') :: d' =>
      if str_eq_dec k k' then (k', v) :: d' else (k', v') :: dict_set k v d'
  end.

Definition keys (d : dict V) : list str := map fst d.

(** [{k: v0 for k in ks}] *)
Definition dict_fromkeys (ks : list str) (v0 : V) : dict V :=
  fold_left (fun d k => dict_set k v0 d) ks [].
End Dict.

(** [d[k] += n] on a plain [dict]: a missing key raises. *)
Definition dict_incr (k : str) (n : Z) (d : dict Z) : result (dict Z) :=
  match dict_get k d with
  | Some v => Ok (dict_set k (v + n) d)
  | None => Raise (KeyError k)
  end.

(** [d[k].append(x)] on a [defaultdict(list)]: a missing key is created. *)
Definition dd_append {A : Type} (k : str) (x : A) (d : dict (list A))
  : dict (list A) :=
  match dict_get k d with
  | Some l => dict_set k (l ++ [x]) d
  | None => dict_set k [x] d
  end.

(** [d.get(k, [])] *)
Definition get_or_nil {A : Type} (k : str) (d : dict (list A)) : list A :=
  match dict_get k d with
  | Some l => l
  | None => []
  end.

(** [sorted(items, key=lambda x: x[1], reverse=True)]: a stable sort,
    largest count first; equal counts keep their order. *)
Fixpoint insert_desc (x : str * Z) (l : list (str * Z)) : list (str * Z) :=
  match l with
  | [] => [x]
  | y :: l' =>
      if snd y <=? snd x then x :: y :: l' else y :: insert_desc x l'
  end.

Definition sorted_desc (items : list (str * Z)) : list (str * Z) :=
  fold_right insert_desc [] items.

(** ** Floating point: [a / b], [x * 100] and [int(x)] *)

Definition prec : Z := 53.
Definition emax : Z := 1024.

(** [float(n)], exact for the integers a batch can produce. *)
Definition float_of_int (n : Z) : spec_float :=
  binary_normalize prec emax n 0 false.

(** [a / b] on two ints, [b] not zero. *)
Definition truediv (a b : Z) : spec_float :=
  SFdiv prec emax (float_of_int a) (float_of_int b).

(** [int(x)]: truncation toward zero. *)
Definition int_of_float (x : spec_float) : result Z :=
  match x with
  | S754_zero _ => Ok 0
  | S754_finite s m e =>
      let mag :=
        match e with
        | Z0 => Zpos m
        | Zpos _ => Z.shiftl (Zpos m) e
        | Zneg p => Z.shiftr (Zpos m) (Zpos p)
        end in
      Ok (if s then - mag else mag)
  | S754_infinity _ => Raise OverflowError
  | S754_nan => Raise ValueError
  end.

(** [int((c / total) * 100)] *)
Definition percent (c total : Z) : result Z :=
  int_of_float (SFmul prec emax (truediv c total) (float_of_int 100)).

(** ** Helpers of the source *)

(** An answer as the scorer receives it: a string, a list of fragments
    (each given by its [str()]), or [None]. *)
Inductive text_input : Type :=
| TStr (s : str)
| TList (fragments : list str)
| TNone.

(** Python truth value of an answer. *)
Definition truthy (text : text_input) : bool :=
  match text with
  | TStr [] => false
  | TStr (_ :: _) => true
  | TList [] => false
  | TList (_ :: _) => true
  | TNone => false
  end.

Definition normalize (text : text_input) : str :=
  if negb (truthy text) then lit ""
  else match text with
       | TList fragments => lower (join (lit " ") fragments)
       | TStr s => lower s
       | TNone => lower (lit "None")
       end.

Definition contains_any (text : str) (keywords : list str) : bool :=
  existsb (fun k => str_in k text) keywords.

(** ** The scorer: [analyze_answers] *)

Record report : Type := mkReport {
  brand_visibility : Z;
  brand_mentions : dict Z;
  persona_visibility : dict Z;
  topic_visibility : dict Z
}.

(** The counters the loop over the answers updates. *)
Record counters : Type := mkCounters {
  brand_counts : dict Z;
  brand_hit_answers : Z;
  persona_counts : dict Z;
  topic_counts : dict Z
}.

(** [for b in all_brands: ...] on one answer; the state is [brand_counts]
    and the flag [brand_found]. *)
Fixpoint brand_loop (text : str) (bs : list str) (bc : dict Z) (found : bool)
  : result (dict Z * bool) :=
  match bs with
  | [] => Ok (bc, found)
  | b :: bs' =>
      let bl := lower b in
      if str_in bl text
      then bc' <- dict_incr b (count text bl) bc ;;
           brand_loop text bs' bc' true
      else brand_loop text bs' bc found
  end.

(** The list literal [persona_keywords]; [p.split()[0]] raises on a name
    without a word. *)
Definition persona_keywords (p : str) : result (list str) :=
  let full := lower p in
  match split p with
  | [] => Raise IndexError
  | first :: _ =>
      Ok [full; lower first; lit "strategy"; lit "roadmap";
          lit "architecture"; lit "planning"; lit "analysis"; lit "decision"]
  end.

Fixpoint persona_loop (text : str) (ps : list str) (pc : dict Z)
  : result (dict Z) :=
  match ps with
  | [] => Ok pc
  | p :: ps' =>
      kws <- persona_keywords p ;;
      if contains_any text kws
      then pc' <- dict_incr p 1 pc ;; persona_loop text ps' pc'
      else persona_loop text ps' pc
  end.

(** [t.lower().split()[:4]] *)
Definition topic_keywords (t : str) : list str :=
  firstn 4 (split (lower t)).

Fixpoint topic_loop (text : str) (ts : list str) (tc : dict Z)
  : result (dict Z) :=
  match ts with
  | [] => Ok tc
  | t :: ts' =>
      if contains_any text (topic_keywords t)
      then tc' <- dict_incr t 1 tc ;; topic_loop text ts' tc'
      else topic_loop text ts' tc
  end.

(** The body of [for ans in answers]. *)
Definition score_answer (all_brands personas topics : list str)
  (st : counters) (ans : text_input) : result counters :=
  let text := normalize ans in
  bf <- brand_loop text all_brands (brand_counts st) false ;;
  let hits := if snd bf then brand_hit_answers st + 1
              else brand_hit_answers st in
  pc <- persona_loop text personas (persona_counts st) ;;
  tc <- topic_loop text topics (topic_counts st) ;;
  Ok (mkCounters (fst bf) hits pc tc).

Fixpoint answers_loop (all_brands personas topics : list str)
  (st : counters) (answers : list text_input) : result counters :=
  match answers with
  | [] => Ok st
  | ans :: rest =>
      st' <- score_answer all_brands personas topics st ans ;;
      answers_loop all_brands personas topics st' rest
  end.

(** [{k: int((c / total_answers) * 100) for k, c in d.items() if c > 0}] *)
Fixpoint visibility (total_answers : Z) (items : dict Z) : result (dict Z) :=
  match items with
  | [] => Ok []
  | (k, c) :: rest =>
      if c >? 0
      then v <- percent c total_answers ;;
           vs <- visibility total_answers rest ;;
           Ok ((k, v) :: vs)
      else visibility total_answers rest
  end.

(** [len(answers) or 1] *)
Definition total_of (answers : list text_input) : Z :=
  let n := Z.of_nat (length answers) in
  if n =? 0 then 1 else n.

Definition initial_counters (all_brands personas topics : list str)
  : counters :=
  mkCounters (dict_fromkeys all_brands 0) 0
             (dict_fromkeys personas 0) (dict_fromkeys topics 0).

(** The [return] statement. *)
Definition build_report (total_answers : Z) (st : counters) : result report :=
  bv <- percent (brand_hit_answers st) total_answers ;;
  let bm := sorted_desc (brand_counts st) in
  pv <- visibility total_answers (persona_counts st) ;;
  tv <- visibility total_answers (topic_counts st) ;;
  Ok (mkReport bv bm pv tv).

Definition analyze_answers (answers : list text_input) (brand : str)
  (competitors personas topics : list str) : result report :=
  let total_answers := total_of answers in
  let all_brands := brand :: competitors in
  st <- answers_loop all_brands personas topics
          (initial_counters all_brands personas topics) answers ;;
  build_report total_answers st.

(** ** The scorer on the objects of the interpreter *)

(** Lists and dicts are objects: a variable holds a reference, and an
    update of an object is seen through every reference to it.  The store
    keeps the lists of strings, the lists of answers and the dicts of
    counters that exist at a point of the run; a reference is a position
    in its region, and a new object goes last.  Strings, ints and [None]
    are values. *)
Definition addr : Type := nat.

(** An item of [answers]: a string, a reference to a list of fragments,
    or [None]. *)
Inductive answer : Type :=
| AStr (s : str)
| AList (fragments : addr)
| ANone.

Record store : Type := mkStore {
  str_lists : list (list str);
  answer_lists : list (list answer);
  count_dicts : list (dict Z)
}.

(** A statement runs in a store, and returns or raises in the store it
    leaves. *)
Definition run (A : Type) : Type := store -> result A * store.

Definition ret {A : Type} (a : A) : run A := fun s => (Ok a, s).

Definition lift {A : Type} (r : result A) : run A := fun s => (r, s).

Definition bind_run {A B : Type} (m : run A) (k : A -> run B) : run B :=
  fun s =>
    match m s with
    | (Ok a, s') => k a s'
    | (Raise e, s') => (Raise e, s')
    end.

Notation "x <~ m ;; k" := (bind_run m (fun x => k))
  (at level 61, m at next level, right associativity).

(** Reading through a reference. *)
Definition strs_at (a : addr) : run (list str) :=
  fun s => (Ok (nth a (str_lists s) []), s).

Definition answers_at (a : addr) : run (list answer) :=
  fun s => (Ok (nth a (answer_lists s) []), s).

Definition counts_at (a : addr) : run (dict Z) :=
  fun s => (Ok (nth a (count_dicts s) []), s).

(** A list display or [+] on lists, a dict comprehension: a new object. *)
Definition new_strs (l : list str) : run addr :=
  fun s => (Ok (length (str_lists s)),
            mkStore (str_lists s ++ [l]) (answer_lists s) (count_dicts s)).

Definition new_counts (d : dict Z) : run addr :=
  fun s => (Ok (length (count_dicts s)),
            mkStore (str_lists s) (answer_lists s) (count_dicts s ++ [d])).

Fixpoint set_nth {A : Type} (n : nat) (x : A) (l : list A) : list A :=
  match l, n with
  | [], _ => []
  | _ :: l', O => x :: l'
  | y :: l', S n' => y :: set_nth n' x l'
  end.

(** [d[k] += n] on the dict object [d]. *)
Definition incr_at (d : addr) (k : str) (n : Z) : run unit :=
  fun s =>
    match dict_incr k n (nth d (count_dicts s) []) with
    | Ok d' => (Ok tt, mkStore (str_lists s) (answer_lists s)
                               (set_nth d d' (count_dicts s)))
    | Raise e => (Raise e, s)
    end.

(** What an item of [answers] holds when [normalize] receives it. *)
Definition resolve (lists : list (list str)) (ans : answer) : text_input :=
  match ans with
  | AStr s => TStr s
  | AList a => TList (nth a lists [])
  | ANone => TNone
  end.

Definition text_at (ans : answer) : run text_input :=
  fun s => (Ok (resolve (str_lists s) ans), s).

(** [for b in all_brands: ...]: [bc] is the object [brand_counts]. *)
Fixpoint brand_loop_at (text : str) (bs : list str) (bc : addr)
  (found : bool) : run bool :=
  match bs with
  | [] => ret found
  | b :: bs' =>
      let bl := lower b in
      if str_in bl text
      then _ <~ incr_at bc b (count text bl) ;;
           brand_loop_at text bs' bc true
      else brand_loop_at text bs' bc found
  end.

Fixpoint persona_loop_at (text : str) (ps : list str) (pc : addr)
  : run unit :=
  match ps with
  | [] => ret tt
  | p :: ps' =>
      kws <~ lift (persona_keywords p) ;;
      if contains_any text kws
      then _ <~ incr_at pc p 1 ;; persona_loop_at text ps' pc
      else persona_loop_at text ps' pc
  end.

Fixpoint topic_loop_at (text : str) (ts : list str) (tc : addr)
  : run unit :=
  match ts with
  | [] => ret tt
  | t :: ts' =>
      if contains_any text (topic_keywords t)
      then _ <~ incr_at tc t 1 ;; topic_loop_at text ts' tc
      else topic_loop_at text ts' tc
  end.

(** The body of [for ans in answers]; [hits] is [brand_hit_answers]. *)
Definition score_answer_at (all_brands personas topics bc pc tc : addr)
  (hits : Z) (ans : answer) : run Z :=
  input <~ text_at ans ;;
  let text := normalize input in
  bs <~ strs_at all_brands ;;
  found <~ brand_loop_at text bs bc false ;;
  let hits' := if found then hits + 1 else hits in
  ps <~ strs_at personas ;;
  _ <~ persona_loop_at text ps pc ;;
  ts <~ strs_at topics ;;
  _ <~ topic_loop_at text ts tc ;;
  ret hits'.

Fixpoint answers_loop_at (all_brands personas topics bc pc tc : addr)
  (hits : Z) (items : list answer) : run Z :=
  match items with
  | [] => ret hits
  | ans :: rest =>
      hits' <~ score_answer_at all_brands personas topics bc pc tc hits ans ;;
      answers_loop_at all_brands personas topics bc pc tc hits' rest
  end.

(** [analyze_answers] called with references to its four lists; the
    report is given by what its new dicts hold. *)
Definition analyze_answers_at (answers : addr) (brand : str)
  (competitors personas topics : addr) : run report :=
  batch <~ answers_at answers ;;
  let n := Z.of_nat (length batch) in
  let total_answers := if n =? 0 then 1 else n in
  cs <~ strs_at competitors ;;
  all_brands <~ new_strs (brand :: cs) ;;
  bs <~ strs_at all_brands ;;
  bc <~ new_counts (dict_fromkeys bs 0) ;;
  ps <~ strs_at personas ;;
  pc <~ new_counts (dict_fromkeys ps 0) ;;
  ts <~ strs_at topics ;;
  tc <~ new_counts (dict_fromkeys ts 0) ;;
  items <~ answers_at answers ;;
  hits <~ answers_loop_at all_brands personas topics bc pc tc 0 items ;;
  brand_counts <~ counts_at bc ;;
  persona_counts <~ counts_at pc ;;
  topic_counts <~ counts_at tc ;;
  lift (build_report total_answers
          (mkCounters brand_counts hits persona_counts topic_counts)).

(** ** The orchestrator: [generate_report] *)

(** An entry of [prompts]: a dict, given by what it holds under the keys
    "model" and "prompt" ([None]: the key is absent), or a plain string. *)
Inductive prompt : Type :=
| Tagged (model : option str) (text : option str)
| Plain (text : str).

(** [p[key]] on a dict entry: an absent key raises. *)
Definition subscript (key : str) (field : option str) : result str :=
  match field with
  | Some v => Ok v
  | None => Raise (KeyError key)
  end.

(** The payload; [None] is an absent key. *)
Record payload : Type := mkPayload {
  pl_brand : option str;
  pl_competitors : option (list str);
  pl_personas : option (list str);
  pl_topics : option (list str);
  pl_prompts : option (list prompt);
  pl_models : option (list str)
}.

(** [payload.get(key, [])] *)
Definition get_list {A : Type} (field : option (list A)) : list A :=
  match field with
  | Some l => l
  | None => []
  end.

(** What [llm.invoke] returns: an object with a [content] attribute, or
    any other object, given by its [str()]. *)
Inductive response : Type :=
| WithContent (content : text_input)
| Bare (repr : str).

(** [response.content if hasattr(response, "content") else str(response)] *)
Definition content_of (r : response) : text_input :=
  match r with
  | WithContent c => c
  | Bare s => TStr s
  end.

(** Calls to the model-invocation layer, in the order they are made. *)
Inductive event : Type :=
| Acquire (model : str)
| Invoke (model : str) (prompt_text : str).

(** [for m in models: prompts_by_model[m].append(p)] *)
Fixpoint broadcast (p : str) (models : list str) (pbm : dict (list str))
  : dict (list str) :=
  match models with
  | [] => pbm
  | m :: rest => broadcast p rest (dd_append m p pbm)
  end.

(** The body of [for p in prompts]:
    [prompts_by_model[p["model"]].append(p["prompt"])] reads "model" and
    then "prompt". *)
Definition route_prompt (models : list str) (pbm : dict (list str))
  (p : prompt) : result (dict (list str)) :=
  match p with
  | Tagged model text =>
      m <- subscript (lit "model") model ;;
      t <- subscript (lit "prompt") text ;;
      Ok (dd_append m t pbm)
  | Plain text => Ok (broadcast text models pbm)
  end.

(** [for p in prompts] *)
Fixpoint route_prompts (models : list str) (prompts : list prompt)
  (pbm : dict (list str)) : result (dict (list str)) :=
  match prompts with
  | [] => Ok pbm
  | p :: rest =>
      pbm' <- route_prompt models pbm p ;;
      route_prompts models rest pbm'
  end.

Definition group_prompts (prompts : list prompt) (models : list str)
  : result (dict (list str)) :=
  route_prompts models prompts [].

Record batch_result : Type := mkBatch {
  per_model : dict report;
  combined : report
}.

(** [for model, answers in answers_by_model.items(): ...]; the state is
    [per_model] and [combined_answers]. *)
Fixpoint per_model_loop (brand : str) (competitors personas topics : list str)
  (items : dict (list text_input)) (pm : dict report)
  (ca : list text_input) : result (dict report * list text_input) :=
  match items with
  | [] => Ok (pm, ca)
  | (model, answers) :: rest =>
      r <- analyze_answers answers brand competitors personas topics ;;
      per_model_loop brand competitors personas topics rest
        (dict_set model r pm) (ca ++ answers)
  end.

(** Both analysis stages, from [answers_by_model]. *)
Definition analyze_all (brand : str) (competitors personas topics : list str)
  (abm : dict (list text_input)) : result batch_result :=
  pc <- per_model_loop brand competitors personas topics abm [] [] ;;
  c <- analyze_answers (snd pc) brand competitors personas topics ;;
  Ok (mkBatch (fst pc) c).

Section Orchestrator.

(** The model-invocation layer: [get_llm] and [llm.invoke] act on a
    world of their own and either return or raise ([inr]) an exception
    of their choice, which nothing here catches. *)
Variables World Handle : Type.
Variable get_llm : str -> World -> (Handle + exn) * World.
Variable invoke : Handle -> str -> World -> (response + exn) * World.

Definition outcome (A : Type) : Type := (result A * World * list event)%type.

(** [for prompt in prompts_by_model.get(model, [])] *)
Fixpoint invoke_loop (model : str) (llm : Handle) (prompts : list str)
  (abm : dict (list text_input)) (w : World) (log : list event)
  : outcome (dict (list text_input)) :=
  match prompts with
  | [] => (Ok abm, w, log)
  | p :: rest =>
      match invoke llm p w with
      | (inl r, w') =>
          invoke_loop model llm rest
            (dd_append model (content_of r) abm) w' (log ++ [Invoke model p])
      | (inr e, w') => (Raise e, w', log ++ [Invoke model p])
      end
  end.

(** [for model in models] *)
Fixpoint models_loop (pbm : dict (list str)) (models : list str)
  (abm : dict (list text_input)) (w : World) (log : list event)
  : outcome (dict (list text_input)) :=
  match models with
  | [] => (Ok abm, w, log)
  | model :: rest =>
      match get_llm model w with
      | (inl llm, w') =>
          match invoke_loop model llm (get_or_nil model pbm) abm w'
                  (log ++ [Acquire model]) with
          | (Ok abm', w'', log') => models_loop pbm rest abm' w'' log'
          | (Raise e, w'', log') => (Raise e, w'', log')
          end
      | (inr e, w') => (Raise e, w', log ++ [Acquire model])
      end
  end.

Definition generate_report (pl : payload) (w : World)
  : outcome batch_result :=
  match pl_brand pl with
  | None => (Raise (KeyError (lit "brand")), w, [])
  | Some brand =>
      let competitors := get_list (pl_competitors pl) in
      let personas := get_list (pl_personas pl) in
      let topics := get_list (pl_topics pl) in
      let prompts := get_list (pl_prompts pl) in
      let models := get_list (pl_models pl) in
      match group_prompts prompts models with
      | Raise e => (Raise e, w, [])
      | Ok prompts_by_model =>
          match models_loop prompts_by_model models [] w [] with
          | (Ok answers_by_model, w', log) =>
              (analyze_all brand competitors personas topics
                 answers_by_model,
               w', log)
          | (Raise e, w', log) => (Raise e, w', log)
          end
      end
  end.

End Orchestrator.

Arguments invoke_loop {World Handle} invoke model llm prompts abm w log.
Arguments models_loop {World Handle} get_llm invoke pbm models abm w log.
Arguments generate_report {World Handle} get_llm invoke pl w.

(** A deterministic stand-in for the model layer: the handle is the model
    name, a response echoes the model and the prompt, the world counts the
    invocations. *)
Definition echo_get_llm (model : str) (w : nat) : (str + exn) * nat :=
  (inl model, w).

Definition echo_invoke (llm : str) (p : str) (w : nat)
  : (response + exn) * nat :=
  (inl (WithContent (TStr (llm ++ lit ": " ++ p))), S w).

Definition echo_report (pl : payload) : outcome nat batch_result :=
  generate_report echo_get_llm echo_invoke pl 0%nat.

(** ** Vocabulary of the properties *)

(** [sub] occurs in [text] as a substring. *)
Definition substring (sub text : str) : Prop :=
  exists pre suf, text = pre ++ sub ++ suf.

(** The sum, over all answers, of the occurrences of the lowercase form of
    [name] in the normalized answer. *)
Fixpoint mentions (name : str) (answers : list text_input) : Z :=
  match answers with
  | [] => 0
  | ans :: rest => count (normalize ans) (lower name) + mentions name rest
  end.

(** The answers in which some brand or competitor occurs. *)
Fixpoint hit_answers (all_brands : list str) (answers : list text_input) : Z :=
  match answers with
  | [] => 0
  | ans :: rest =>
      (if existsb (fun b => str_in (lower b) (normalize ans)) all_brands
       then 1 else 0) + hit_answers all_brands rest
  end.

(** The answer text is a hit for persona [p]. *)
Definition persona_match (text p : str) : bool :=
  match persona_keywords p with
  | Ok kws => contains_any text kws
  | Raise _ => false
  end.

(** The answer text is a hit for topic [t]. *)
Definition topic_match (text t : str) : bool :=
  contains_any text (topic_keywords t).

(** The answers that are a hit for [name]. *)
Fixpoint answers_matching (hit : str -> str -> bool) (name : str)
  (answers : list text_input) : Z :=
  match answers with
  | [] => 0
  | ans :: rest =>
      (if hit (normalize ans) name then 1 else 0)
      + answers_matching hit name rest
  end.

(** How many entries of a vocabulary are exactly [name]. *)
Definition entries (name : str) (vocabulary : list str) : Z :=
  Z.of_nat (count_occ str_eq_dec vocabulary name).

(** Largest count first. *)
Definition descending (items : list (str * Z)) : Prop :=
  StronglySorted (fun x y => snd y <= snd x) items.

Fixpoint sum (l : list Z) : Z :=
  match l with
  | [] => 0
  | x :: rest => x + sum rest
  end.

(** Every key of [ks] is a key of [d]. *)
Definition covers {V : Type} (ks : list str) (d : dict V) : Prop :=
  forall k, In k ks -> dict_get k d <> None.

(** The count a dictionary holds for [k], zero for an absent key. *)
Definition count_of (k : str) (d : dict Z) : Z :=
  match dict_get k d with
  | Some v => v
  | None => 0
  end.

(** The name has a first word: [p.split()] is not empty. *)
Definition has_word (p : str) : Prop := split p <> [].

(** The three count dictionaries keep a key for every vocabulary entry. *)
Definition well_keyed (all_brands personas topics : list str)
  (st : counters) : Prop :=
  incl all_brands (keys (brand_counts st))
  /\ incl personas (keys (persona_counts st))
  /\ incl topics (keys (topic_counts st)).

Definition same_keys (st st' : counters) : Prop :=
  keys (brand_counts st') = keys (brand_counts st)
  /\ keys (persona_counts st') = keys (persona_counts st)
  /\ keys (topic_counts st') = keys (topic_counts st).

(** What one prompt adds to the queue of model [m]. *)
Definition deliveries (models : list str) (m : str) (p : prompt) : list str :=
  match p with
  | Tagged (Some m') (Some text) => if str_eq_dec m m' then [text] else []
  | Tagged _ _ => []
  | Plain text => repeat text (count_occ str_eq_dec models m)
  end.

(** The key a dict prompt lacks, "model" first as it is read first. *)
Definition missing_key (p : prompt) : option str :=
  match p with
  | Tagged None _ => Some (lit "model")
  | Tagged (Some _) None => Some (lit "prompt")
  | Tagged (Some _) (Some _) => None
  | Plain _ => None
  end.

(** The missing key of the first prompt that lacks one. *)
Fixpoint first_missing (prompts : list prompt) : option str :=
  match prompts with
  | [] => None
  | p :: rest =>
      match missing_key p with
      | Some k => Some k
      | None => first_missing rest
      end
  end.

Section LayerRaises.
Variables World Handle : Type.
Variable get_llm : str -> World -> (Handle + exn) * World.
Variable invoke : Handle -> str -> World -> (response + exn) * World.

(** Some call to the model layer raises [e]. *)
Definition layer_raises (e : exn) : Prop :=
  (exists model w w', get_llm model w = (inr e, w'))
  \/ (exists llm p w w', invoke llm p w = (inr e, w')).
End LayerRaises.

Arguments layer_raises {World Handle} get_llm invoke e.

(** The entries of a list in the order of their first occurrence: the
    keys of a dictionary filled from that list. *)
Fixpoint first_occurrences (ks : list str) : list str :=
  match ks with
  | [] => []
  | k :: rest =>
      k :: filter (fun x => if str_eq_dec x k then false else true)
             (first_occurrences rest)
  end.

(** [l] with [k] put last unless it is there already: the keys after
    [d[k] = v]. *)
Definition add_key (k : str) (l : list str) : list str :=
  if in_dec str_eq_dec k l then l else l ++ [k].

Definition is_nil {A : Type} (l : list A) : bool :=
  match l with
  | [] => true
  | _ :: _ => false
  end.

(** The calls [generate_report] makes when nothing fails: for each entry
    of [models], the handle and then the prompts of its queue. *)
Definition expected_log (pbm : dict (list str)) (models : list str)
  : list event :=
  flat_map (fun m => Acquire m :: map (Invoke m) (get_or_nil m pbm)) models.

(** The text of a prompt, empty for a dict without "prompt". *)
Definition prompt_text_of (p : prompt) : str :=
  match p with
  | Tagged _ (Some text) => text
  | Tagged _ None => lit ""
  | Plain text => text
  end.

Definition is_plain (p : prompt) : bool :=
  match p with
  | Tagged _ _ => false
  | Plain _ => true
  end.

(** [int((c / total) * 100)] returns, lies in [0, 100], is the exact
    floor or one less, is exact at both ends and is positive for a
    positive count. *)
Definition percent_ok (c total : Z) : bool :=
  match percent c total with
  | Ok v =>
      (0 <=? v) && (v <=? 100)
      && (100 * c / total - 1 <=? v) && (v <=? 100 * c / total)
      && implb (c =? 0) (v =? 0) && implb (c =? total) (v =? 100)
      && implb (1 <=? c) (1 <=? v)
  | Raise _ => false
  end.

(** [percent_ok] for every total from 1 to [n] and every count up to the
    total. *)
Definition percent_table (n : nat) : bool :=
  forallb (fun t =>
             forallb (fun c => percent_ok (Z.of_nat c) (Z.of_nat t))
               (seq 0 (S t)))
    (seq 1 n).

(** The largest batch the table of [percent] is computed for. *)
Definition table_size : nat := 100.

(** The terms every list [persona_keywords] ends with. *)
Definition static_terms : list str :=
  [lit "strategy"; lit "roadmap"; lit "architecture"; lit "planning";
   lit "analysis"; lit "decision"].

(** What the arguments of a call hold in a store. *)
Definition strs_of (s : store) (a : addr) : list str :=
  nth a (str_lists s) [].

Definition texts_of (s : store) (answers : addr) : list text_input :=
  map (resolve (str_lists s)) (nth answers (answer_lists s) []).

(** The references of a call denote objects of the store. *)
Definition fragments_in (lists : list (list str)) (ans : answer) : bool :=
  match ans with
  | AList a => (a <? length lists)%nat
  | _ => true
  end.

Definition valid_args (s : store) (answers competitors personas topics : addr)
  : bool :=
  (answers <? length (answer_lists s))%nat
  && (competitors <? length (str_lists s))%nat
  && (personas <? length (str_lists s))%nat
  && (topics <? length (str_lists s))%nat
  && forallb (fragments_in (str_lists s)) (nth answers (answer_lists s) []).

(** A store whose last three dicts are the counters of a running call. *)
Definition framed (lists : list (list str)) (alists : list (list answer))
  (base : list (dict Z)) (b p t : dict Z) : store :=
  mkStore lists alists (base ++ [b; p; t]).

(** * Properties *)

(** ** The error monad *)

Lemma bind_Ok {A B : Type} (r : result A) (k : A -> result B) (b : B) :
  bind r k = Ok b -> exists a, r = Ok a /\ k a = Ok b.
Proof.
  destruct r as [a | e]; simpl; intro H.
  - exists a; split; [reflexivity | exact H].
  - discriminate H.
Qed.

Lemma bind_Raise {A B : Type} (r : result A) (k : A -> result B) (e : exn) :
  bind r k = Raise e ->
  r = Raise e \/ exists a, r = Ok a /\ k a = Raise e.
Proof.
  destruct r as [a | e']; simpl; intro H.
  - right; exists a; split; [reflexivity | exact H].
  - left; congruence.
Qed.

Ltac bind_inv H :=
  let a := fresh "a" in
  let Ha := fresh "Ha" in
  apply bind_Ok in H; destruct H as (a & Ha & H).

(** ** Strings *)

Lemma startswith_spec (sub text : str) :
  startswith text sub = true <-> exists suf, text = sub ++ suf.
Proof.
  revert text; induction sub as [| a sub IH]; intro text; simpl.
  - split; [intros _; exists text; reflexivity | reflexivity].
  - destruct text as [| c text].
    + split; [discriminate | intros [suf H]; discriminate H].
    + rewrite andb_true_iff, Ascii.eqb_eq, IH. split.
      * intros [-> [suf ->]]. exists suf; reflexivity.
      * intros [suf H]. injection H as -> ->. split; [reflexivity | eauto].
Qed.

Lemma str_in_spec (sub text : str) :
  str_in sub text = true <-> substring sub text.
Proof.
  unfold substring. induction text as [| c text IH].
  - simpl. rewrite orb_false_r, startswith_spec. split.
    + intros [suf H]. exists [], suf. exact H.
    + intros (pre & suf & H). destruct pre as [| x pre]; [| discriminate H].
      exists suf. exact H.
  - cbn [str_in]. rewrite orb_true_iff, IH, startswith_spec. split.
    + intros [[suf H] | (pre & suf & H)].
      * exists [], suf. exact H.
      * exists (c :: pre), suf. simpl. now rewrite H.
    + intros (pre & suf & H). destruct pre as [| x pre].
      * left. exists suf. exact H.
      * right. injection H as _ H. exists pre, suf. exact H.
Qed.

Lemma str_in_empty (text : str) : str_in [] text = true.
Proof. destruct text; reflexivity. Qed.

Lemma count_from_nonneg (sub : str) (text : str) :
  forall skip, 0 <= count_from sub skip text.
Proof.
  induction text as [| c text IH]; intro skip; cbn [count_from]; [lia |].
  destruct skip; [| apply IH].
  destruct (startswith (c :: text) sub).
  - pose proof (IH (length sub - 1)%nat). lia.
  - apply IH.
Qed.

Lemma count_nonneg (text sub : str) : 0 <= count text sub.
Proof.
  destruct sub; simpl; [lia | apply count_from_nonneg].
Qed.

Lemma count_from_absent (sub : str) (text : str) :
  str_in sub text = false -> forall skip, count_from sub skip text = 0.
Proof.
  induction text as [| c text IH]; intros H skip; [reflexivity |].
  cbn [str_in] in H. apply orb_false_iff in H. destruct H as [H1 H2].
  cbn [count_from]. rewrite H1. destruct skip; apply IH; exact H2.
Qed.

(** The guard [if bl in text] does not change the total: a name that does
    not occur is counted zero times. *)
Lemma count_absent (text sub : str) :
  str_in sub text = false -> count text sub = 0.
Proof.
  destruct sub as [| a sub]; intro H.
  - rewrite str_in_empty in H. discriminate H.
  - simpl. apply count_from_absent. exact H.
Qed.

(** A match at the head of the text is counted and passed over. *)
Lemma count_from_skip (sub : str) (text : str) :
  forall skip, (skip <= length text)%nat ->
  count_from sub skip text = count_from sub 0 (skipn skip text).
Proof.
  induction text as [| c text IH]; intros skip H.
  - destruct skip; reflexivity.
  - destruct skip; [reflexivity |]. simpl in H. cbn [count_from skipn].
    apply IH. lia.
Qed.

Lemma count_match (a : ascii) (sub rest : str) :
  count ((a :: sub) ++ rest) (a :: sub) = 1 + count rest (a :: sub).
Proof.
  assert (H : startswith ((a :: sub) ++ rest) (a :: sub) = true)
    by (apply startswith_spec; eauto).
  unfold count. change ((a :: sub) ++ rest) with (a :: (sub ++ rest)) in *.
  cbn [count_from]. rewrite H. f_equal.
  replace (length (a :: sub) - 1)%nat with (length sub) by (simpl; lia).
  rewrite count_from_skip by (rewrite length_app; lia).
  rewrite skipn_app, skipn_all, Nat.sub_diag. reflexivity.
Qed.

Lemma count_mismatch (c : ascii) (text sub : str) :
  sub <> [] -> startswith (c :: text) sub = false ->
  count (c :: text) sub = count text sub.
Proof.
  destruct sub as [| a sub]; [congruence |]. intros _ H.
  unfold count. cbn [count_from]. rewrite H. reflexivity.
Qed.

(** ** Dictionaries *)

Section DictFacts.
Context {V : Type}.
Implicit Types (d : dict V) (k : str) (v : V).

Lemma dict_get_None k d : dict_get k d = None <-> ~ In k (keys d).
Proof.
  induction d as [| [k' v'] d IH]; simpl.
  - tauto.
  - destruct (str_eq_dec k k') as [-> | Hne].
    + split; [discriminate | intro H; exfalso; apply H; now left].
    + rewrite IH. split.
      * intros H [E | E]; [congruence | tauto].
      * intros H E. apply H. now right.
Qed.

Lemma dict_get_Some_In k v d : dict_get k d = Some v -> In (k, v) d.
Proof.
  induction d as [| [k' v'] d IH]; simpl; [discriminate |].
  destruct (str_eq_dec k k') as [-> | Hne].
  - intro H. injection H as ->. now left.
  - intro H. right. now apply IH.
Qed.

Lemma In_dict_get k v d : NoDup (keys d) -> In (k, v) d -> dict_get k d = Some v.
Proof.
  induction d as [| [k' v'] d IH]; simpl; [tauto |].
  intros Hnd [E | Hin].
  - injection E as -> ->. destruct (str_eq_dec k k); congruence.
  - inversion Hnd as [| ? ? Hk Hnd']; subst.
    destruct (str_eq_dec k k') as [-> | Hne].
    + exfalso. apply Hk. change k' with (fst (k', v)). now apply in_map.
    + now apply IH.
Qed.

Lemma dict_get_set_same k v d : dict_get k (dict_set k v d) = Some v.
Proof.
  induction d as [| [k' v'] d IH]; simpl.
  - destruct (str_eq_dec k k); congruence.
  - destruct (str_eq_dec k k') as [-> | Hne]; simpl.
    + destruct (str_eq_dec k' k'); congruence.
    + destruct (str_eq_dec k k'); congruence.
Qed.

Lemma dict_get_set_other k k' v d :
  k' <> k -> dict_get k' (dict_set k v d) = dict_get k' d.
Proof.
  intro Hne. induction d as [| [k0 v0] d IH]; simpl.
  - destruct (str_eq_dec k' k); congruence.
  - destruct (str_eq_dec k k0) as [-> | Hne0]; simpl.
    + destruct (str_eq_dec k' k0); congruence.
    + destruct (str_eq_dec k' k0); congruence.
Qed.

Lemma keys_set_present k v d :
  In k (keys d) -> keys (dict_set k v d) = keys d.
Proof.
  induction d as [| [k' v'] d IH]; simpl; [tauto |].
  intro H. destruct (str_eq_dec k k') as [-> | Hne]; simpl.
  - reflexivity.
  - f_equal. apply IH. destruct H; congruence.
Qed.

Lemma keys_set_absent k v d :
  ~ In k (keys d) -> keys (dict_set k v d) = keys d ++ [k].
Proof.
  induction d as [| [k' v'] d IH]; simpl; [reflexivity |].
  intro H. destruct (str_eq_dec k k') as [-> | Hne]; simpl.
  - exfalso. apply H. now left.
  - f_equal. apply IH. tauto.
Qed.

Lemma In_keys_set k k' v d :
  In k' (keys (dict_set k v d)) <-> k' = k \/ In k' (keys d).
Proof.
  destruct (in_dec str_eq_dec k (keys d)) as [Hin | Hout].
  - rewrite keys_set_present by assumption. split; [tauto |].
    intros [-> | H]; assumption.
  - rewrite keys_set_absent by assumption. rewrite in_app_iff. simpl.
    intuition (subst; auto).
Qed.

Lemma NoDup_keys_set k v d :
  NoDup (keys d) -> NoDup (keys (dict_set k v d)).
Proof.
  intro Hnd. destruct (in_dec str_eq_dec k (keys d)) as [Hin | Hout].
  - now rewrite keys_set_present.
  - rewrite keys_set_absent by assumption.
    apply NoDup_app; [assumption | repeat constructor; simpl; tauto |].
    intros x Hx [<- | []]. now apply Hout.
Qed.

Lemma fromkeys_acc (v0 : V) (ks : list str) :
  forall d, NoDup (keys d) -> (forall k v, dict_get k d = Some v -> v = v0) ->
  let d' := fold_left (fun d k => dict_set k v0 d) ks d in
  NoDup (keys d')
  /\ (forall k, In k (keys d') <-> In k (keys d) \/ In k ks)
  /\ (forall k v, dict_get k d' = Some v -> v = v0).
Proof.
  induction ks as [| k0 ks IH]; intros d Hnd Hval; simpl.
  - repeat split; auto; tauto.
  - destruct (IH (dict_set k0 v0 d)) as (H1 & H2 & H3).
    + now apply NoDup_keys_set.
    + intros k v. destruct (str_eq_dec k k0) as [-> | Hne].
      * rewrite dict_get_set_same. congruence.
      * rewrite dict_get_set_other by assumption. apply Hval.
    + repeat split; auto.
      * intro H. apply H2 in H. rewrite In_keys_set in H.
        destruct H as [[-> | H] | H]; auto.
      * intro H. apply H2. rewrite In_keys_set.
        destruct H as [H | [<- | H]]; auto.
Qed.

Lemma fromkeys_NoDup (v0 : V) ks : NoDup (keys (dict_fromkeys ks v0)).
Proof.
  apply (fromkeys_acc v0 ks []); [constructor | discriminate].
Qed.

Lemma fromkeys_keys (v0 : V) ks k :
  In k (keys (dict_fromkeys ks v0)) <-> In k ks.
Proof.
  destruct (fromkeys_acc v0 ks []) as (_ & H & _);
    [constructor | discriminate |].
  unfold dict_fromkeys. rewrite H. simpl. tauto.
Qed.

Lemma fromkeys_get (v0 : V) ks k :
  In k ks -> dict_get k (dict_fromkeys ks v0) = Some v0.
Proof.
  intro Hin. destruct (fromkeys_acc v0 ks []) as (_ & _ & H);
    [constructor | discriminate |].
  destruct (dict_get k (dict_fromkeys ks v0)) as [v |] eqn:E.
  - f_equal. now apply (H k).
  - apply dict_get_None in E. exfalso. apply E. now apply fromkeys_keys.
Qed.

Lemma covers_fromkeys (v0 : V) ks : covers ks (dict_fromkeys ks v0).
Proof.
  intros k Hin. rewrite fromkeys_get by assumption. discriminate.
Qed.
End DictFacts.

Lemma count_of_present (k : str) (d : dict Z) :
  In k (keys d) -> dict_get k d = Some (count_of k d).
Proof.
  intro H. unfold count_of. destruct (dict_get k d) eqn:E; [reflexivity |].
  apply dict_get_None in E. contradiction.
Qed.

Lemma dict_incr_inv (k : str) (n : Z) (d d' : dict Z) :
  dict_incr k n d = Ok d' ->
  keys d' = keys d
  /\ forall k', count_of k' d' =
                count_of k' d + (if str_eq_dec k k' then n else 0).
Proof.
  unfold dict_incr. destruct (dict_get k d) as [v |] eqn:E; [| discriminate].
  intro H. injection H as <-. split.
  - apply keys_set_present. destruct (in_dec str_eq_dec k (keys d)) as [|N];
      [assumption |]. apply dict_get_None in N. congruence.
  - intro k'. unfold count_of. destruct (str_eq_dec k k') as [<- | Hne].
    + now rewrite dict_get_set_same, E.
    + rewrite dict_get_set_other by congruence. lia.
Qed.

Lemma dict_incr_total (k : str) (n : Z) (d : dict Z) :
  In k (keys d) -> exists d', dict_incr k n d = Ok d'.
Proof.
  intro H. unfold dict_incr. rewrite (count_of_present k d H). eauto.
Qed.

(** ** Sorting by count *)

Lemma insert_desc_perm (x : str * Z) (l : list (str * Z)) :
  Permutation (insert_desc x l) (x :: l).
Proof.
  induction l as [| y l IH]; simpl; [reflexivity |].
  destruct (snd y <=? snd x); [reflexivity |].
  rewrite IH. apply perm_swap.
Qed.

Lemma sorted_desc_perm (l : list (str * Z)) : Permutation (sorted_desc l) l.
Proof.
  induction l as [| x l IH]; simpl; [reflexivity |].
  rewrite insert_desc_perm. now constructor.
Qed.

Lemma insert_desc_descending (x : str * Z) (l : list (str * Z)) :
  descending l -> descending (insert_desc x l).
Proof.
  unfold descending. induction l as [| y l IH]; intro H; simpl.
  - repeat constructor.
  - inversion H as [| ? ? Hl Hy]; subst.
    destruct (snd y <=? snd x) eqn:E.
    + apply Z.leb_le in E. constructor; [assumption |].
      constructor; [assumption |].
      eapply Forall_impl; [| exact Hy]. simpl. intros; lia.
    + apply Z.leb_gt in E. constructor; [now apply IH |].
      eapply Permutation_Forall;
        [symmetry; apply insert_desc_perm |].
      constructor; [lia | assumption].
Qed.

Lemma sorted_desc_descending (l : list (str * Z)) : descending (sorted_desc l).
Proof.
  induction l as [| x l IH]; simpl.
  - constructor.
  - now apply insert_desc_descending.
Qed.

Lemma sorted_desc_keys (d : dict Z) :
  Permutation (keys (sorted_desc d)) (keys d).
Proof.
  unfold keys. apply Permutation_map, sorted_desc_perm.
Qed.

(** Sorting a dictionary moves its items and changes no lookup. *)
Lemma sorted_desc_get (k : str) (d : dict Z) :
  NoDup (keys d) -> dict_get k (sorted_desc d) = dict_get k d.
Proof.
  intro Hnd. destruct (dict_get k d) as [v |] eqn:E.
  - apply In_dict_get.
    + eapply Permutation_NoDup; [symmetry; apply sorted_desc_keys | exact Hnd].
    + eapply Permutation_in; [symmetry; apply sorted_desc_perm |].
      now apply dict_get_Some_In.
  - apply dict_get_None. apply dict_get_None in E. intro H. apply E.
    eapply Permutation_in; [apply sorted_desc_keys | exact H].
Qed.

(** ** The loops of the scorer *)

Lemma entries_cons (name b : str) (bs : list str) :
  entries name (b :: bs) =
  (if str_eq_dec b name then 1 else 0) + entries name bs.
Proof.
  unfold entries. simpl. destruct (str_eq_dec b name); [| lia].
  rewrite Nat2Z.inj_succ. lia.
Qed.

Lemma entries_present (name : str) (vocabulary : list str) :
  In name vocabulary -> 1 <= entries name vocabulary.
Proof.
  intro H. unfold entries.
  apply (count_occ_In str_eq_dec) in H. lia.
Qed.

Lemma brand_loop_inv (text : str) (bs : list str) :
  forall bc found bc' found',
  brand_loop text bs bc found = Ok (bc', found') ->
  keys bc' = keys bc
  /\ (forall name, count_of name bc' =
        count_of name bc + entries name bs * count text (lower name))
  /\ found' = found || existsb (fun b => str_in (lower b) text) bs.
Proof.
  induction bs as [| b bs IH]; intros bc found bc' found' H;
    cbn [brand_loop] in H.
  - injection H as <- <-. split; [reflexivity |]. split.
    + intro name. unfold entries. simpl. lia.
    + simpl. now rewrite orb_false_r.
  - cbv zeta in H. destruct (str_in (lower b) text) eqn:E.
    + bind_inv H. apply dict_incr_inv in Ha as [Hk Hc].
      apply IH in H as (H1 & H2 & H3). split; [congruence |]. split.
      * intro name. rewrite H2, Hc, entries_cons.
        destruct (str_eq_dec b name) as [-> |]; lia.
      * simpl. rewrite E, H3. now rewrite orb_true_r.
    + apply IH in H as (H1 & H2 & H3). split; [assumption |]. split.
      * intro name. rewrite H2, entries_cons.
        destruct (str_eq_dec b name) as [<- |]; [| lia].
        rewrite (count_absent _ _ E). lia.
      * simpl. rewrite E. exact H3.
Qed.

Lemma brand_loop_total (text : str) (bs : list str) :
  forall bc found, incl bs (keys bc) ->
  exists r, brand_loop text bs bc found = Ok r.
Proof.
  induction bs as [| b bs IH]; intros bc found Hin; cbn [brand_loop].
  - eauto.
  - cbv zeta. apply incl_cons_inv in Hin as [Hb Hbs].
    destruct (str_in (lower b) text).
    + destruct (dict_incr_total b (count text (lower b)) bc Hb) as [bc' E].
      rewrite E. simpl. apply IH.
      apply dict_incr_inv in E as [-> _]. exact Hbs.
    + now apply IH.
Qed.

Lemma persona_loop_keys (text : str) (ps : list str) :
  forall pc pc', persona_loop text ps pc = Ok pc' -> keys pc' = keys pc.
Proof.
  induction ps as [| p ps IH]; intros pc pc' H; cbn [persona_loop] in H.
  - now injection H as <-.
  - bind_inv H. destruct (contains_any text a).
    + bind_inv H. apply dict_incr_inv in Ha0 as [Hk _].
      apply IH in H. congruence.
    + now apply IH.
Qed.

Lemma persona_keywords_word (p : str) :
  has_word p -> exists kws, persona_keywords p = Ok kws.
Proof.
  unfold has_word, persona_keywords. destruct (split p); [congruence | eauto].
Qed.

Lemma persona_keywords_no_word (p : str) :
  ~ has_word p -> persona_keywords p = Raise IndexError.
Proof.
  unfold has_word, persona_keywords. destruct (split p); [reflexivity |].
  intro H. exfalso. apply H. discriminate.
Qed.

Lemma has_word_dec (p : str) : {has_word p} + {~ has_word p}.
Proof.
  unfold has_word. destruct (split p); [right | left]; congruence.
Defined.

Lemma persona_loop_total (text : str) (ps : list str) :
  forall pc, incl ps (keys pc) -> Forall has_word ps ->
  exists pc', persona_loop text ps pc = Ok pc'.
Proof.
  induction ps as [| p ps IH]; intros pc Hin Hw; cbn [persona_loop].
  - eauto.
  - apply incl_cons_inv in Hin as [Hp Hps].
    inversion Hw as [| ? ? Hwp Hws]; subst.
    destruct (persona_keywords_word p Hwp) as [kws ->]. simpl.
    destruct (contains_any text kws).
    + destruct (dict_incr_total p 1 pc Hp) as [pc' E]. rewrite E. simpl.
      apply IH; [| assumption]. apply dict_incr_inv in E as [-> _]. exact Hps.
    + now apply IH.
Qed.

(** A persona without a word stops the loop, whatever comes before it. *)
Lemma persona_loop_raises (text : str) (ps : list str) :
  forall pc, incl ps (keys pc) -> Exists (fun p => ~ has_word p) ps ->
  persona_loop text ps pc = Raise IndexError.
Proof.
  induction ps as [| p ps IH]; intros pc Hin Hx; [inversion Hx |].
  apply incl_cons_inv in Hin as [Hp Hps]. cbn [persona_loop].
  destruct (has_word_dec p) as [Hw | Hn].
  - assert (Hx' : Exists (fun p => ~ has_word p) ps)
      by (inversion Hx; subst; [contradiction | assumption]).
    destruct (persona_keywords_word p Hw) as [kws ->]. simpl.
    destruct (contains_any text kws).
    + destruct (dict_incr_total p 1 pc Hp) as [pc' E]. rewrite E. simpl.
      apply IH; [| assumption]. apply dict_incr_inv in E as [-> _]. exact Hps.
    + now apply IH.
  - now rewrite persona_keywords_no_word.
Qed.

Lemma topic_loop_keys (text : str) (ts : list str) :
  forall tc tc', topic_loop text ts tc = Ok tc' -> keys tc' = keys tc.
Proof.
  induction ts as [| t ts IH]; intros tc tc' H; cbn [topic_loop] in H.
  - now injection H as <-.
  - destruct (contains_any text (topic_keywords t)).
    + bind_inv H. apply dict_incr_inv in Ha as [Hk _].
      apply IH in H. congruence.
    + now apply IH.
Qed.

Lemma topic_loop_total (text : str) (ts : list str) :
  forall tc, incl ts (keys tc) -> exists tc', topic_loop text ts tc = Ok tc'.
Proof.
  induction ts as [| t ts IH]; intros tc Hin; cbn [topic_loop].
  - eauto.
  - apply incl_cons_inv in Hin as [Ht Hts].
    destruct (contains_any text (topic_keywords t)).
    + destruct (dict_incr_total t 1 tc Ht) as [tc' E]. rewrite E. simpl.
      apply IH. apply dict_incr_inv in E as [-> _]. exact Hts.
    + now apply IH.
Qed.

Lemma persona_loop_counts (text : str) (ps : list str) :
  forall pc pc', persona_loop text ps pc = Ok pc' ->
  forall name, count_of name pc' =
    count_of name pc
    + entries name ps * (if persona_match text name then 1 else 0).
Proof.
  induction ps as [| p ps IH]; intros pc pc' H name; cbn [persona_loop] in H.
  - injection H as <-. unfold entries. simpl. lia.
  - bind_inv H. rewrite entries_cons.
    assert (Hm : persona_match text p = contains_any text a)
      by (unfold persona_match; now rewrite Ha).
    destruct (contains_any text a).
    + bind_inv H. apply dict_incr_inv in Ha0 as [_ Hc].
      rewrite (IH _ _ H), Hc.
      destruct (str_eq_dec p name) as [<- |]; [rewrite Hm |]; lia.
    + rewrite (IH _ _ H).
      destruct (str_eq_dec p name) as [<- |]; [rewrite Hm |]; lia.
Qed.

Lemma topic_loop_counts (text : str) (ts : list str) :
  forall tc tc', topic_loop text ts tc = Ok tc' ->
  forall name, count_of name tc' =
    count_of name tc
    + entries name ts * (if topic_match text name then 1 else 0).
Proof.
  induction ts as [| t ts IH]; intros tc tc' H name; cbn [topic_loop] in H.
  - injection H as <-. unfold entries. simpl. lia.
  - rewrite entries_cons. fold (topic_match text t) in H.
    destruct (topic_match text t) eqn:Hm.
    + bind_inv H. apply dict_incr_inv in Ha as [_ Hc].
      rewrite (IH _ _ H), Hc.
      destruct (str_eq_dec t name) as [<- |]; [rewrite Hm |]; lia.
    + rewrite (IH _ _ H).
      destruct (str_eq_dec t name) as [<- |]; [rewrite Hm |]; lia.
Qed.

Section Scorer.
Variables all_brands personas topics : list str.

Lemma score_answer_inv (st st' : counters) (ans : text_input) :
  score_answer all_brands personas topics st ans = Ok st' ->
  same_keys st st'
  /\ (forall name, count_of name (brand_counts st') =
        count_of name (brand_counts st)
        + entries name all_brands * count (normalize ans) (lower name))
  /\ brand_hit_answers st' =
       brand_hit_answers st + hit_answers all_brands [ans]
  /\ (forall name, count_of name (persona_counts st') =
        count_of name (persona_counts st)
        + entries name personas * answers_matching persona_match name [ans])
  /\ (forall name, count_of name (topic_counts st') =
        count_of name (topic_counts st)
        + entries name topics * answers_matching topic_match name [ans]).
Proof.
  unfold score_answer. cbv zeta. intro H.
  bind_inv H. bind_inv H. bind_inv H. injection H as <-.
  destruct a as [bc' found']. simpl.
  apply brand_loop_inv in Ha as (Hk & Hc & Hf).
  pose proof (persona_loop_keys _ _ _ _ Ha0) as Hpk.
  pose proof (topic_loop_keys _ _ _ _ Ha1) as Htk.
  split; [now repeat split |]. split; [exact Hc |]. split.
  - rewrite Hf. simpl.
    destruct (existsb (fun b => str_in (lower b) (normalize ans))
                all_brands); lia.
  - split; intro name.
    + rewrite (persona_loop_counts _ _ _ _ Ha0).
      destruct (persona_match (normalize ans) name); lia.
    + rewrite (topic_loop_counts _ _ _ _ Ha1).
      destruct (topic_match (normalize ans) name); lia.
Qed.

Lemma answers_loop_inv (answers : list text_input) :
  forall st st',
  answers_loop all_brands personas topics st answers = Ok st' ->
  same_keys st st'
  /\ (forall name, count_of name (brand_counts st') =
        count_of name (brand_counts st)
        + entries name all_brands * mentions name answers)
  /\ brand_hit_answers st' =
       brand_hit_answers st + hit_answers all_brands answers
  /\ (forall name, count_of name (persona_counts st') =
        count_of name (persona_counts st)
        + entries name personas
          * answers_matching persona_match name answers)
  /\ (forall name, count_of name (topic_counts st') =
        count_of name (topic_counts st)
        + entries name topics * answers_matching topic_match name answers).
Proof.
  induction answers as [| ans rest IH]; intros st st' H;
    cbn [answers_loop] in H.
  - injection H as <-. split; [now repeat split |].
    repeat split; intros; simpl; lia.
  - bind_inv H.
    apply score_answer_inv in Ha
      as ((K1 & K2 & K3) & Hc & Hh & Hp & Ht).
    apply IH in H as ((L1 & L2 & L3) & Hc' & Hh' & Hp' & Ht').
    split; [repeat split; congruence |].
    repeat split; intros;
      rewrite ?Hc', ?Hc, ?Hh', ?Hh, ?Hp', ?Hp, ?Ht', ?Ht;
      cbn [mentions hit_answers answers_matching]; lia.
Qed.

Lemma well_keyed_same (st st' : counters) :
  same_keys st st' ->
  well_keyed all_brands personas topics st ->
  well_keyed all_brands personas topics st'.
Proof.
  unfold same_keys, well_keyed. intros (-> & -> & ->). tauto.
Qed.

Lemma well_keyed_initial :
  well_keyed all_brands personas topics
    (initial_counters all_brands personas topics).
Proof.
  repeat split; intros k Hk; simpl; now apply fromkeys_keys.
Qed.

Lemma score_answer_total (st : counters) (ans : text_input) :
  well_keyed all_brands personas topics st -> Forall has_word personas ->
  exists st', score_answer all_brands personas topics st ans = Ok st'.
Proof.
  intros (Hb & Hp & Ht) Hw. unfold score_answer. cbv zeta.
  destruct (brand_loop_total (normalize ans) all_brands
              (brand_counts st) false Hb) as [bf ->].
  destruct (persona_loop_total (normalize ans) personas
              (persona_counts st) Hp Hw) as [pc ->].
  destruct (topic_loop_total (normalize ans) topics
              (topic_counts st) Ht) as [tc ->].
  simpl. eauto.
Qed.

Lemma score_answer_raises (st : counters) (ans : text_input) :
  well_keyed all_brands personas topics st ->
  Exists (fun p => ~ has_word p) personas ->
  score_answer all_brands personas topics st ans = Raise IndexError.
Proof.
  intros (Hb & Hp & Ht) Hx. unfold score_answer. cbv zeta.
  destruct (brand_loop_total (normalize ans) all_brands
              (brand_counts st) false Hb) as [bf ->].
  now rewrite (persona_loop_raises (normalize ans) personas
                 (persona_counts st) Hp Hx).
Qed.

Lemma answers_loop_total (answers : list text_input) :
  forall st, well_keyed all_brands personas topics st ->
  Forall has_word personas ->
  exists st', answers_loop all_brands personas topics st answers = Ok st'.
Proof.
  induction answers as [| ans rest IH]; intros st Hk Hw;
    cbn [answers_loop]; [eauto |].
  destruct (score_answer_total st ans Hk Hw) as [st1 E]. rewrite E. simpl.
  apply IH; [| assumption]. apply score_answer_inv in E as [Hs _].
  now apply (well_keyed_same st).
Qed.

Lemma answers_loop_raises (st : counters) (ans : text_input)
  (rest : list text_input) :
  well_keyed all_brands personas topics st ->
  Exists (fun p => ~ has_word p) personas ->
  answers_loop all_brands personas topics st (ans :: rest)
  = Raise IndexError.
Proof.
  intros Hk Hx. cbn [answers_loop].
  now rewrite (score_answer_raises st ans Hk Hx).
Qed.
End Scorer.

Lemma percent_no_KeyError (c total : Z) (k : str) :
  percent c total <> Raise (KeyError k).
Proof.
  unfold percent, int_of_float.
  destruct (SFmul prec emax (truediv c total) (float_of_int 100));
    discriminate.
Qed.

Lemma visibility_no_KeyError (total : Z) (k : str) (items : dict Z) :
  visibility total items <> Raise (KeyError k).
Proof.
  induction items as [| [p c] items IH]; simpl; [discriminate |].
  destruct (c >? 0); [| exact IH].
  intro H. apply bind_Raise in H as [H | (v & _ & H)].
  - now apply percent_no_KeyError in H.
  - apply bind_Raise in H as [H | (vs & _ & H)]; [contradiction | discriminate].
Qed.

Lemma build_report_no_KeyError (total : Z) (st : counters) (k : str) :
  build_report total st <> Raise (KeyError k).
Proof.
  unfold build_report. intro H.
  apply bind_Raise in H as [H | (bv & _ & H)];
    [now apply percent_no_KeyError in H |].
  cbv zeta in H. apply bind_Raise in H as [H | (pv & _ & H)];
    [now apply visibility_no_KeyError in H |].
  apply bind_Raise in H as [H | (tv & _ & H)];
    [now apply visibility_no_KeyError in H | discriminate].
Qed.

Lemma build_report_inv (total : Z) (st : counters) (r : report) :
  build_report total st = Ok r ->
  percent (brand_hit_answers st) total = Ok (brand_visibility r)
  /\ brand_mentions r = sorted_desc (brand_counts st)
  /\ visibility total (persona_counts st) = Ok (persona_visibility r)
  /\ visibility total (topic_counts st) = Ok (topic_visibility r).
Proof.
  unfold build_report. intro H. bind_inv H. cbv zeta in H.
  bind_inv H. bind_inv H. injection H as <-. simpl. auto.
Qed.

Lemma analyze_answers_inv (answers : list text_input) (brand : str)
  (competitors personas topics : list str) (r : report) :
  analyze_answers answers brand competitors personas topics = Ok r ->
  exists st,
    answers_loop (brand :: competitors) personas topics
      (initial_counters (brand :: competitors) personas topics) answers
    = Ok st
    /\ build_report (total_of answers) st = Ok r.
Proof.
  unfold analyze_answers. cbv zeta. intro H. bind_inv H. eauto.
Qed.

(** The scorer never looks up a key its dictionaries lack. *)
Lemma analyze_answers_no_KeyError (answers : list text_input) (brand : str)
  (competitors personas topics : list str) (k : str) :
  analyze_answers answers brand competitors personas topics
  <> Raise (KeyError k).
Proof.
  unfold analyze_answers. cbv zeta.
  pose proof (well_keyed_initial (brand :: competitors) personas topics) as Hk.
  destruct (Forall_Exists_dec has_word has_word_dec personas) as [Hw | Hx].
  - destruct (answers_loop_total (brand :: competitors) personas topics
                answers _ Hk Hw) as [st ->].
    simpl. apply build_report_no_KeyError.
  - destruct answers as [| ans rest].
    + simpl. apply build_report_no_KeyError.
    + rewrite answers_loop_raises by assumption. discriminate.
Qed.

(** ** The visibility mappings *)

Lemma visibility_In (total : Z) (items vs : dict Z) :
  visibility total items = Ok vs ->
  forall k v, In (k, v) vs ->
  exists c, In (k, c) items /\ 0 < c /\ percent c total = Ok v.
Proof.
  revert vs. induction items as [| [k0 c0] items IH]; intros vs H k v Hin;
    cbn [visibility] in H.
  - injection H as <-. destruct Hin.
  - destruct (c0 >? 0) eqn:E.
    + bind_inv H. bind_inv H. injection H as <-.
      destruct Hin as [Heq | Hin].
      * injection Heq as <- <-. exists c0. split; [now left |].
        split; [lia | assumption].
      * destruct (IH _ Ha0 _ _ Hin) as (c & H1 & H2). exists c.
        split; [now right | assumption].
    + destruct (IH _ H _ _ Hin) as (c & H1 & H2). exists c.
      split; [now right | assumption].
Qed.

Lemma visibility_keeps (total : Z) (items vs : dict Z) :
  visibility total items = Ok vs ->
  forall k c, In (k, c) items -> 0 < c ->
  exists v, In (k, v) vs /\ percent c total = Ok v.
Proof.
  revert vs. induction items as [| [k0 c0] items IH]; intros vs H k c Hin Hc;
    cbn [visibility] in H; [destruct Hin |].
  destruct (c0 >? 0) eqn:E.
  - bind_inv H. bind_inv H. injection H as <-.
    destruct Hin as [Heq | Hin].
    + injection Heq as <- <-. exists a. split; [now left | assumption].
    + destruct (IH _ Ha0 _ _ Hin Hc) as (v & H1 & H2). exists v.
      split; [now right | assumption].
  - destruct Hin as [Heq | Hin].
    + injection Heq as <- <-. lia.
    + now apply (IH _ H _ _ Hin Hc).
Qed.

(** A key of a visibility mapping has a positive count behind it. *)
Lemma visibility_get (total : Z) (items vs : dict Z) (k : str) (v : Z) :
  NoDup (keys items) ->
  visibility total items = Ok vs ->
  dict_get k vs = Some v ->
  exists c, dict_get k items = Some c /\ 1 <= c /\ percent c total = Ok v.
Proof.
  intros Hnd H Hget. apply dict_get_Some_In in Hget.
  destruct (visibility_In _ _ _ H _ _ Hget) as (c & Hin & Hc & Hp).
  exists c. split; [now apply In_dict_get | split; [lia | assumption]].
Qed.

(** A key whose count is not positive is left out. *)
Lemma visibility_omits (total : Z) (items vs : dict Z) (k : str) (c : Z) :
  NoDup (keys items) ->
  visibility total items = Ok vs ->
  dict_get k items = Some c -> c <= 0 ->
  dict_get k vs = None.
Proof.
  intros Hnd H Hget Hc. destruct (dict_get k vs) as [v |] eqn:E;
    [| reflexivity].
  destruct (visibility_get _ _ _ _ _ Hnd H E) as (c' & Hget' & Hc' & _).
  rewrite Hget in Hget'. injection Hget' as <-. lia.
Qed.

Lemma answers_loop_NoDup (all_brands personas topics : list str)
  (answers : list text_input) (st : counters) :
  answers_loop all_brands personas topics
    (initial_counters all_brands personas topics) answers = Ok st ->
  NoDup (keys (brand_counts st))
  /\ NoDup (keys (persona_counts st))
  /\ NoDup (keys (topic_counts st)).
Proof.
  intro H. apply answers_loop_inv in H as ((K1 & K2 & K3) & _).
  rewrite K1, K2, K3. simpl. repeat split; apply fromkeys_NoDup.
Qed.

(** ** Brand mentions of one report *)

Lemma mentions_app (name : str) (xs ys : list text_input) :
  mentions name (xs ++ ys) = mentions name xs + mentions name ys.
Proof.
  induction xs as [| x xs IH]; simpl; lia.
Qed.

Lemma count_of_fromkeys (ks : list str) (k : str) :
  count_of k (dict_fromkeys ks 0) = 0.
Proof.
  unfold count_of. destruct (dict_get k (dict_fromkeys ks 0)) as [v |] eqn:E;
    [| reflexivity].
  destruct (fromkeys_acc 0 ks []) as (_ & _ & H);
    [constructor | discriminate |]. now apply (H k).
Qed.

Lemma brand_mentions_get (answers : list text_input) (brand : str)
  (competitors personas topics : list str) (r : report) (name : str) :
  analyze_answers answers brand competitors personas topics = Ok r ->
  In name (brand :: competitors) ->
  dict_get name (brand_mentions r)
  = Some (entries name (brand :: competitors) * mentions name answers).
Proof.
  intros H Hin. apply analyze_answers_inv in H as (st & Hloop & Hrep).
  apply build_report_inv in Hrep as (_ & -> & _).
  destruct (answers_loop_NoDup _ _ _ _ _ Hloop) as (Hnd & _).
  apply answers_loop_inv in Hloop as ((K1 & _) & Hc & _).
  rewrite sorted_desc_get by assumption.
  rewrite count_of_present.
  - rewrite Hc. simpl. now rewrite count_of_fromkeys.
  - rewrite K1. simpl. now apply fromkeys_keys.
Qed.

Lemma brand_mentions_keys (answers : list text_input) (brand : str)
  (competitors personas topics : list str) (r : report) (name : str) :
  analyze_answers answers brand competitors personas topics = Ok r ->
  In name (keys (brand_mentions r)) <-> In name (brand :: competitors).
Proof.
  intro H. apply analyze_answers_inv in H as (st & Hloop & Hrep).
  apply build_report_inv in Hrep as (_ & -> & _).
  apply answers_loop_inv in Hloop as ((K1 & _) & _).
  rewrite <- (fromkeys_keys 0 (brand :: competitors) name).
  simpl in K1. rewrite <- K1. split; intro Hin.
  - eapply Permutation_in; [apply sorted_desc_keys | exact Hin].
  - eapply Permutation_in; [symmetry; apply sorted_desc_keys | exact Hin].
Qed.

(** ** Routing *)

Section Queues.
Context {A : Type}.
Implicit Types (d : dict (list A)) (m k : str) (x : A).

Lemma get_or_nil_dd_append m k x d :
  get_or_nil m (dd_append k x d)
  = get_or_nil m d ++ (if str_eq_dec m k then [x] else []).
Proof.
  unfold get_or_nil, dd_append.
  destruct (str_eq_dec m k) as [-> | Hne].
  - destruct (dict_get k d) as [l |] eqn:E;
      now rewrite dict_get_set_same.
  - destruct (dict_get k d) as [l |] eqn:E;
      rewrite dict_get_set_other by assumption;
      now rewrite app_nil_r.
Qed.

Lemma keys_dd_append m k x d :
  In m (keys (dd_append k x d)) <-> m = k \/ In m (keys d).
Proof.
  unfold dd_append. destruct (dict_get k d); apply In_keys_set.
Qed.

Lemma NoDup_dd_append k x d :
  NoDup (keys d) -> NoDup (keys (dd_append k x d)).
Proof.
  unfold dd_append. destruct (dict_get k d); apply NoDup_keys_set.
Qed.
End Queues.

Lemma get_or_nil_broadcast (m p : str) (models : list str) :
  forall pbm, get_or_nil m (broadcast p models pbm)
  = get_or_nil m pbm ++ repeat p (count_occ str_eq_dec models m).
Proof.
  induction models as [| m0 models IH]; intro pbm; simpl.
  - now rewrite app_nil_r.
  - rewrite IH, get_or_nil_dd_append.
    destruct (str_eq_dec m0 m) as [-> | Hne].
    + destruct (str_eq_dec m m); [| congruence].
      now rewrite <- app_assoc.
    + destruct (str_eq_dec m m0); [congruence |].
      now rewrite app_nil_r.
Qed.

Lemma get_or_nil_route (models : list str) (m : str) (p : prompt)
  (pbm pbm' : dict (list str)) :
  route_prompt models pbm p = Ok pbm' ->
  get_or_nil m pbm' = get_or_nil m pbm ++ deliveries models m p.
Proof.
  destruct p as [[m' |] [text |] | text]; simpl; intro H;
    try discriminate H; injection H as <-.
  - apply get_or_nil_dd_append.
  - apply get_or_nil_broadcast.
Qed.

Lemma get_or_nil_route_prompts (models : list str) (m : str)
  (prompts : list prompt) :
  forall pbm pbm',
  route_prompts models prompts pbm = Ok pbm' ->
  get_or_nil m pbm'
  = get_or_nil m pbm ++ flat_map (deliveries models m) prompts.
Proof.
  induction prompts as [| p prompts IH]; intros pbm pbm' H;
    cbn [route_prompts] in H.
  - injection H as <-. simpl. now rewrite app_nil_r.
  - bind_inv H. rewrite (IH _ _ H), (get_or_nil_route _ _ _ _ _ Ha).
    simpl. now rewrite <- app_assoc.
Qed.

(** The queues after routing, when routing returns. *)
Lemma group_prompts_queue (prompts : list prompt) (models : list str)
  (pbm : dict (list str)) (m : str) :
  group_prompts prompts models = Ok pbm ->
  get_or_nil m pbm = flat_map (deliveries models m) prompts.
Proof.
  intro H. unfold group_prompts in H.
  now rewrite (get_or_nil_route_prompts _ m _ _ _ H).
Qed.

Lemma route_prompt_outcome (models : list str) (p : prompt)
  (pbm : dict (list str)) :
  match missing_key p with
  | None => exists pbm', route_prompt models pbm p = Ok pbm'
  | Some k => route_prompt models pbm p = Raise (KeyError k)
  end.
Proof.
  destruct p as [[m |] [text |] | text]; simpl; eauto.
Qed.

(** Routing stops at the first dict prompt that lacks a key, with the key
    error of that key, and returns otherwise. *)
Lemma route_prompts_outcome (models : list str) (prompts : list prompt) :
  forall pbm,
  match first_missing prompts with
  | None => exists pbm', route_prompts models prompts pbm = Ok pbm'
  | Some k => route_prompts models prompts pbm = Raise (KeyError k)
  end.
Proof.
  induction prompts as [| p prompts IH]; intro pbm;
    cbn [first_missing route_prompts]; [eauto |].
  pose proof (route_prompt_outcome models p pbm) as Hp.
  destruct (missing_key p) as [k |].
  - now rewrite Hp.
  - destruct Hp as [pbm' ->]. simpl. apply IH.
Qed.

Lemma missing_key_name (p : prompt) (k : str) :
  missing_key p = Some k -> k = lit "model" \/ k = lit "prompt".
Proof.
  destruct p as [[m |] [text |] | text]; simpl; intro H;
    try discriminate H; injection H as <-; auto.
Qed.

Lemma first_missing_In (prompts : list prompt) (k : str) :
  first_missing prompts = Some k ->
  exists p, In p prompts /\ missing_key p = Some k.
Proof.
  induction prompts as [| p prompts IH]; cbn [first_missing];
    [discriminate |].
  destruct (missing_key p) as [k' |] eqn:E.
  - intro H. injection H as <-. exists p. split; [now left | exact E].
  - intro H. destruct (IH H) as (q & Hin & Hq). exists q.
    split; [now right | exact Hq].
Qed.

Lemma first_missing_None (prompts : list prompt) :
  first_missing prompts = None <->
  Forall (fun p => missing_key p = None) prompts.
Proof.
  induction prompts as [| p prompts IH]; cbn [first_missing].
  - split; [constructor | reflexivity].
  - destruct (missing_key p) as [k |] eqn:E.
    + split; [discriminate |]. intro H. inversion H; subst. congruence.
    + rewrite IH. split; [now constructor | intro H; now inversion H].
Qed.

(** ** Analysis per model *)

Lemma dict_set_absent {V : Type} (k : str) (v : V) (d : dict V) :
  ~ In k (keys d) -> dict_set k v d = d ++ [(k, v)].
Proof.
  induction d as [| [k' v'] d IH]; simpl; [reflexivity |].
  intro H. destruct (str_eq_dec k k') as [-> | Hne].
  - exfalso. apply H. now left.
  - f_equal. apply IH. tauto.
Qed.

Lemma per_model_loop_inv (brand : str) (competitors personas topics : list str)
  (items : dict (list text_input)) :
  forall pm ca pm' ca',
  per_model_loop brand competitors personas topics items pm ca = Ok (pm', ca') ->
  NoDup (keys pm ++ keys items) ->
  exists rs,
    pm' = pm ++ rs
    /\ ca' = ca ++ concat (map snd items)
    /\ Forall2 (fun item mr =>
                  fst mr = fst item
                  /\ analyze_answers (snd item) brand competitors personas
                       topics = Ok (snd mr)) items rs.
Proof.
  induction items as [| [model answers] items IH]; intros pm ca pm' ca' H Hnd;
    cbn [per_model_loop] in H.
  - injection H as <- <-. exists []. simpl.
    rewrite !app_nil_r. repeat split. constructor.
  - bind_inv H. simpl in Hnd.
    assert (Hout : ~ In model (keys pm)).
    { intro Hin. apply NoDup_remove_2 in Hnd. apply Hnd.
      apply in_or_app. now left. }
    rewrite dict_set_absent in H by assumption.
    apply IH in H as (rs & -> & -> & HF).
    + exists ((model, a) :: rs). rewrite <- !app_assoc. simpl.
      repeat split. constructor; [split; [reflexivity | assumption] |].
      exact HF.
    + unfold keys in *. rewrite map_app, <- app_assoc. exact Hnd.
Qed.

(** ** The calls to the model layer *)

Section ModelLayer.
Variables World Handle : Type.
Variable get_llm : str -> World -> (Handle + exn) * World.
Variable invoke : Handle -> str -> World -> (response + exn) * World.

Lemma invoke_loop_inv (model : str) (llm : Handle) (prompts : list str) :
  forall abm w log abm' w' log',
  invoke_loop invoke model llm prompts abm w log = (Ok abm', w', log') ->
  (NoDup (keys abm) -> NoDup (keys abm'))
  /\ (forall m, In m (keys abm') <->
                In m (keys abm) \/ (m = model /\ prompts <> []))
  /\ (forall e, In e log -> In e log').
Proof.
  induction prompts as [| p rest IH]; intros abm w log abm' w' log' H;
    cbn [invoke_loop] in H.
  - injection H as <- <- <-. split; [auto |]. split; [| auto].
    intro m. split; [auto |].
    intros [Hin | [_ Hne]]; [assumption | congruence].
  - destruct (invoke llm p w) as [[r | what] w1]; [| discriminate].
    apply IH in H as (H1 & H2 & H3). split; [| split].
    + intro Hnd. apply H1. now apply NoDup_dd_append.
    + intro m. rewrite H2, keys_dd_append. split.
      * intros [[-> | Hin] | [-> _]]; auto;
          (right; split; [reflexivity | discriminate]).
      * intros [Hin | [-> _]]; auto.
    + intros e He. apply H3. apply in_or_app. now left.
Qed.

Lemma models_loop_inv (pbm : dict (list str)) (models : list str) :
  forall abm w log abm' w' log',
  models_loop get_llm invoke pbm models abm w log = (Ok abm', w', log') ->
  (NoDup (keys abm) -> NoDup (keys abm'))
  /\ (forall m, In m (keys abm') <->
                In m (keys abm)
                \/ (In m models /\ get_or_nil m pbm <> []))
  /\ (forall m, In m models -> In (Acquire m) log')
  /\ (forall e, In e log -> In e log').
Proof.
  induction models as [| model rest IH]; intros abm w log abm' w' log' H;
    cbn [models_loop] in H.
  - injection H as <- <- <-. split; [auto |]. split; [| split; [| auto]].
    + intro m. split; [auto |]. intros [Hin | [[] _]]. assumption.
    + intros m [].
  - destruct (get_llm model w) as [[llm | what] w1]; [| discriminate].
    destruct (invoke_loop invoke model llm (get_or_nil model pbm) abm w1
                (log ++ [Acquire model])) as [[[abm1 | e] w2] log2] eqn:E;
      [| discriminate].
    apply invoke_loop_inv in E as (E1 & E2 & E3).
    apply IH in H as (H1 & H2 & H3 & H4). split; [| split; [| split]].
    + intro Hnd. auto.
    + intro m. rewrite H2, E2. split.
      * intros [[Hin | [-> Hq]] | [Hin Hq]]; auto.
        -- right. split; [now left | assumption].
        -- right. split; [now right | assumption].
      * intros [Hin | [[<- | Hin] Hq]]; auto.
    + intros m [<- | Hin]; [| now apply H3].
      apply H4, E3, in_or_app. right. now left.
    + intros e He. apply H4, E3, in_or_app. now left.
Qed.

Lemma generate_report_inv (pl : payload) (w w' : World) (res : batch_result)
  (log : list event) :
  generate_report get_llm invoke pl w = (Ok res, w', log) ->
  exists brand pbm abm,
    pl_brand pl = Some brand
    /\ group_prompts (get_list (pl_prompts pl)) (get_list (pl_models pl))
       = Ok pbm
    /\ models_loop get_llm invoke pbm (get_list (pl_models pl)) [] w []
       = (Ok abm, w', log)
    /\ analyze_all brand (get_list (pl_competitors pl))
         (get_list (pl_personas pl)) (get_list (pl_topics pl)) abm = Ok res.
Proof.
  unfold generate_report. destruct (pl_brand pl) as [brand |];
    [| discriminate]. cbv zeta.
  destruct (group_prompts (get_list (pl_prompts pl))
              (get_list (pl_models pl))) as [pbm | e]; [| discriminate].
  destruct (models_loop get_llm invoke pbm _ [] w [])
    as [[[abm | e] w1] log1] eqn:E; [| discriminate].
  intro H. injection H as H <- <-. exists brand, pbm, abm. auto.
Qed.

(** The reports of [per_model] are those of the models that answered. *)
Lemma analyze_all_inv (brand : str) (competitors personas topics : list str)
  (abm : dict (list text_input)) (res : batch_result) :
  NoDup (keys abm) ->
  analyze_all brand competitors personas topics abm = Ok res ->
  Forall2 (fun item mr =>
             fst mr = fst item
             /\ analyze_answers (snd item) brand competitors personas
                  topics = Ok (snd mr)) abm (per_model res)
  /\ analyze_answers (concat (map snd abm)) brand competitors personas
       topics = Ok (combined res).
Proof.
  intros Hnd H. unfold analyze_all in H. bind_inv H. bind_inv H.
  injection H as <-. destruct a as [pm ca]. simpl in *.
  apply per_model_loop_inv in Ha as (rs & -> & -> & HF); [| exact Hnd].
  simpl. split; assumption.
Qed.
End ModelLayer.

Lemma Forall2_keys {V W : Type} (xs : dict V) (ys : dict W)
  (P : str * V -> str * W -> Prop) :
  Forall2 (fun x y => fst y = fst x /\ P x y) xs ys -> keys ys = keys xs.
Proof.
  induction 1 as [| x y xs ys [Hk _] _ IH]; simpl; [reflexivity |].
  now rewrite Hk, IH.
Qed.

(** ** Exceptions of the orchestrator *)

Lemma analyze_all_no_KeyError (brand : str)
  (competitors personas topics : list str) (abm : dict (list text_input))
  (k : str) :
  analyze_all brand competitors personas topics abm <> Raise (KeyError k).
Proof.
  assert (Hloop : forall items pm ca,
            per_model_loop brand competitors personas topics items pm ca
            <> Raise (KeyError k)).
  { induction items as [| [model answers] items IH]; intros pm ca;
      cbn [per_model_loop]; [discriminate |].
    intro H. apply bind_Raise in H as [H | (r & _ & H)].
    - now apply analyze_answers_no_KeyError in H.
    - now apply IH in H. }
  unfold analyze_all. intro H.
  apply bind_Raise in H as [H | (pc & _ & H)]; [now apply Hloop in H |].
  apply bind_Raise in H as [H | (c & _ & H)];
    [now apply analyze_answers_no_KeyError in H | discriminate].
Qed.

Section ModelFailures.
Variables World Handle : Type.
Variable get_llm : str -> World -> (Handle + exn) * World.
Variable invoke : Handle -> str -> World -> (response + exn) * World.

Lemma invoke_loop_raises (model : str) (llm : Handle) (prompts : list str) :
  forall abm w log e w' log',
  invoke_loop invoke model llm prompts abm w log = (Raise e, w', log') ->
  layer_raises get_llm invoke e.
Proof.
  induction prompts as [| p rest IH]; intros abm w log e w' log' H;
    cbn [invoke_loop] in H; [discriminate |].
  destruct (invoke llm p w) as [[r | e0] w1] eqn:E.
  - now apply IH in H.
  - injection H as <- _ _. right. eauto.
Qed.

(** An exception of the loop over the models is one the model layer
    raised. *)
Lemma models_loop_raises (pbm : dict (list str)) (models : list str) :
  forall abm w log e w' log',
  models_loop get_llm invoke pbm models abm w log = (Raise e, w', log') ->
  layer_raises get_llm invoke e.
Proof.
  induction models as [| model rest IH]; intros abm w log e w' log' H;
    cbn [models_loop] in H; [discriminate |].
  destruct (get_llm model w) as [[llm | e0] w1] eqn:G.
  - destruct (invoke_loop invoke model llm (get_or_nil model pbm) abm w1
                (log ++ [Acquire model])) as [[[abm1 | e1] w2] log2] eqn:E.
    + now apply IH in H.
    + injection H as <- _ _. now apply invoke_loop_raises in E.
  - injection H as <- _ _. left. eauto.
Qed.
End ModelFailures.

(** ** The scorer on the store *)

Lemma set_nth_app {A : Type} (l r : list A) (k : nat) (x : A) :
  set_nth (length l + k) x (l ++ r) = l ++ set_nth k x r.
Proof.
  induction l as [| y l IH]; simpl.
  - reflexivity.
  - now rewrite IH.
Qed.

Section Framed.
Variables (lists : list (list str)) (alists : list (list answer)).
Variable base : list (dict Z).

Let bc : addr := (length base + 0)%nat.
Let pc : addr := (length base + 1)%nat.
Let tc : addr := (length base + 2)%nat.

Lemma incr_at_brand_counts (k : str) (n : Z) (b p t : dict Z) :
  incr_at bc k n (framed lists alists base b p t)
  = match dict_incr k n b with
    | Ok b' => (Ok tt, framed lists alists base b' p t)
    | Raise e => (Raise e, framed lists alists base b p t)
    end.
Proof.
  unfold incr_at, framed, bc. cbn [count_dicts str_lists answer_lists].
  rewrite app_nth2_plus. cbn [nth].
  destruct (dict_incr k n b); [| reflexivity].
  now rewrite set_nth_app.
Qed.

Lemma incr_at_persona_counts (k : str) (n : Z) (b p t : dict Z) :
  incr_at pc k n (framed lists alists base b p t)
  = match dict_incr k n p with
    | Ok p' => (Ok tt, framed lists alists base b p' t)
    | Raise e => (Raise e, framed lists alists base b p t)
    end.
Proof.
  unfold incr_at, framed, pc. cbn [count_dicts str_lists answer_lists].
  rewrite app_nth2_plus. cbn [nth].
  destruct (dict_incr k n p); [| reflexivity].
  now rewrite set_nth_app.
Qed.

Lemma incr_at_topic_counts (k : str) (n : Z) (b p t : dict Z) :
  incr_at tc k n (framed lists alists base b p t)
  = match dict_incr k n t with
    | Ok t' => (Ok tt, framed lists alists base b p t')
    | Raise e => (Raise e, framed lists alists base b p t)
    end.
Proof.
  unfold incr_at, framed, tc. cbn [count_dicts str_lists answer_lists].
  rewrite app_nth2_plus. cbn [nth].
  destruct (dict_incr k n t); [| reflexivity].
  now rewrite set_nth_app.
Qed.

(** The loop over the brands updates the dict [brand_counts] as the pure
    loop updates its value, and nothing else. *)
Lemma brand_loop_at_spec (text : str) (bs : list str) (b p t : dict Z)
  (found : bool) :
  exists b',
    brand_loop_at text bs bc found (framed lists alists base b p t)
    = (match brand_loop text bs b found with
       | Ok r => Ok (snd r)
       | Raise e => Raise e
       end, framed lists alists base b' p t)
    /\ forall r, brand_loop text bs b found = Ok r -> b' = fst r.
Proof.
  revert b found. induction bs as [| x bs IH]; intros b found.
  - exists b. simpl. split; [reflexivity |].
    intros r H. injection H as <-. reflexivity.
  - cbn [brand_loop_at brand_loop]. cbv zeta.
    destruct (str_in (lower x) text); [| apply IH].
    unfold bind_run. rewrite incr_at_brand_counts.
    destruct (dict_incr x (count text (lower x)) b) as [b1 | e]; cbn [bind].
    + apply IH.
    + exists b. split; [reflexivity | discriminate].
Qed.

Lemma persona_loop_at_spec (text : str) (ps : list str) (b p t : dict Z) :
  exists p',
    persona_loop_at text ps pc (framed lists alists base b p t)
    = (match persona_loop text ps p with
       | Ok _ => Ok tt
       | Raise e => Raise e
       end, framed lists alists base b p' t)
    /\ forall r, persona_loop text ps p = Ok r -> p' = r.
Proof.
  revert p. induction ps as [| x ps IH]; intros p.
  - exists p. simpl. split; [reflexivity |].
    intros r H. injection H as <-. reflexivity.
  - cbn [persona_loop_at persona_loop]. unfold bind_run, lift.
    destruct (persona_keywords x) as [kws | e]; cbn [bind].
    + destruct (contains_any text kws); [| apply IH].
      rewrite incr_at_persona_counts.
      destruct (dict_incr x 1 p) as [p1 | e]; cbn [bind].
      * apply IH.
      * exists p. split; [reflexivity | discriminate].
    + exists p. split; [reflexivity | discriminate].
Qed.

Lemma topic_loop_at_spec (text : str) (ts : list str) (b p t : dict Z) :
  exists t',
    topic_loop_at text ts tc (framed lists alists base b p t)
    = (match topic_loop text ts t with
       | Ok _ => Ok tt
       | Raise e => Raise e
       end, framed lists alists base b p t')
    /\ forall r, topic_loop text ts t = Ok r -> t' = r.
Proof.
  revert t. induction ts as [| x ts IH]; intros t.
  - exists t. simpl. split; [reflexivity |].
    intros r H. injection H as <-. reflexivity.
  - cbn [topic_loop_at topic_loop].
    destruct (contains_any text (topic_keywords x)); [| apply IH].
    unfold bind_run. rewrite incr_at_topic_counts.
    destruct (dict_incr x 1 t) as [t1 | e]; cbn [bind].
    + apply IH.
    + exists t. split; [reflexivity | discriminate].
Qed.

(** One answer: the three counters of the call move as in the pure body,
    and every other object stays as it is. *)
Lemma score_answer_at_spec (all_brands personas topics : addr)
  (b p t : dict Z) (hits : Z) (ans : answer) :
  exists b' p' t',
    score_answer_at all_brands personas topics bc pc tc hits ans
      (framed lists alists base b p t)
    = (match score_answer (nth all_brands lists []) (nth personas lists [])
               (nth topics lists []) (mkCounters b hits p t)
               (resolve lists ans) with
       | Ok st => Ok (brand_hit_answers st)
       | Raise e => Raise e
       end, framed lists alists base b' p' t')
    /\ forall st,
         score_answer (nth all_brands lists []) (nth personas lists [])
           (nth topics lists []) (mkCounters b hits p t) (resolve lists ans)
         = Ok st ->
         b' = brand_counts st /\ p' = persona_counts st
         /\ t' = topic_counts st.
Proof.
  unfold score_answer_at, score_answer. cbv zeta.
  cbn [brand_counts persona_counts topic_counts brand_hit_answers].
  unfold bind_run, text_at, strs_at, ret.
  cbn [framed str_lists]. fold (framed lists alists base b p t).
  set (text := normalize (resolve lists ans)).
  destruct (brand_loop_at_spec text (nth all_brands lists []) b p t false)
    as (b' & E & Hb).
  rewrite E. clear E.
  destruct (brand_loop text (nth all_brands lists []) b false)
    as [[b1 f1] | e]; cbn [bind fst snd].
  2:{ exists b', p, t. split; [reflexivity | discriminate]. }
  rewrite (Hb _ eq_refl). cbn [fst]. clear Hb b'.
  cbn [framed str_lists]. fold (framed lists alists base b1 p t).
  destruct (persona_loop_at_spec text (nth personas lists []) b1 p t)
    as (p' & E & Hp).
  rewrite E. clear E.
  destruct (persona_loop text (nth personas lists []) p) as [p1 | e];
    cbn [bind].
  2:{ exists b1, p', t. split; [reflexivity | discriminate]. }
  rewrite (Hp _ eq_refl). clear Hp p'.
  cbn [framed str_lists]. fold (framed lists alists base b1 p1 t).
  destruct (topic_loop_at_spec text (nth topics lists []) b1 p1 t)
    as (t' & E & Ht).
  rewrite E. clear E.
  destruct (topic_loop text (nth topics lists []) t) as [t1 | e];
    cbn [bind].
  2:{ exists b1, p1, t'. split; [reflexivity | discriminate]. }
  rewrite (Ht _ eq_refl). clear Ht t'.
  exists b1, p1, t1. split; [reflexivity |].
  intros st H. injection H as <-. cbn. auto.
Qed.

Lemma answers_loop_at_spec (all_brands personas topics : addr)
  (items : list answer) (b p t : dict Z) (hits : Z) :
  exists b' p' t',
    answers_loop_at all_brands personas topics bc pc tc hits items
      (framed lists alists base b p t)
    = (match answers_loop (nth all_brands lists []) (nth personas lists [])
               (nth topics lists []) (mkCounters b hits p t)
               (map (resolve lists) items) with
       | Ok st => Ok (brand_hit_answers st)
       | Raise e => Raise e
       end, framed lists alists base b' p' t')
    /\ forall st,
         answers_loop (nth all_brands lists []) (nth personas lists [])
           (nth topics lists []) (mkCounters b hits p t)
           (map (resolve lists) items) = Ok st ->
         b' = brand_counts st /\ p' = persona_counts st
         /\ t' = topic_counts st.
Proof.
  revert b p t hits. induction items as [| ans rest IH]; intros b p t hits.
  - exists b, p, t. simpl. split; [reflexivity |].
    intros st H. injection H as <-. cbn. auto.
  - cbn [answers_loop_at answers_loop map]. unfold bind_run.
    destruct (score_answer_at_spec all_brands personas topics b p t hits ans)
      as (b1 & p1 & t1 & E & H1).
    rewrite E. clear E.
    destruct (score_answer (nth all_brands lists []) (nth personas lists [])
                (nth topics lists []) (mkCounters b hits p t)
                (resolve lists ans)) as [st | e]; cbn [bind].
    + destruct (H1 _ eq_refl) as (-> & -> & ->).
      destruct st as [sb sh sp st']. cbn [brand_counts brand_hit_answers
        persona_counts topic_counts]. apply IH.
    + exists b1, p1, t1. split; [reflexivity | discriminate].
Qed.
End Framed.

Lemma resolve_app (lists : list (list str)) (l : list str) (ans : answer) :
  fragments_in lists ans = true ->
  resolve (lists ++ [l]) ans = resolve lists ans.
Proof.
  destruct ans as [s | a |]; simpl; intro H; try reflexivity.
  apply Nat.ltb_lt in H. now rewrite app_nth1.
Qed.

Lemma map_resolve_app (lists : list (list str)) (l : list str)
  (items : list answer) :
  forallb (fragments_in lists) items = true ->
  map (resolve (lists ++ [l])) items = map (resolve lists) items.
Proof.
  intro H. apply map_ext_in. intros ans Hin.
  apply resolve_app. rewrite forallb_forall in H. now apply H.
Qed.

Lemma total_of_map (lists : list (list str)) (items : list answer) :
  total_of (map (resolve lists) items)
  = (if Z.of_nat (length items) =? 0 then 1 else Z.of_nat (length items)).
Proof.
  unfold total_of. now rewrite length_map.
Qed.

(** A call in a store where its references denote objects: it returns or
    raises as the scorer does on what the arguments hold; it leaves one
    new list and three new dicts behind, and every object of the store as
    it was. *)
Lemma analyze_answers_at_spec (s : store) (answers : addr) (brand : str)
  (competitors personas topics : addr) :
  valid_args s answers competitors personas topics = true ->
  fst (analyze_answers_at answers brand competitors personas topics s)
  = analyze_answers (texts_of s answers) brand (strs_of s competitors)
      (strs_of s personas) (strs_of s topics)
  /\ exists b p t,
       snd (analyze_answers_at answers brand competitors personas topics s)
       = mkStore (str_lists s ++ [brand :: strs_of s competitors])
                 (answer_lists s) (count_dicts s ++ [b; p; t]).
Proof.
  destruct s as [lists alists dicts]. unfold valid_args, texts_of, strs_of.
  cbn [str_lists answer_lists count_dicts]. intro Hv.
  apply andb_prop in Hv. destruct Hv as [Hv Hfr].
  apply andb_prop in Hv. destruct Hv as [Hv Ht].
  apply andb_prop in Hv. destruct Hv as [Hv Hp].
  apply andb_prop in Hv. destruct Hv as [Ha Hc].
  apply Nat.ltb_lt in Ht, Hp, Hc.
  set (items := nth answers alists []) in *.
  set (cs := nth competitors lists []).
  set (lists' := lists ++ [brand :: cs]).
  assert (Eb : nth (length lists) lists' [] = brand :: cs).
  { unfold lists'. now rewrite nth_middle. }
  assert (Ep : nth personas lists' [] = nth personas lists []).
  { unfold lists'. now rewrite app_nth1. }
  assert (Et : nth topics lists' [] = nth topics lists []).
  { unfold lists'. now rewrite app_nth1. }
  assert (Ei : map (resolve lists') items = map (resolve lists) items).
  { now apply map_resolve_app. }
  set (b0 := dict_fromkeys (brand :: cs) (0 : Z)).
  set (p0 := dict_fromkeys (nth personas lists []) (0 : Z)).
  set (t0 := dict_fromkeys (nth topics lists []) (0 : Z)).
  assert (E' : analyze_answers_at answers brand competitors personas topics
                 (mkStore lists alists dicts)
               = match answers_loop_at (length lists) personas topics
                         (length dicts) (length dicts + 1)%nat
                         (length dicts + 2)%nat 0 items
                         (framed lists' alists dicts b0 p0 t0) with
                 | (Ok hits, s') =>
                     (build_report
                        (if Z.of_nat (length items) =? 0 then 1
                         else Z.of_nat (length items))
                        (mkCounters
                           (nth (length dicts) (count_dicts s') [])
                           hits
                           (nth (length dicts + 1) (count_dicts s') [])
                           (nth (length dicts + 2) (count_dicts s') [])), s')
                 | (Raise e, s') => (Raise e, s')
                 end).
  { unfold analyze_answers_at, bind_run, answers_at, strs_at, new_strs,
      new_counts, counts_at, lift.
    cbn [str_lists answer_lists count_dicts]. cbv zeta.
    fold items. fold cs. fold lists'. rewrite Eb, Ep, Et.
    fold b0. fold p0. fold t0.
    rewrite !length_app. cbn [length].
    replace (length dicts + 1 + 1)%nat with (length dicts + 2)%nat by lia.
    unfold framed. rewrite <- !app_assoc. cbn [app].
    destruct (answers_loop_at _ _ _ _ _ _ _ _ _) as [[hits | e] s'];
      reflexivity. }
  destruct (answers_loop_at_spec lists' alists dicts (length lists)
              personas topics items b0 p0 t0 0)
    as (b' & p' & t' & E & Hr).
  rewrite Eb, Ep, Et, Ei in E, Hr. rewrite Nat.add_0_r in E.
  rewrite E', E. clear E' E.
  unfold analyze_answers. cbv zeta. rewrite total_of_map.
  unfold initial_counters. fold items. fold cs. fold b0. fold p0. fold t0.
  destruct (answers_loop (brand :: cs) (nth personas lists [])
              (nth topics lists []) (mkCounters b0 0 p0 t0)
              (map (resolve lists) items)) as [st | e]; cbn [bind].
  - destruct (Hr _ eq_refl) as (-> & -> & ->). split.
    + cbn [fst framed count_dicts]. rewrite nth_middle, !app_nth2_plus.
      cbn [nth].
      now destruct st.
    + exists (brand_counts st), (persona_counts st), (topic_counts st).
      reflexivity.
  - split; [reflexivity |]. exists b', p', t'. reflexivity.
Qed.

Lemma valid_args_after (s : store) (answers competitors personas topics : addr)
  (l : list str) (ds : list (dict Z)) :
  valid_args s answers competitors personas topics = true ->
  let s' := mkStore (str_lists s ++ [l]) (answer_lists s)
                    (count_dicts s ++ ds) in
  valid_args s' answers competitors personas topics = true
  /\ texts_of s' answers = texts_of s answers
  /\ strs_of s' competitors = strs_of s competitors
  /\ strs_of s' personas = strs_of s personas
  /\ strs_of s' topics = strs_of s topics.
Proof.
  unfold valid_args, texts_of, strs_of. cbn [str_lists answer_lists].
  intro Hv.
  apply andb_prop in Hv. destruct Hv as [Hv Hfr].
  apply andb_prop in Hv. destruct Hv as [Hv Ht].
  apply andb_prop in Hv. destruct Hv as [Hv Hp].
  apply andb_prop in Hv. destruct Hv as [Ha Hc].
  pose proof Ht as Ht'. pose proof Hp as Hp'. pose proof Hc as Hc'.
  apply Nat.ltb_lt in Ht', Hp', Hc'.
  repeat split.
  - rewrite Ha. cbn [andb]. rewrite length_app. cbn [length].
    replace (competitors <? length (str_lists s) + 1)%nat with true
      by (symmetry; apply Nat.ltb_lt; lia).
    replace (personas <? length (str_lists s) + 1)%nat with true
      by (symmetry; apply Nat.ltb_lt; lia).
    replace (topics <? length (str_lists s) + 1)%nat with true
      by (symmetry; apply Nat.ltb_lt; lia).
    cbn [andb]. rewrite forallb_forall in *. intros ans Hin.
    specialize (Hfr ans Hin). destruct ans as [x | a |]; simpl in *; auto.
    apply Nat.ltb_lt. apply Nat.ltb_lt in Hfr. rewrite length_app. simpl.
    lia.
  - now apply map_resolve_app.
  - now apply app_nth1.
  - now apply app_nth1.
  - now apply app_nth1.
Qed.

(** * The claims *)

(** ** Brand visibility *)

(** What the code computes: the binary64 quotient of the hit answers by
    [max(1, len(answers))], times 100, truncated. *)
Lemma brand_visibility_percent (answers : list text_input) (brand : str)
  (competitors personas topics : list str) (r : report) :
  analyze_answers answers brand competitors personas topics = Ok r ->
  percent (hit_answers (brand :: competitors) answers)
          (Z.max 1 (Z.of_nat (length answers)))
  = Ok (brand_visibility r).
Proof.
  intro H. apply analyze_answers_inv in H as (st & Hloop & Hrep).
  apply build_report_inv in Hrep as (Hp & _).
  apply answers_loop_inv in Hloop as (_ & _ & Hh & _).
  rewrite Hh in Hp. simpl in Hp.
  replace (Z.max 1 (Z.of_nat (length answers))) with (total_of answers);
    [exact Hp |].
  unfold total_of. destruct (Z.of_nat (length answers) =? 0) eqn:E.
  - apply Z.eqb_eq in E. lia.
  - apply Z.eqb_neq in E. lia.
Qed.

Lemma visibility_fromkeys (total : Z) (ks : list str) :
  visibility total (dict_fromkeys ks 0) = Ok [].
Proof.
  assert (H : forall items : dict Z,
            (forall k v, In (k, v) items -> v = 0) ->
            visibility total items = Ok []).
  { induction items as [| [k c] items IH]; intro Hz; cbn [visibility];
      [reflexivity |].
    rewrite (Hz k c) by now left. simpl. apply IH.
    intros k' v Hin. apply (Hz k'). now right. }
  apply H. intros k v Hin.
  destruct (fromkeys_acc 0 ks []) as (Hnd & _ & Hval);
    [constructor | discriminate |].
  apply (Hval k). now apply In_dict_get.
Qed.

(** An empty batch yields 0, every name at 0 and no persona or topic. *)
Lemma empty_batch_report (brand : str)
  (competitors personas topics : list str) :
  analyze_answers [] brand competitors personas topics
  = Ok (mkReport 0 (sorted_desc (dict_fromkeys (brand :: competitors) 0))
          [] []).
Proof.
  unfold analyze_answers, build_report. cbn [answers_loop bind].
  cbv zeta. simpl brand_hit_answers. simpl persona_counts.
  simpl topic_counts. simpl brand_counts.
  change (percent 0 (total_of [])) with (Ok (A := Z) 0).
  now rewrite !visibility_fromkeys.
Qed.

Example scenario_1 :
  analyze_answers [TStr (lit "Acme is great, Acme rocks")] (lit "Acme")
    [] [] []
  = Ok (mkReport 100 [(lit "Acme", 2)] [] []).
Proof. vm_compute. reflexivity. Qed.

Example scenario_2 :
  analyze_answers [TStr (lit "no relevant text here")] (lit "Acme") [] [] []
  = Ok (mkReport 0 [(lit "Acme", 0)] [] []).
Proof. vm_compute. reflexivity. Qed.

Example scenario_3 :
  analyze_answers [] (lit "Acme") [lit "Zeta"] [lit "Product Manager"]
    [lit "Cloud cost"]
  = Ok (mkReport 0 [(lit "Acme", 0); (lit "Zeta", 0)] [] []).
Proof. rewrite empty_batch_report. reflexivity. Qed.

(** C1: the claim holds of exact integer arithmetic, the code divides in
    binary64.  With 29 of 50 answers naming the brand the quotient 29/50
    rounds to a value whose product with 100 is just below 58, and the
    reported visibility is 57, where [floor(100 * 29 / max(1, 50))] is 58. *)
Theorem brand_visibility_float_truncation :
  let answers :=
    repeat (TStr (lit "We use Acme")) 29 ++ repeat (TStr (lit "other")) 21 in
  hit_answers [lit "Acme"] answers = 29
  /\ Z.max 1 (Z.of_nat (length answers)) = 50
  /\ 100 * 29 / 50 = 58
  /\ exists r,
       analyze_answers answers (lit "Acme") [] [] [] = Ok r
       /\ brand_visibility r = 57.
Proof.
  cbv zeta. split; [vm_compute; reflexivity |].
  split; [vm_compute; reflexivity |].
  split; [vm_compute; reflexivity |].
  eexists. split; [vm_compute; reflexivity | reflexivity].
Qed.

(** ** The required payload field *)

(** C2, as stated, fails in its second half: with "brand" present, a dict
    prompt without the key "model" makes [generate_report] raise the key
    error of "model", before any call to the model layer. *)
Lemma generate_report_prompt_key_error :
  let pl := mkPayload (Some (lit "Acme")) None None None
              (Some [Tagged None (Some (lit "What is Acme?"))])
              (Some [lit "m1"]) in
  pl_brand pl <> None
  /\ echo_report pl = (Raise (KeyError (lit "model")), 0%nat, []).
Proof.
  cbv zeta. split; [discriminate | vm_compute; reflexivity].
Qed.

(** C2, amended: without the key "brand" [generate_report] raises the key
    error of "brand" with the world untouched and no call to the model
    layer made.  With "brand" present, a key error is either the one of
    the first dict prompt that lacks "model" or "prompt", raised before
    any call as well, or one the model layer itself raised; so with every
    dict prompt complete and a model layer that raises no key error, no
    key error is raised. *)
Theorem generate_report_requires_brand :
  forall (World Handle : Type)
         (get_llm : str -> World -> (Handle + exn) * World)
         (invoke : Handle -> str -> World -> (response + exn) * World)
         (pl : payload) (w : World),
    (pl_brand pl = None ->
     generate_report get_llm invoke pl w
     = (Raise (KeyError (lit "brand")), w, []))
    /\ (pl_brand pl <> None ->
        forall k w' log,
          generate_report get_llm invoke pl w = (Raise (KeyError k), w', log) ->
          (first_missing (get_list (pl_prompts pl)) = Some k
           /\ (k = lit "model" \/ k = lit "prompt") /\ w' = w /\ log = [])
          \/ layer_raises get_llm invoke (KeyError k))
    /\ (pl_brand pl <> None ->
        forall k, first_missing (get_list (pl_prompts pl)) = Some k ->
        generate_report get_llm invoke pl w = (Raise (KeyError k), w, []))
    /\ (pl_brand pl <> None ->
        first_missing (get_list (pl_prompts pl)) = None ->
        (forall k, ~ layer_raises get_llm invoke (KeyError k)) ->
        forall k, fst (fst (generate_report get_llm invoke pl w))
                  <> Raise (KeyError k)).
Proof.
  intros World Handle get_llm invoke pl w.
  assert (Hpresent : pl_brand pl <> None ->
            forall k w' log,
              generate_report get_llm invoke pl w
              = (Raise (KeyError k), w', log) ->
              (first_missing (get_list (pl_prompts pl)) = Some k
               /\ (k = lit "model" \/ k = lit "prompt")
               /\ w' = w /\ log = [])
              \/ layer_raises get_llm invoke (KeyError k)).
  { unfold generate_report.
    destruct (pl_brand pl) as [brand |]; [intros _ k w' log | congruence].
    cbv zeta. unfold group_prompts.
    pose proof (route_prompts_outcome (get_list (pl_models pl))
                  (get_list (pl_prompts pl)) []) as Hroute.
    destruct (first_missing (get_list (pl_prompts pl))) as [k0 |] eqn:Hk.
    - rewrite Hroute. intro H. injection H as <- <- <-. left.
      split; [reflexivity |]. split; [| auto].
      apply first_missing_In in Hk as (p & _ & Hp).
      now apply missing_key_name in Hp.
    - destruct Hroute as [pbm ->].
      destruct (models_loop get_llm invoke pbm _ [] w [])
        as [[[abm | e] w1] log1] eqn:E; intro H; injection H as H <- <-.
      + now apply analyze_all_no_KeyError in H.
      + subst e. right. now apply models_loop_raises in E. }
  split; [| split; [exact Hpresent | split]].
  - unfold generate_report. intros ->. reflexivity.
  - unfold generate_report.
    destruct (pl_brand pl) as [brand |]; [intros _ k Hk | congruence].
    cbv zeta. unfold group_prompts.
    pose proof (route_prompts_outcome (get_list (pl_models pl))
                  (get_list (pl_prompts pl)) []) as Hroute.
    rewrite Hk in Hroute. now rewrite Hroute.
  - intros Hb Hnone Hlayer k Hraise. pose proof (Hpresent Hb k) as Hp.
    destruct (generate_report get_llm invoke pl w) as [[out w'] log].
    simpl in Hraise. subst out.
    destruct (Hp w' log eq_refl) as [(Hk & _) | Hl].
    + congruence.
    + now apply (Hlayer k).
Qed.

Lemma echo_layer_silent (e : exn) : ~ layer_raises echo_get_llm echo_invoke e.
Proof.
  intros [(model & w & w' & H) | (llm & p & w & w' & H)]; discriminate H.
Qed.

Lemma generate_report_requires_brand_witness :
  echo_report (mkPayload None None None None
                 (Some [Plain (lit "What is Acme?")]) (Some [lit "m1"]))
  = (Raise (KeyError (lit "brand")), 0%nat, [])
  /\ echo_report (mkPayload (Some (lit "Acme")) None None None
                    (Some [Tagged (Some (lit "m1")) None]) (Some [lit "m1"]))
     = (Raise (KeyError (lit "prompt")), 0%nat, [])
  /\ forall k,
       fst (fst (echo_report
                   (mkPayload (Some (lit "Acme")) None None None
                      (Some [Plain (lit "What is Acme?")])
                      (Some [lit "m1"]))))
       <> Raise (KeyError k).
Proof.
  split; [| split].
  - destruct (generate_report_requires_brand nat str echo_get_llm echo_invoke
                (mkPayload None None None None
                   (Some [Plain (lit "What is Acme?")]) (Some [lit "m1"]))
                0%nat) as (H1 & _).
    apply H1. reflexivity.
  - destruct (generate_report_requires_brand nat str echo_get_llm echo_invoke
                (mkPayload (Some (lit "Acme")) None None None
                   (Some [Tagged (Some (lit "m1")) None]) (Some [lit "m1"]))
                0%nat) as (_ & _ & H3 & _).
    apply H3; [simpl; discriminate | reflexivity].
  - destruct (generate_report_requires_brand nat str echo_get_llm echo_invoke
                (mkPayload (Some (lit "Acme")) None None None
                   (Some [Plain (lit "What is Acme?")]) (Some [lit "m1"]))
                0%nat) as (_ & _ & _ & H4).
    apply H4; [simpl; discriminate | reflexivity |].
    intro k. apply echo_layer_silent.
Defined.

(** ** Brand mentions *)

(** C3, as stated, fails on a name listed twice: with brand "Acme",
    competitors ["Acme"] and the one answer "acme", the name occurs once
    in the text and the mapping holds 2. *)
Lemma brand_mentions_duplicate_entry :
  let answers := [TStr (lit "acme")] in
  exists r,
    analyze_answers answers (lit "Acme") [lit "Acme"] [] [] = Ok r
    /\ In (lit "Acme") [lit "Acme"; lit "Acme"]
    /\ mentions (lit "Acme") answers = 1
    /\ dict_get (lit "Acme") (brand_mentions r) = Some 2
    /\ dict_get (lit "Acme") (brand_mentions r)
       <> Some (mentions (lit "Acme") answers).
Proof.
  cbv zeta. eexists. split; [vm_compute; reflexivity |].
  split; [now left |]. split; [vm_compute; reflexivity |].
  split; [vm_compute; reflexivity |]. vm_compute. discriminate.
Qed.

(** C3, amended: the keys of [brand_mentions] are the names of
    [[brand] + competitors], each once; the items are in descending order
    of count; each name maps to the sum over all answers of the
    occurrences of its lowercase form in the normalized text, times the
    number of entries of the vocabulary that are exactly that name.  So a
    name without a mention is present at 0, and a name listed once maps to
    the plain sum. *)
Theorem brand_mentions_spec (answers : list text_input) (brand : str)
  (competitors personas topics : list str) (r : report) :
  analyze_answers answers brand competitors personas topics = Ok r ->
  (forall name, In name (keys (brand_mentions r)) <->
                In name (brand :: competitors))
  /\ NoDup (keys (brand_mentions r))
  /\ descending (brand_mentions r)
  /\ (forall name, In name (brand :: competitors) ->
        dict_get name (brand_mentions r)
        = Some (entries name (brand :: competitors) * mentions name answers))
  /\ (forall name, In name (brand :: competitors) ->
        mentions name answers = 0 ->
        dict_get name (brand_mentions r) = Some 0)
  /\ (forall name, entries name (brand :: competitors) = 1 ->
        dict_get name (brand_mentions r) = Some (mentions name answers)).
Proof.
  intro H. split; [intro name; now apply (brand_mentions_keys _ _ _ _ _ _ _ H) |].
  split.
  { destruct (analyze_answers_inv _ _ _ _ _ _ H) as (st & Hloop & Hrep).
    apply build_report_inv in Hrep as (_ & -> & _).
    eapply Permutation_NoDup; [symmetry; apply sorted_desc_keys |].
    now apply answers_loop_NoDup in Hloop. }
  split.
  { destruct (analyze_answers_inv _ _ _ _ _ _ H) as (st & _ & Hrep).
    apply build_report_inv in Hrep as (_ & -> & _).
    apply sorted_desc_descending. }
  split; [intros name Hin; now apply (brand_mentions_get _ _ _ _ _ _ _ H) |].
  split.
  - intros name Hin Hz.
    rewrite (brand_mentions_get _ _ _ _ _ _ _ H Hin), Hz. f_equal. lia.
  - intros name He.
    assert (Hin : In name (brand :: competitors)).
    { apply (count_occ_In str_eq_dec). unfold entries in He. lia. }
    rewrite (brand_mentions_get _ _ _ _ _ _ _ H Hin), He. f_equal. lia.
Qed.

Lemma brand_mentions_spec_witness :
  exists r,
    analyze_answers [TStr (lit "Acme is great, Acme rocks"); TStr (lit "Zeta")]
      (lit "Acme") [lit "Zeta"; lit "Acme"; lit "Nil"] [] [] = Ok r
    /\ dict_get (lit "Acme") (brand_mentions r) = Some (2 * 2)
    /\ dict_get (lit "Zeta") (brand_mentions r) = Some 1
    /\ dict_get (lit "Nil") (brand_mentions r) = Some 0
    /\ descending (brand_mentions r).
Proof.
  eexists. split; [vm_compute; reflexivity |].
  match goal with
  | |- context [brand_mentions ?r] =>
      destruct (brand_mentions_spec
                  [TStr (lit "Acme is great, Acme rocks"); TStr (lit "Zeta")]
                  (lit "Acme") [lit "Zeta"; lit "Acme"; lit "Nil"] [] [] r)
        as (_ & _ & Hd & Hget & Hzero & Hone);
        [vm_compute; reflexivity |]
  end.
  split; [apply Hget; simpl; tauto |].
  split; [apply Hone; vm_compute; reflexivity |].
  split; [apply Hzero; [simpl; tauto | vm_compute; reflexivity] |].
  exact Hd.
Defined.

(** ** Combined and per-model mentions *)

Lemma sum_mentions_concat (name : str) (n : Z)
  (abm : dict (list text_input)) :
  sum (map (fun item => n * mentions name (snd item)) abm)
  = n * mentions name (concat (map snd abm)).
Proof.
  induction abm as [| [m answers] abm IH]; simpl; [lia |].
  rewrite mentions_app, IH. lia.
Qed.

(** C4: for a name of [[brand] + competitors], the count in the combined
    report is the sum of the counts of that name over the reports of
    [per_model]. *)
Theorem combined_mentions_sum :
  forall (World Handle : Type)
         (get_llm : str -> World -> (Handle + exn) * World)
         (invoke : Handle -> str -> World -> (response + exn) * World)
         (pl : payload) (w w' : World) (res : batch_result)
         (log : list event) (brand name : str),
    generate_report get_llm invoke pl w = (Ok res, w', log) ->
    pl_brand pl = Some brand ->
    In name (brand :: get_list (pl_competitors pl)) ->
    exists cs,
      Forall2 (fun mr c => dict_get name (brand_mentions (snd mr)) = Some c)
        (per_model res) cs
      /\ dict_get name (brand_mentions (combined res)) = Some (sum cs).
Proof.
  intros World Handle get_llm invoke pl w w' res log brand name H Hb Hin.
  apply generate_report_inv in H as (brand' & pbm & abm & Hb' & Hg & Hloop & Hall).
  rewrite Hb in Hb'. injection Hb' as <-.
  apply models_loop_inv in Hloop as (Hnd & _).
  apply analyze_all_inv in Hall as [HF Hc]; [| apply Hnd; constructor].
  set (n := entries name (brand :: get_list (pl_competitors pl))).
  exists (map (fun item => n * mentions name (snd item)) abm). split.
  - clear Hc Hnd. induction HF as [| item mr abm pm [_ Hr] _ IH]; simpl.
    + constructor.
    + constructor; [| exact IH].
      now apply (brand_mentions_get _ _ _ _ _ _ _ Hr).
  - rewrite sum_mentions_concat.
    now apply (brand_mentions_get _ _ _ _ _ _ _ Hc).
Qed.

Lemma combined_mentions_sum_witness :
  let pl := mkPayload (Some (lit "m1")) (Some [lit "Zeta"]) None None
              (Some [Plain (lit "compare m1 and zeta");
                     Tagged (Some (lit "m2")) (Some (lit "m1 or M1?"))])
              (Some [lit "m1"; lit "m2"]) in
  exists res w' log cs,
    echo_report pl = (Ok res, w', log)
    /\ Forall2 (fun mr c =>
                  dict_get (lit "m1") (brand_mentions (snd mr)) = Some c)
         (per_model res) cs
    /\ dict_get (lit "m1") (brand_mentions (combined res)) = Some (sum cs).
Proof.
  cbv zeta. do 3 eexists.
  match goal with
  | |- exists cs, echo_report ?pl = (Ok ?res, ?w', ?log) /\ _ =>
      assert (E : echo_report pl = (Ok res, w', log))
        by (vm_compute; reflexivity);
      destruct (combined_mentions_sum nat str echo_get_llm echo_invoke pl
                  0%nat w' res log (lit "m1") (lit "m1") E eq_refl)
        as (cs & HF & Hc); [now left |];
      exists cs; split; [exact E | split; [exact HF | exact Hc]]
  end.
Defined.

(** ** Personas and topics without a hit *)

(** C5: a key of [persona_visibility] or [topic_visibility] has a hit
    count of at least 1 in the counters the loop leaves, and a persona or
    topic whose count is 0 has no key.  The count is the number of answers
    that hit the name, once per entry of the vocabulary. *)
Theorem visibility_keys_have_hits (answers : list text_input) (brand : str)
  (competitors personas topics : list str) (r : report) :
  analyze_answers answers brand competitors personas topics = Ok r ->
  exists st,
    answers_loop (brand :: competitors) personas topics
      (initial_counters (brand :: competitors) personas topics) answers
    = Ok st
    /\ (forall p v, dict_get p (persona_visibility r) = Some v ->
          exists c, dict_get p (persona_counts st) = Some c /\ 1 <= c
            /\ c = entries p personas
                   * answers_matching persona_match p answers)
    /\ (forall t v, dict_get t (topic_visibility r) = Some v ->
          exists c, dict_get t (topic_counts st) = Some c /\ 1 <= c
            /\ c = entries t topics * answers_matching topic_match t answers)
    /\ (forall p, count_of p (persona_counts st) = 0 ->
          dict_get p (persona_visibility r) = None)
    /\ (forall t, count_of t (topic_counts st) = 0 ->
          dict_get t (topic_visibility r) = None).
Proof.
  intro H. apply analyze_answers_inv in H as (st & Hloop & Hrep).
  exists st. split; [exact Hloop |].
  apply build_report_inv in Hrep as (_ & _ & Hpv & Htv).
  destruct (answers_loop_NoDup _ _ _ _ _ Hloop) as (_ & Hndp & Hndt).
  apply answers_loop_inv in Hloop as (_ & _ & _ & Hp & Ht).
  assert (Hkey : forall (d : dict Z) k c,
            dict_get k d = Some c -> count_of k d = c)
    by (intros d k c E; unfold count_of; now rewrite E).
  repeat split.
  - intros p v Hget.
    destruct (visibility_get _ _ _ _ _ Hndp Hpv Hget) as (c & Hc & Hpos & _).
    exists c. repeat split; [assumption | assumption |].
    rewrite <- (Hkey _ _ _ Hc), Hp. simpl. now rewrite count_of_fromkeys.
  - intros t v Hget.
    destruct (visibility_get _ _ _ _ _ Hndt Htv Hget) as (c & Hc & Hpos & _).
    exists c. repeat split; [assumption | assumption |].
    rewrite <- (Hkey _ _ _ Hc), Ht. simpl. now rewrite count_of_fromkeys.
  - intros p Hz. destruct (dict_get p (persona_visibility r)) as [v |] eqn:E;
      [| reflexivity].
    destruct (visibility_get _ _ _ _ _ Hndp Hpv E) as (c & Hc & Hpos & _).
    rewrite (Hkey _ _ _ Hc) in Hz. lia.
  - intros t Hz. destruct (dict_get t (topic_visibility r)) as [v |] eqn:E;
      [| reflexivity].
    destruct (visibility_get _ _ _ _ _ Hndt Htv E) as (c & Hc & Hpos & _).
    rewrite (Hkey _ _ _ Hc) in Hz. lia.
Qed.

Lemma visibility_keys_have_hits_witness :
  exists r st,
    analyze_answers
      [TStr (lit "Cloud cost is part of the roadmap"); TStr (lit "nothing")]
      (lit "Acme") [] [lit "Product Manager"]
      [lit "Cloud cost"; lit "Quantum"] = Ok r
    /\ dict_get (lit "Product Manager") (persona_counts st) = Some 1
    /\ dict_get (lit "Cloud cost") (topic_counts st) = Some 1
    /\ dict_get (lit "Quantum") (topic_visibility r) = None.
Proof.
  eexists.
  match goal with
  | |- exists st, analyze_answers ?a ?b ?c ?p ?t = Ok ?r /\ _ =>
      assert (E : analyze_answers a b c p t = Ok r)
        by (vm_compute; reflexivity);
      destruct (visibility_keys_have_hits a b c p t r E)
        as (st & Hloop & Hp & Ht & _ & Htz);
      exists st; split; [exact E |]
  end.
  assert (Est : st = mkCounters [(lit "Acme", 0)] 0
                      [(lit "Product Manager", 1)]
                      [(lit "Cloud cost", 1); (lit "Quantum", 0)]).
  { vm_compute in Hloop. injection Hloop as <-. reflexivity. }
  subst st. split; [reflexivity |]. split; [reflexivity |].
  apply Htz. reflexivity.
Defined.

(** ** Prompt routing *)

Section PerModelKeys.
Variables World Handle : Type.
Variable get_llm : str -> World -> (Handle + exn) * World.
Variable invoke : Handle -> str -> World -> (response + exn) * World.

(** The keys of [per_model] are the models of the run with a non-empty
    queue, each once; every model of the run was asked for a handle. *)
Lemma per_model_keys (pl : payload) (w w' : World) (res : batch_result)
  (log : list event) :
  generate_report get_llm invoke pl w = (Ok res, w', log) ->
  exists pbm,
    group_prompts (get_list (pl_prompts pl)) (get_list (pl_models pl))
    = Ok pbm
    /\ NoDup (keys (per_model res))
    /\ (forall m, In m (keys (per_model res)) <->
          In m (get_list (pl_models pl)) /\ get_or_nil m pbm <> [])
    /\ (forall m, In m (get_list (pl_models pl)) -> In (Acquire m) log).
Proof.
  intro H.
  apply generate_report_inv in H
    as (brand & pbm & abm & _ & Hg & Hloop & Hall).
  apply models_loop_inv in Hloop as (Hnd & Hkeys & Hacq & _).
  specialize (Hnd (NoDup_nil _)).
  apply analyze_all_inv in Hall as [HF _]; [| exact Hnd].
  apply Forall2_keys in HF. rewrite HF.
  exists pbm. split; [exact Hg |].
  split; [exact Hnd |]. split; [| exact Hacq].
  intro m. rewrite Hkeys. simpl. tauto.
Qed.
End PerModelKeys.

(** C6: a tagged prompt is appended to the queue of its model and to no
    other; a plain prompt is appended to the queue of every model of the
    run (once per entry of [models]) and to no other; the queue of a model
    lists its prompts in the order of [prompts].  With the one plain prompt
    and models "m1", "m2", both queues hold the prompt and [per_model] has
    the keys "m1" and "m2" and no other. *)
Theorem prompt_routing :
  (forall models pbm m text,
     exists pbm',
       route_prompt models pbm (Tagged (Some m) (Some text)) = Ok pbm'
       /\ forall m',
            get_or_nil m' pbm'
            = if str_eq_dec m' m then get_or_nil m' pbm ++ [text]
              else get_or_nil m' pbm)
  /\ (forall models pbm text,
        exists pbm',
          route_prompt models pbm (Plain text) = Ok pbm'
          /\ forall m',
               get_or_nil m' pbm'
               = get_or_nil m' pbm
                 ++ repeat text (count_occ str_eq_dec models m'))
  /\ (forall models pbm text,
        NoDup models ->
        exists pbm',
          route_prompt models pbm (Plain text) = Ok pbm'
          /\ forall m', In m' models ->
                        get_or_nil m' pbm' = get_or_nil m' pbm ++ [text])
  /\ (forall prompts models,
        first_missing prompts = None ->
        exists pbm,
          group_prompts prompts models = Ok pbm
          /\ forall m, get_or_nil m pbm
                       = flat_map (deliveries models m) prompts)
  /\ (forall prompts models pbm m,
        group_prompts prompts models = Ok pbm ->
        get_or_nil m pbm = flat_map (deliveries models m) prompts)
  /\ (forall p,
        exists pbm,
          group_prompts [Plain p] [lit "m1"; lit "m2"] = Ok pbm
          /\ get_or_nil (lit "m1") pbm = [p]
          /\ get_or_nil (lit "m2") pbm = [p])
  /\ (forall (World Handle : Type)
             (get_llm : str -> World -> (Handle + exn) * World)
             (invoke : Handle -> str -> World -> (response + exn) * World)
             (pl : payload) (w w' : World) (res : batch_result)
             (log : list event) (p : str),
        pl_prompts pl = Some [Plain p] ->
        pl_models pl = Some [lit "m1"; lit "m2"] ->
        generate_report get_llm invoke pl w = (Ok res, w', log) ->
        forall m, In m (keys (per_model res)) <->
                  m = lit "m1" \/ m = lit "m2").
Proof.
  assert (Hplain : forall models pbm text,
            exists pbm',
              route_prompt models pbm (Plain text) = Ok pbm'
              /\ forall m',
                   get_or_nil m' pbm'
                   = get_or_nil m' pbm
                     ++ repeat text (count_occ str_eq_dec models m')).
  { intros models pbm text. eexists. split; [reflexivity |].
    intro m'. apply get_or_nil_broadcast. }
  split.
  { intros models pbm m text. eexists. split; [reflexivity |].
    intro m'. rewrite get_or_nil_dd_append.
    destruct (str_eq_dec m' m); [reflexivity | apply app_nil_r]. }
  split; [exact Hplain |]. split.
  { intros models pbm text Hnd.
    destruct (Hplain models pbm text) as (pbm' & Hr & Hq).
    exists pbm'. split; [exact Hr |]. intros m' Hin. rewrite Hq.
    assert (E : count_occ str_eq_dec models m' = 1%nat).
    { apply NoDup_count_occ with (decA := str_eq_dec) (x := m') in Hnd.
      apply (count_occ_In str_eq_dec) in Hin. lia. }
    now rewrite E. }
  split.
  { intros prompts models Hnone. unfold group_prompts.
    pose proof (route_prompts_outcome models prompts []) as Hroute.
    rewrite Hnone in Hroute. destruct Hroute as [pbm Hpbm].
    exists pbm. split; [exact Hpbm |]. intro m.
    now apply group_prompts_queue. }
  split; [intros prompts models pbm m; apply group_prompts_queue |]. split.
  { intro p. eexists. split; [reflexivity |]. split; reflexivity. }
  intros World Handle get_llm invoke pl w w' res log p Hp Hm H m.
  apply per_model_keys in H as (pbm & Hg & _ & Hkeys & _).
  rewrite Hkeys, (group_prompts_queue _ _ _ m Hg), Hp, Hm. simpl.
  rewrite app_nil_r. split.
  - intros [[<- | [<- | []]] _]; auto.
  - intros [-> | ->]; (split; [auto | vm_compute; discriminate]).
Qed.

Lemma prompt_routing_witness :
  let pl := mkPayload (Some (lit "Acme")) None None None
              (Some [Plain (lit "What is Acme?")])
              (Some [lit "m1"; lit "m2"]) in
  (exists pbm',
     route_prompt [lit "m1"; lit "m2"] [] (Plain (lit "What is Acme?"))
     = Ok pbm'
     /\ get_or_nil (lit "m1") pbm' = [lit "What is Acme?"])
  /\ (exists pbm,
        group_prompts [Tagged (Some (lit "m2")) (Some (lit "only m2"));
                       Plain (lit "What is Acme?")] [lit "m1"; lit "m2"]
        = Ok pbm
        /\ get_or_nil (lit "m2") pbm
           = [lit "only m2"; lit "What is Acme?"])
  /\ exists res w' log,
       echo_report pl = (Ok res, w', log)
       /\ In (lit "m1") (keys (per_model res))
       /\ In (lit "m2") (keys (per_model res)).
Proof.
  cbv zeta.
  destruct prompt_routing as (_ & _ & Hplain & Hgroup & _ & _ & Hrun).
  split; [| split].
  - destruct (Hplain [lit "m1"; lit "m2"] [] (lit "What is Acme?"))
      as (pbm' & Hr & Hq).
    + repeat constructor; simpl; intuition discriminate.
    + exists pbm'. split; [exact Hr |]. apply (Hq (lit "m1")). now left.
  - destruct (Hgroup [Tagged (Some (lit "m2")) (Some (lit "only m2"));
                      Plain (lit "What is Acme?")] [lit "m1"; lit "m2"])
      as (pbm & Hg & Hq); [reflexivity |].
    exists pbm. split; [exact Hg |]. rewrite Hq. reflexivity.
  - do 3 eexists.
    match goal with
    | |- echo_report ?pl = (Ok ?res, ?w', ?log) /\ _ =>
        assert (E : echo_report pl = (Ok res, w', log))
          by (vm_compute; reflexivity);
        pose proof (Hrun nat str echo_get_llm echo_invoke pl 0%nat w' res log
                      (lit "What is Acme?") eq_refl eq_refl E) as Hk;
        split; [exact E | split; apply Hk; auto]
    end.
Defined.

(** ** The persona heuristic *)

Lemma contains_any_spec (text : str) (keywords : list str) :
  contains_any text keywords = true <->
  exists k, In k keywords /\ substring k text.
Proof.
  unfold contains_any. rewrite existsb_exists.
  split; intros (k & Hin & Hk); exists k; split; auto;
    now apply str_in_spec.
Qed.

(** C7, as stated, fails on a persona without a word: the answer "a b"
    has the lowercase name " " as a substring, so the claim counts a hit,
    but the keyword list is never built: [p.split()[0]] raises the index
    error and so does the call. *)
Lemma persona_blank_name :
  let p := lit " " in
  let text := lit "a b" in
  substring (lower p) text
  /\ persona_match text p = false
  /\ persona_loop text [p] [(p, 0)] = Raise IndexError
  /\ analyze_answers [TStr text] (lit "Acme") [] [p] [] = Raise IndexError.
Proof.
  cbv zeta. split; [exists (lit "a"), (lit "b"); reflexivity |].
  split; [reflexivity |]. split; vm_compute; reflexivity.
Qed.

(** C7, amended: for a persona with a first word, an answer text is a hit
    exactly when it has as a substring the lowercase name, the lowercase
    first word or one of the six static terms, and a hit adds 1 to the
    count of the persona; for a persona without a word the loop raises the
    index error whatever the text; one answer with "roadmap" in it gives
    [persona_visibility = {"Product Manager": 100}]. *)
Theorem persona_hit_rule :
  (forall (p : str) (ps : list str) (text : str) (pc : dict Z),
     ~ has_word p -> persona_loop text (p :: ps) pc = Raise IndexError)
  /\ (forall (p first : str) (rest : list str) (text : str),
     split p = first :: rest ->
     (persona_match text p = true <->
      exists k,
        In k [lower p; lower first; lit "strategy"; lit "roadmap";
              lit "architecture"; lit "planning"; lit "analysis";
              lit "decision"]
        /\ substring k text)
     /\ forall pc, In p (keys pc) ->
        exists pc',
          persona_loop text [p] pc = Ok pc'
          /\ count_of p pc' =
             count_of p pc + (if persona_match text p then 1 else 0))
  /\ (forall (ans : text_input) (brand : str) (competitors topics : list str)
             (r : report),
        substring (lit "roadmap") (normalize ans) ->
        analyze_answers [ans] brand competitors [lit "Product Manager"] topics
        = Ok r ->
        persona_visibility r = [(lit "Product Manager", 100)]).
Proof.
  split.
  { intros p ps text pc Hn. cbn [persona_loop].
    now rewrite persona_keywords_no_word. }
  split.
  - intros p first rest text Hsplit.
    assert (Hkw : persona_keywords p
                  = Ok [lower p; lower first; lit "strategy"; lit "roadmap";
                        lit "architecture"; lit "planning"; lit "analysis";
                        lit "decision"])
      by (unfold persona_keywords; now rewrite Hsplit).
    split.
    + unfold persona_match. rewrite Hkw. apply contains_any_spec.
    + intros pc Hin.
      destruct (persona_loop_total text [p] pc) as [pc' E].
      * intros k [<- | []]. exact Hin.
      * constructor; [| constructor]. unfold has_word. now rewrite Hsplit.
      * exists pc'. split; [exact E |].
        rewrite (persona_loop_counts _ _ _ _ E p).
        unfold entries. simpl. destruct (str_eq_dec p p); [| congruence].
        destruct (persona_match text p); lia.
  - intros ans brand competitors topics r Hsub H.
    apply analyze_answers_inv in H as (st & Hloop & Hrep).
    apply build_report_inv in Hrep as (_ & _ & Hpv & _).
    destruct (answers_loop_NoDup _ _ _ _ _ Hloop) as (_ & Hnd & _).
    apply answers_loop_inv in Hloop as ((_ & Hk & _) & _ & _ & Hp & _).
    assert (Hm : persona_match (normalize ans) (lit "Product Manager") = true).
    { unfold persona_match.
      change (persona_keywords (lit "Product Manager"))
        with (Ok [lit "product manager"; lit "product"; lit "strategy";
                  lit "roadmap"; lit "architecture"; lit "planning";
                  lit "analysis"; lit "decision"]).
      apply contains_any_spec. exists (lit "roadmap").
      split; [simpl; tauto | exact Hsub]. }
    assert (Hc : count_of (lit "Product Manager") (persona_counts st) = 1).
    { rewrite Hp. cbn [answers_matching]. rewrite Hm.
      change (persona_counts
                (initial_counters (brand :: competitors)
                   [lit "Product Manager"] topics))
        with (dict_fromkeys [lit "Product Manager"] 0).
      rewrite count_of_fromkeys. vm_compute. reflexivity. }
    change (keys (persona_counts
                    (initial_counters (brand :: competitors)
                       [lit "Product Manager"] topics)))
      with [lit "Product Manager"] in Hk.
    destruct (persona_counts st) as [| [k c] [| item items]];
      try discriminate Hk.
    assert (Ek : k = lit "Product Manager") by now injection Hk.
    clear Hk. subst k. unfold count_of in Hc. cbn [dict_get] in Hc.
    destruct (str_eq_dec (lit "Product Manager") (lit "Product Manager"));
      [| congruence].
    subst c. change (total_of [ans]) with 1 in Hpv.
    assert (E : visibility 1 [(lit "Product Manager", 1)]
                = Ok [(lit "Product Manager", 100)])
      by (vm_compute; reflexivity).
    rewrite E in Hpv. now injection Hpv.
Qed.

Lemma persona_hit_rule_witness :
  persona_loop (lit "the q3 roadmap") [lit " "] [(lit " ", 0)]
  = Raise IndexError
  /\ persona_match (lit "the q3 roadmap") (lit "Product Manager") = true
  /\ exists r,
       analyze_answers [TStr (lit "See the Roadmap for Q3")] (lit "Acme") []
         [lit "Product Manager"] [] = Ok r
       /\ persona_visibility r = [(lit "Product Manager", 100)].
Proof.
  destruct persona_hit_rule as (Hblank & Hrule & Hscenario).
  split; [| split].
  - apply Hblank. intro Hw. now apply Hw.
  - apply (Hrule (lit "Product Manager") (lit "Product") [lit "Manager"]
             (lit "the q3 roadmap") eq_refl).
    exists (lit "roadmap"). split; [simpl; tauto |].
    exists (lit "the q3 "), []. reflexivity.
  - eexists.
    match goal with
    | |- ?call = Ok ?r /\ _ =>
        assert (E : call = Ok r) by (vm_compute; reflexivity);
        split; [exact E |];
        apply (Hscenario (TStr (lit "See the Roadmap for Q3")) (lit "Acme")
                 [] [] r); [| exact E]
    end.
    exists (lit "see the "), (lit " for q3"). reflexivity.
Defined.

(** ** Determinism *)

(** C8: a call of [analyze_answers] whose references denote objects of the
    store returns or raises as the scorer does on what its arguments hold,
    whatever else the store holds; it leaves what its arguments hold and
    every dict of the store as they were; hence a second call with the
    same arguments, run in the store the first call left, returns or
    raises as the first one did, and so do two calls in any two stores in
    which the arguments hold the same. *)
Theorem analyze_answers_deterministic (s : store) (answers : addr)
  (brand : str) (competitors personas topics : addr) :
  valid_args s answers competitors personas topics = true ->
  let call := analyze_answers_at answers brand competitors personas topics in
  let s1 := snd (call s) in
  fst (call s1) = fst (call s)
  /\ fst (call s)
     = analyze_answers (texts_of s answers) brand (strs_of s competitors)
         (strs_of s personas) (strs_of s topics)
  /\ (texts_of s1 answers = texts_of s answers
      /\ strs_of s1 competitors = strs_of s competitors
      /\ strs_of s1 personas = strs_of s personas
      /\ strs_of s1 topics = strs_of s topics)
  /\ (forall d, (d < length (count_dicts s))%nat ->
                nth d (count_dicts s1) [] = nth d (count_dicts s) [])
  /\ (forall s' answers' competitors' personas' topics',
        valid_args s' answers' competitors' personas' topics' = true ->
        texts_of s' answers' = texts_of s answers ->
        strs_of s' competitors' = strs_of s competitors ->
        strs_of s' personas' = strs_of s personas ->
        strs_of s' topics' = strs_of s topics ->
        fst (analyze_answers_at answers' brand competitors' personas'
               topics' s')
        = fst (call s)).
Proof.
  intros Hv call s1.
  destruct (analyze_answers_at_spec s answers brand competitors personas
              topics Hv) as (Hr & b & p & t & Hs).
  fold call in Hr, Hs. fold s1 in Hs.
  destruct (valid_args_after s answers competitors personas topics
              (brand :: strs_of s competitors) [b; p; t] Hv)
    as (Hv1 & Ea & Ec & Ep & Et).
  rewrite <- Hs in Hv1, Ea, Ec, Ep, Et.
  split; [| split; [exact Hr | split; [auto | split]]].
  - destruct (analyze_answers_at_spec s1 answers brand competitors personas
                topics Hv1) as (Hr1 & _).
    fold call in Hr1. rewrite Hr1, Hr, Ea, Ec, Ep, Et. reflexivity.
  - intros d Hd. rewrite Hs. cbn [count_dicts]. now apply app_nth1.
  - intros s' answers' competitors' personas' topics' Hv' Ea' Ec' Ep' Et'.
    destruct (analyze_answers_at_spec s' answers' brand competitors'
                personas' topics' Hv') as (Hr' & _).
    rewrite Hr', Hr, Ea', Ec', Ep', Et'. reflexivity.
Qed.

Lemma analyze_answers_deterministic_witness :
  let s := mkStore [[lit "Beta"]; [lit "Nurse"]; [lit "pricing plans"];
                    [lit "Acme"; lit "rocks"]]
                   [[AStr (lit "Acme beats Beta on pricing"); AList 3%nat;
                     ANone]]
                   [[(lit "Acme", 7)]] in
  let call := analyze_answers_at 0%nat (lit "Acme") 0%nat 1%nat 2%nat in
  valid_args s 0%nat 0%nat 1%nat 2%nat = true
  /\ fst (call (snd (call s))) = fst (call s)
  /\ nth 0%nat (count_dicts (snd (call s))) [] = [(lit "Acme", 7)].
Proof.
  intros s call.
  pose proof (analyze_answers_deterministic s 0%nat (lit "Acme") 0%nat 1%nat
                2%nat eq_refl) as H.
  cbv zeta in H. destruct H as (Hsame & _ & _ & Hdicts & _).
  split; [reflexivity | split].
  - exact Hsame.
  - rewrite Hdicts; [reflexivity | simpl; lia].
Defined.

(** ** Models without a prompt *)

(** C9: a model of [models] whose queue is empty has no key in
    [per_model], and a handle was acquired for it. *)
Theorem idle_model_absent :
  forall (World Handle : Type)
         (get_llm : str -> World -> (Handle + exn) * World)
         (invoke : Handle -> str -> World -> (response + exn) * World)
         (pl : payload) (w w' : World) (res : batch_result)
         (log : list event) (m : str) (pbm : dict (list str)),
    generate_report get_llm invoke pl w = (Ok res, w', log) ->
    In m (get_list (pl_models pl)) ->
    group_prompts (get_list (pl_prompts pl)) (get_list (pl_models pl))
    = Ok pbm ->
    get_or_nil m pbm = [] ->
    dict_get m (per_model res) = None /\ In (Acquire m) log.
Proof.
  intros World Handle get_llm invoke pl w w' res log m pbm H Hin Hg Hq.
  apply per_model_keys in H as (pbm' & Hg' & _ & Hkeys & Hacq).
  rewrite Hg in Hg'. injection Hg' as <-. split.
  - apply dict_get_None. rewrite Hkeys. intros [_ Hne]. contradiction.
  - now apply Hacq.
Qed.

Lemma idle_model_absent_witness :
  let pl := mkPayload (Some (lit "Acme")) None None None
              (Some [Tagged (Some (lit "m1")) (Some (lit "What is Acme?"))])
              (Some [lit "m1"; lit "m2"]) in
  exists res w' log,
    echo_report pl = (Ok res, w', log)
    /\ dict_get (lit "m2") (per_model res) = None
    /\ In (Acquire (lit "m2")) log.
Proof.
  cbv zeta. do 3 eexists.
  match goal with
  | |- echo_report ?pl = (Ok ?res, ?w', ?log) /\ _ =>
      assert (E : echo_report pl = (Ok res, w', log))
        by (vm_compute; reflexivity);
      split; [exact E |];
      apply (idle_model_absent nat str echo_get_llm echo_invoke pl 0%nat w'
               res log (lit "m2")
               [(lit "m1", [lit "What is Acme?"])] E)
  end.
  - simpl. right. now left.
  - vm_compute. reflexivity.
  - vm_compute. reflexivity.
Defined.

(** ** Personas without a word *)

(** C10: with the empty string among the personas and at least one answer,
    the call raises the index error of [p.split()[0]]. *)
Theorem empty_persona_raises (answers : list text_input) (brand : str)
  (competitors personas topics : list str) :
  In (lit "") personas ->
  answers <> [] ->
  analyze_answers answers brand competitors personas topics
  = Raise IndexError.
Proof.
  intros Hin Hne. destruct answers as [| ans rest]; [congruence |].
  unfold analyze_answers. cbv zeta.
  rewrite answers_loop_raises; [reflexivity | apply well_keyed_initial |].
  apply Exists_exists. exists (lit ""). split; [exact Hin |].
  unfold has_word. intro H. apply H. reflexivity.
Qed.

Lemma empty_persona_raises_witness :
  analyze_answers [TStr (lit "Acme is great")] (lit "Acme") []
    [lit "Product Manager"; lit ""] [] = Raise IndexError.
Proof.
  apply empty_persona_raises.
  - right. now left.
  - discriminate.
Defined.

(** * Further properties of the code *)

(** ** Normalization *)

Lemma lower_char_idem (c : ascii) : lower_char (lower_char c) = lower_char c.
Proof.
  destruct c as [[] [] [] [] [] [] [] []]; reflexivity.
Qed.

Lemma isspace_lower_char (c : ascii) : isspace (lower_char c) = isspace c.
Proof.
  destruct c as [[] [] [] [] [] [] [] []]; reflexivity.
Qed.

Lemma lower_idem (s : str) : lower (lower s) = lower s.
Proof.
  unfold lower. rewrite map_map. apply map_ext. apply lower_char_idem.
Qed.

Lemma lower_app (s t : str) : lower (s ++ t) = lower s ++ lower t.
Proof. apply map_app. Qed.

Lemma normalize_str (s : str) : normalize (TStr s) = lower s.
Proof. destruct s; reflexivity. Qed.

Lemma normalize_list (fragments : list str) :
  normalize (TList fragments) = lower (join (lit " ") fragments).
Proof. destruct fragments; reflexivity. Qed.

Lemma split_from_lower (s : str) :
  forall word,
  split_from (lower word) (lower s) = map lower (split_from word s).
Proof.
  induction s as [| c s IH]; intro word; simpl.
  - destruct word; reflexivity.
  - rewrite isspace_lower_char. destruct (isspace c).
    + destruct word as [| a word]; simpl.
      * apply (IH []).
      * f_equal. apply (IH []).
    + rewrite <- IH. f_equal. unfold lower. now rewrite map_app.
Qed.

(** Splitting and lowercasing commute. *)
Lemma split_lower (s : str) : split (lower s) = map lower (split s).
Proof. apply (split_from_lower s []). Qed.

(** X1: the normalized text is in lowercase already and normalizing it
    again changes nothing; a list answer is normalized as the string of
    its fragments joined by single spaces. *)
Theorem normalize_idempotent :
  (forall text, lower (normalize text) = normalize text)
  /\ (forall text, normalize (TStr (normalize text)) = normalize text)
  /\ (forall fragments,
        normalize (TList fragments)
        = normalize (TStr (join (lit " ") fragments))).
Proof.
  assert (H : forall text, lower (normalize text) = normalize text).
  { intros [s | fragments |].
    - rewrite normalize_str. apply lower_idem.
    - rewrite normalize_list. apply lower_idem.
    - reflexivity. }
  split; [exact H |]. split.
  - intro text. rewrite normalize_str. apply H.
  - intro fragments. now rewrite normalize_str, normalize_list.
Qed.

(** ** The scorer reads the answers through [normalize] only *)

Lemma score_answer_normalize (all_brands personas topics : list str)
  (st : counters) (a a' : text_input) :
  normalize a = normalize a' ->
  score_answer all_brands personas topics st a
  = score_answer all_brands personas topics st a'.
Proof.
  intro H. unfold score_answer. now rewrite H.
Qed.

Lemma answers_loop_normalize (all_brands personas topics : list str)
  (xs ys : list text_input) :
  Forall2 (fun a a' => normalize a = normalize a') xs ys ->
  forall st,
  answers_loop all_brands personas topics st xs
  = answers_loop all_brands personas topics st ys.
Proof.
  induction 1 as [| a a' xs ys Ha _ IH]; intro st; cbn [answers_loop];
    [reflexivity |].
  rewrite (score_answer_normalize _ _ _ st a a' Ha).
  destruct (score_answer all_brands personas topics st a'); simpl;
    [apply IH | reflexivity].
Qed.

(** X2: two batches whose answers have pairwise the same normalized text
    get the same outcome: neither the case of an answer nor its split into
    fragments matters. *)
Theorem analyze_answers_normalized (xs ys : list text_input) (brand : str)
  (competitors personas topics : list str) :
  Forall2 (fun a a' => normalize a = normalize a') xs ys ->
  analyze_answers xs brand competitors personas topics
  = analyze_answers ys brand competitors personas topics.
Proof.
  intro H. unfold analyze_answers, total_of.
  rewrite (Forall2_length H).
  now rewrite (answers_loop_normalize _ _ _ xs ys H).
Qed.

Lemma analyze_answers_normalized_witness :
  analyze_answers [TStr (lit "ACME beats Zeta"); TStr (lit "")]
    (lit "Acme") [lit "Zeta"] [] []
  = analyze_answers [TList [lit "acme"; lit "beats"; lit "zeta"]; TNone]
      (lit "Acme") [lit "Zeta"] [] [].
Proof.
  apply analyze_answers_normalized.
  repeat constructor.
Defined.

(** ** Percentages of batches up to a hundred answers *)

Lemma percent_table_ok (n : nat) :
  percent_table n = true ->
  forall c t, 1 <= t <= Z.of_nat n -> 0 <= c <= t -> percent_ok c t = true.
Proof.
  unfold percent_table. intros H c t Ht Hc.
  rewrite forallb_forall in H.
  assert (Hrow : In (Z.to_nat t) (seq 1 n)) by (apply in_seq; lia).
  specialize (H _ Hrow). rewrite forallb_forall in H.
  assert (Hcol : In (Z.to_nat c) (seq 0 (S (Z.to_nat t))))
    by (apply in_seq; lia).
  specialize (H _ Hcol). now rewrite !Z2Nat.id in H by lia.
Qed.

Lemma percent_table_computed : percent_table table_size = true.
Proof. vm_compute. reflexivity. Qed.

Lemma percent_small (c t : Z) :
  1 <= t <= Z.of_nat table_size -> 0 <= c <= t ->
  exists v,
    percent c t = Ok v
    /\ 0 <= v <= 100
    /\ 100 * c / t - 1 <= v <= 100 * c / t
    /\ (c = 0 -> v = 0)
    /\ (c = t -> v = 100).
Proof.
  intros Ht Hc.
  pose proof (percent_table_ok _ percent_table_computed c t Ht Hc) as H.
  unfold percent_ok in H. destruct (percent c t) as [v | e];
    [| discriminate].
  exists v. split; [reflexivity |].
  apply andb_true_iff in H. destruct H as [H _].
  repeat (apply andb_true_iff in H; destruct H as [H ?]).
  repeat match goal with
         | H : (_ <=? _) = true |- _ => apply Z.leb_le in H
         end.
  split; [lia |]. split; [lia |]. split.
  - intros ->. match goal with
               | H : implb (0 =? 0) _ = true |- _ =>
                   simpl in H; now apply Z.eqb_eq in H
               end.
  - intros ->. match goal with
               | H : implb (t =? t) _ = true |- _ =>
                   rewrite Z.eqb_refl in H; simpl in H;
                   now apply Z.eqb_eq in H
               end.
Qed.

Lemma total_of_max (answers : list text_input) :
  total_of answers = Z.max 1 (Z.of_nat (length answers)).
Proof.
  unfold total_of. destruct (Z.of_nat (length answers) =? 0) eqn:E.
  - apply Z.eqb_eq in E. lia.
  - apply Z.eqb_neq in E. lia.
Qed.

Lemma hit_answers_bounds (all_brands : list str) (answers : list text_input) :
  0 <= hit_answers all_brands answers <= Z.of_nat (length answers).
Proof.
  induction answers as [| ans rest IH]; cbn [hit_answers length]; [lia |].
  destruct (existsb (fun b => str_in (lower b) (normalize ans)) all_brands);
    lia.
Qed.

Lemma answers_matching_bounds (hit : str -> str -> bool) (name : str)
  (answers : list text_input) :
  0 <= answers_matching hit name answers <= Z.of_nat (length answers).
Proof.
  induction answers as [| ans rest IH]; cbn [answers_matching length];
    [lia |].
  destruct (hit (normalize ans) name); lia.
Qed.

(** X3: for a batch of at most a hundred answers, [brand_visibility] lies
    in [0, 100] and is the exact [floor(100 * hits / max(1, len))] or one
    less than it; it is 0 when no answer names a brand and 100 when every
    answer of a non-empty batch does. *)
Theorem brand_visibility_bounded (answers : list text_input) (brand : str)
  (competitors personas topics : list str) (r : report) :
  (length answers <= table_size)%nat ->
  analyze_answers answers brand competitors personas topics = Ok r ->
  let hits := hit_answers (brand :: competitors) answers in
  let exact := 100 * hits / Z.max 1 (Z.of_nat (length answers)) in
  0 <= brand_visibility r <= 100
  /\ exact - 1 <= brand_visibility r <= exact
  /\ (hits = 0 -> brand_visibility r = 0)
  /\ (answers <> [] -> hits = Z.of_nat (length answers) ->
      brand_visibility r = 100).
Proof.
  intros Hlen H. cbv zeta. apply brand_visibility_percent in H.
  pose proof (hit_answers_bounds (brand :: competitors) answers) as Hb.
  assert (Hsize : Z.of_nat (length answers) <= Z.of_nat table_size) by lia.
  assert (Hone : 1 <= Z.of_nat table_size) by (unfold table_size; lia).
  destruct (percent_small (hit_answers (brand :: competitors) answers)
              (Z.max 1 (Z.of_nat (length answers))))
    as (v & Hv & Hrange & Hexact & Hzero & Hall); [lia | lia |].
  rewrite Hv in H. injection H as <-.
  split; [exact Hrange |]. split; [exact Hexact |]. split; [exact Hzero |].
  intros Hne Hhits. apply Hall. rewrite Hhits.
  destruct answers; [congruence | simpl length; lia].
Qed.

Lemma brand_visibility_bounded_witness :
  exists r,
    analyze_answers
      [TStr (lit "Acme"); TStr (lit "other"); TStr (lit "acme again")]
      (lit "Acme") [] [] [] = Ok r
    /\ 0 <= brand_visibility r <= 100
    /\ 100 * 2 / 3 - 1 <= brand_visibility r <= 100 * 2 / 3.
Proof.
  eexists.
  match goal with
  | |- analyze_answers ?a ?b ?c ?p ?t = Ok ?r /\ _ =>
      assert (E : analyze_answers a b c p t = Ok r)
        by (vm_compute; reflexivity);
      split; [exact E |];
      destruct (brand_visibility_bounded a b c p t r) as (H1 & H2 & _);
        [unfold table_size; simpl; lia | exact E |]
  end.
  split; [exact H1 | exact H2].
Defined.

(** ** Insertion order of the dictionaries *)

Lemma filter_absorb {A : Type} (f g : A -> bool) (l : list A) :
  (forall x, f x = true -> g x = true) ->
  filter f (filter g l) = filter f l.
Proof.
  intro H. induction l as [| x l IH]; simpl; [reflexivity |].
  destruct (g x) eqn:G; simpl.
  - now rewrite IH.
  - destruct (f x) eqn:F; [| exact IH].
    apply H in F. congruence.
Qed.

Lemma filter_filter {A : Type} (f g : A -> bool) (l : list A) :
  filter f (filter g l) = filter (fun x => f x && g x) l.
Proof.
  induction l as [| x l IH]; simpl; [reflexivity |].
  destruct (g x); simpl.
  - rewrite andb_true_r. destruct (f x); now rewrite IH.
  - now rewrite andb_false_r.
Qed.

Lemma first_occurrences_In (ks : list str) (x : str) :
  In x (first_occurrences ks) <-> In x ks.
Proof.
  induction ks as [| k ks IH]; simpl; [tauto |].
  rewrite filter_In, IH. destruct (str_eq_dec x k) as [-> | Hne].
  - split; auto.
  - split; [intros [E | [H _]]; auto | intros [E | H]; auto; congruence].
Qed.

Lemma first_occurrences_NoDup (ks : list str) : NoDup (first_occurrences ks).
Proof.
  induction ks as [| k ks IH]; simpl; constructor.
  - rewrite filter_In. intros [_ H].
    destruct (str_eq_dec k k); [discriminate | congruence].
  - now apply NoDup_filter.
Qed.

Lemma first_occurrences_NoDup_id (ks : list str) :
  NoDup ks -> first_occurrences ks = ks.
Proof.
  induction 1 as [| k ks Hk _ IH]; simpl; [reflexivity |].
  rewrite IH. f_equal. apply forallb_filter_id. apply forallb_forall.
  intros x Hx. destruct (str_eq_dec x k); [congruence | reflexivity].
Qed.

Lemma fold_add_keys (P : str -> bool) (ks : list str) :
  forall l,
  fold_left (fun l k => if P k then add_key k l else l) ks l
  = l ++ filter (fun k => P k
                          && (if in_dec str_eq_dec k l then false else true))
         (first_occurrences ks).
Proof.
  induction ks as [| k ks IH]; intro l; cbn [fold_left first_occurrences].
  - simpl. now rewrite app_nil_r.
  - rewrite IH. cbn [filter].
    destruct (P k) eqn:HP; cbn [andb]; unfold add_key;
      destruct (in_dec str_eq_dec k l) as [Hin | Hout].
    + f_equal. symmetry. apply filter_absorb. intros x Hx.
      destruct (str_eq_dec x k) as [-> |]; [| reflexivity].
      destruct (in_dec str_eq_dec k l); [| contradiction].
      now rewrite andb_false_r in Hx.
    + rewrite <- app_assoc. cbn [app]. do 2 f_equal.
      rewrite filter_filter. apply filter_ext. intro x.
      destruct (str_eq_dec x k) as [-> | Hne].
      * destruct (in_dec str_eq_dec k (l ++ [k])) as [| N];
          [now rewrite !andb_false_r |].
        exfalso. apply N, in_or_app. right. now left.
      * rewrite andb_true_r.
        destruct (in_dec str_eq_dec x (l ++ [k])) as [H1 | H1];
          destruct (in_dec str_eq_dec x l) as [H2 | H2]; try reflexivity.
        -- apply in_app_or in H1. destruct H1 as [H1 | [E | []]];
             [contradiction | congruence].
        -- exfalso. apply H1, in_or_app. now left.
    + f_equal. symmetry. apply filter_absorb. intros x Hx.
      destruct (str_eq_dec x k) as [-> |]; [| reflexivity].
      now rewrite HP in Hx.
    + f_equal. symmetry. apply filter_absorb. intros x Hx.
      destruct (str_eq_dec x k) as [-> |]; [| reflexivity].
      now rewrite HP in Hx.
Qed.

Lemma keys_dict_set {V : Type} (k : str) (v : V) (d : dict V) :
  keys (dict_set k v d) = add_key k (keys d).
Proof.
  unfold add_key. destruct (in_dec str_eq_dec k (keys d)).
  - now apply keys_set_present.
  - now apply keys_set_absent.
Qed.

Lemma keys_fromkeys {V : Type} (v0 : V) (ks : list str) :
  keys (dict_fromkeys ks v0) = first_occurrences ks.
Proof.
  assert (H : forall d : dict V,
            keys (fold_left (fun d k => dict_set k v0 d) ks d)
            = fold_left (fun l k => if (fun _ => true) k
                                    then add_key k l else l) ks (keys d)).
  { induction ks as [| k ks IH]; intro d; cbn [fold_left]; [reflexivity |].
    now rewrite IH, keys_dict_set. }
  unfold dict_fromkeys.
  etransitivity; [apply H |].
  etransitivity; [apply (fold_add_keys (fun _ => true)) |]. simpl.
  apply forallb_filter_id. apply forallb_forall. reflexivity.
Qed.

(** ** The counters after the loop *)

Lemma count_of_head (k : str) (v : Z) (d : dict Z) :
  count_of k ((k, v) :: d) = v.
Proof.
  unfold count_of. simpl. destruct (str_eq_dec k k); congruence.
Qed.

Lemma count_of_tail (k k' : str) (v : Z) (d : dict Z) :
  k' <> k -> count_of k' ((k, v) :: d) = count_of k' d.
Proof.
  intro H. unfold count_of. simpl. destruct (str_eq_dec k' k); congruence.
Qed.

(** A dictionary is its keys, each with its count. *)
Lemma dict_of_keys (d : dict Z) :
  NoDup (keys d) -> d = map (fun k => (k, count_of k d)) (keys d).
Proof.
  induction d as [| [k v] d IH]; simpl; intro Hnd; [reflexivity |].
  inversion Hnd as [| ? ? Hk Hnd']; subst.
  rewrite count_of_head. f_equal. rewrite (IH Hnd') at 1.
  apply map_ext_in. intros k' Hin. f_equal. symmetry.
  apply count_of_tail. intros ->. contradiction.
Qed.

Lemma final_counters (all_brands personas topics : list str)
  (answers : list text_input) (st : counters) :
  answers_loop all_brands personas topics
    (initial_counters all_brands personas topics) answers = Ok st ->
  brand_counts st
  = map (fun k => (k, entries k all_brands * mentions k answers))
      (first_occurrences all_brands)
  /\ brand_hit_answers st = hit_answers all_brands answers
  /\ persona_counts st
     = map (fun p => (p, entries p personas
                         * answers_matching persona_match p answers))
         (first_occurrences personas)
  /\ topic_counts st
     = map (fun t => (t, entries t topics
                         * answers_matching topic_match t answers))
         (first_occurrences topics).
Proof.
  intro H. destruct (answers_loop_NoDup _ _ _ _ _ H) as (Nb & Np & Nt).
  apply answers_loop_inv in H as ((Kb & Kp & Kt) & Hb & Hh & Hp & Ht).
  simpl in Kb, Kp, Kt, Hb, Hh, Hp, Ht.
  rewrite keys_fromkeys in Kb, Kp, Kt.
  split; [| split; [lia | split]].
  - rewrite (dict_of_keys _ Nb), Kb. apply map_ext. intro k.
    now rewrite Hb, count_of_fromkeys.
  - rewrite (dict_of_keys _ Np), Kp. apply map_ext. intro k.
    now rewrite Hp, count_of_fromkeys.
  - rewrite (dict_of_keys _ Nt), Kt. apply map_ext. intro k.
    now rewrite Ht, count_of_fromkeys.
Qed.

Lemma visibility_of_map (total : Z) (f : str -> Z) (ks : list str) :
  forall vs,
  visibility total (map (fun k => (k, f k)) ks) = Ok vs ->
  keys vs = filter (fun k => 0 <? f k) ks
  /\ forall k v, In (k, v) vs -> percent (f k) total = Ok v.
Proof.
  induction ks as [| k ks IH]; intros vs H; cbn [map visibility] in H.
  - injection H as <-. split; [reflexivity | intros k v []].
  - cbn [filter]. rewrite Z.gtb_ltb in H. destruct (0 <? f k).
    + bind_inv H. bind_inv H. injection H as <-.
      destruct (IH _ Ha0) as [Hk Hv]. split; [simpl; now rewrite Hk |].
      intros k' v [E | Hin]; [injection E as <- <-; assumption | auto].
    + now apply IH.
Qed.

Lemma visibility_returns (total : Z) (items : dict Z) :
  (forall k c, In (k, c) items -> 0 < c -> exists v, percent c total = Ok v) ->
  exists vs, visibility total items = Ok vs.
Proof.
  induction items as [| [k c] items IH]; intro H; cbn [visibility];
    [eauto |].
  destruct IH as [vs Hvs]; [intros k' c' Hin; apply (H k'); now right |].
  destruct (c >? 0) eqn:E; [| eauto].
  apply Z.gtb_lt in E.
  destruct (H k c) as [v Hv]; [now left | exact E |].
  rewrite Hv, Hvs. simpl. eauto.
Qed.

(** ** Personas and topics in the report *)

(** X4: the keys of [persona_visibility] are the personas hit by at least
    one answer, in the order of their first occurrence in [personas], and
    each maps to [int((n / max(1, len)) * 100)] for [n] the number of
    answers that hit it times the number of entries naming it; likewise
    for the topics. *)
Theorem visibility_mappings_spec (answers : list text_input) (brand : str)
  (competitors personas topics : list str) (r : report) :
  analyze_answers answers brand competitors personas topics = Ok r ->
  let total := Z.max 1 (Z.of_nat (length answers)) in
  keys (persona_visibility r)
  = filter (fun p => 0 <? answers_matching persona_match p answers)
      (first_occurrences personas)
  /\ (forall p v, dict_get p (persona_visibility r) = Some v ->
        percent (entries p personas
                 * answers_matching persona_match p answers) total = Ok v)
  /\ keys (topic_visibility r)
     = filter (fun t => 0 <? answers_matching topic_match t answers)
         (first_occurrences topics)
  /\ (forall t v, dict_get t (topic_visibility r) = Some v ->
        percent (entries t topics
                 * answers_matching topic_match t answers) total = Ok v).
Proof.
  intro H. cbv zeta. rewrite <- total_of_max.
  apply analyze_answers_inv in H as (st & Hloop & Hrep).
  apply build_report_inv in Hrep as (_ & _ & Hpv & Htv).
  apply final_counters in Hloop as (_ & _ & Ep & Et).
  rewrite Ep in Hpv. rewrite Et in Htv.
  apply visibility_of_map in Hpv as [Kp Vp].
  apply visibility_of_map in Htv as [Kt Vt].
  assert (Hpos : forall (vocabulary : list str) (g : str -> Z),
            (forall k, 0 <= g k) ->
            filter (fun k => 0 <? entries k vocabulary * g k)
              (first_occurrences vocabulary)
            = filter (fun k => 0 <? g k) (first_occurrences vocabulary)).
  { intros vocabulary g Hg. apply filter_ext_in. intros k Hin.
    apply (proj1 (first_occurrences_In _ _)) in Hin.
    apply entries_present in Hin. specialize (Hg k).
    destruct (0 <? g k) eqn:E.
    - apply Z.ltb_lt in E. apply Z.ltb_lt. apply Z.mul_pos_pos; lia.
    - apply Z.ltb_ge in E. apply Z.ltb_ge.
      assert (Hz : g k = 0) by lia. rewrite Hz, Z.mul_0_r. lia. }
  split; [rewrite Kp; apply Hpos; intro; apply answers_matching_bounds |].
  split; [intros p v Hget; apply Vp; now apply dict_get_Some_In |].
  split; [rewrite Kt; apply Hpos; intro; apply answers_matching_bounds |].
  intros t v Hget. apply Vt. now apply dict_get_Some_In.
Qed.

Lemma visibility_mappings_spec_witness :
  exists r,
    analyze_answers
      [TStr (lit "Cloud cost and the roadmap"); TStr (lit "nothing")]
      (lit "Acme") [] [lit "Product Manager"; lit "CTO"; lit "CTO"]
      [lit "Quantum"; lit "Cloud cost"] = Ok r
    /\ keys (persona_visibility r) = [lit "Product Manager"; lit "CTO"]
    /\ keys (topic_visibility r) = [lit "Cloud cost"].
Proof.
  eexists.
  match goal with
  | |- analyze_answers ?a ?b ?c ?p ?t = Ok ?r /\ _ =>
      assert (E : analyze_answers a b c p t = Ok r)
        by (vm_compute; reflexivity);
      split; [exact E |];
      destruct (visibility_mappings_spec a b c p t r E) as (Kp & _ & Kt & _)
  end.
  split; [rewrite Kp | rewrite Kt]; vm_compute; reflexivity.
Defined.

(** ** When the scorer returns *)

Lemma entries_NoDup (name : str) (vocabulary : list str) :
  NoDup vocabulary -> entries name vocabulary <= 1.
Proof.
  intro H. unfold entries.
  pose proof (proj1 (NoDup_count_occ str_eq_dec vocabulary) H name). lia.
Qed.

(** With every persona having a word, a batch of at most a hundred
    answers over personas and topics without repeated entries is scored. *)
Lemma analyze_answers_total (answers : list text_input) (brand : str)
  (competitors personas topics : list str) :
  (length answers <= table_size)%nat ->
  NoDup personas -> NoDup topics ->
  Forall has_word personas ->
  exists r, analyze_answers answers brand competitors personas topics = Ok r.
Proof.
  intros Hlen Np Nt Hw.
  destruct (answers_loop_total (brand :: competitors) personas topics
              answers _ (well_keyed_initial _ _ _) Hw) as [st Hst].
  unfold analyze_answers. cbv zeta. rewrite Hst. cbn [bind].
  destruct (final_counters _ _ _ _ _ Hst) as (_ & Hh & Ep & Et).
  assert (Hsize : 1 <= total_of answers <= Z.of_nat table_size).
  { rewrite total_of_max. unfold table_size in *. lia. }
  assert (Hcount : forall (vocabulary : list str) (hit : str -> str -> bool)
                     k c,
            NoDup vocabulary ->
            In (k, c)
               (map (fun p => (p, entries p vocabulary
                                  * answers_matching hit p answers))
                  (first_occurrences vocabulary)) ->
            0 < c -> exists v, percent c (total_of answers) = Ok v).
  { intros vocabulary hit k c Hnd Hin Hc.
    apply in_map_iff in Hin as (p & E & Hin). injection E as <- <-.
    apply (proj1 (first_occurrences_In _ _)) in Hin.
    pose proof (entries_present _ _ Hin).
    pose proof (entries_NoDup p _ Hnd).
    pose proof (answers_matching_bounds hit p answers).
    replace (entries p vocabulary) with 1 in * by lia.
    destruct (percent_small (1 * answers_matching hit p answers)
                (total_of answers)) as (v & Hv & _);
      [exact Hsize | rewrite total_of_max; lia | eauto]. }
  unfold build_report.
  destruct (percent_small (brand_hit_answers st) (total_of answers))
    as (bv & -> & _); [exact Hsize | |].
  { rewrite Hh, total_of_max.
    pose proof (hit_answers_bounds (brand :: competitors) answers). lia. }
  cbn [bind]. cbv zeta.
  destruct (visibility_returns (total_of answers) (persona_counts st))
    as [pv ->]; [rewrite Ep; intros k c; now apply Hcount |].
  destruct (visibility_returns (total_of answers) (topic_counts st))
    as [tv ->]; [rewrite Et; intros k c; now apply Hcount |].
  simpl. eauto.
Qed.

(** X5: for a batch of at most a hundred answers and personas and topics
    without repeated entries, the scorer returns a report exactly when the
    batch is empty or every persona has a first word; otherwise it raises
    the index error. *)
Theorem analyze_answers_returns (answers : list text_input) (brand : str)
  (competitors personas topics : list str) :
  (length answers <= table_size)%nat ->
  NoDup personas -> NoDup topics ->
  ((exists r,
      analyze_answers answers brand competitors personas topics = Ok r)
   <-> answers = [] \/ Forall has_word personas)
  /\ (answers <> [] -> ~ Forall has_word personas ->
      analyze_answers answers brand competitors personas topics
      = Raise IndexError).
Proof.
  intros Hlen Np Nt.
  assert (Hraise : answers <> [] -> ~ Forall has_word personas ->
            analyze_answers answers brand competitors personas topics
            = Raise IndexError).
  { intros Hne Hnw. destruct answers as [| ans rest]; [congruence |].
    destruct (Forall_Exists_dec has_word has_word_dec personas) as [| Hx];
      [contradiction |].
    unfold analyze_answers. cbv zeta.
    now rewrite answers_loop_raises by (auto using well_keyed_initial). }
  split; [| exact Hraise]. split.
  - intros [r Hr]. destruct answers as [| ans rest]; [now left | right].
    destruct (Forall_Exists_dec has_word has_word_dec personas) as [Hw | Hx];
      [exact Hw |].
    rewrite Hraise in Hr; [discriminate | discriminate |].
    intro Hw. apply Exists_exists in Hx as (p & Hin & Hp).
    rewrite Forall_forall in Hw. now apply Hp, Hw.
  - intros [-> | Hw]; [rewrite empty_batch_report; eauto |].
    now apply analyze_answers_total.
Qed.

Lemma analyze_answers_returns_witness :
  (exists r,
     analyze_answers [TStr (lit "the roadmap")] (lit "Acme") []
       [lit "Product Manager"] [lit "Cloud cost"] = Ok r)
  /\ analyze_answers [TStr (lit "the roadmap")] (lit "Acme") []
       [lit "Product Manager"; lit "   "] [lit "Cloud cost"]
     = Raise IndexError.
Proof.
  split.
  - apply (analyze_answers_returns [TStr (lit "the roadmap")] (lit "Acme") []
             [lit "Product Manager"] [lit "Cloud cost"]).
    + unfold table_size. simpl. lia.
    + repeat constructor; simpl; tauto.
    + repeat constructor; simpl; tauto.
    + right. repeat constructor. unfold has_word. vm_compute. discriminate.
  - apply (analyze_answers_returns [TStr (lit "the roadmap")] (lit "Acme") []
             [lit "Product Manager"; lit "   "] [lit "Cloud cost"]).
    + unfold table_size. simpl. lia.
    + repeat constructor; simpl; intuition discriminate.
    + repeat constructor; simpl; tauto.
    + discriminate.
    + intro Hw. inversion Hw as [| ? ? _ Hw']; subst.
      inversion Hw' as [| ? ? Hblank _]; subst. now apply Hblank.
Defined.

(** ** Order and content of [brand_mentions] *)

Lemma filter_insert_desc (c : Z) (x : str * Z) (l : list (str * Z)) :
  filter (fun it => snd it =? c) (insert_desc x l)
  = filter (fun it => snd it =? c) (x :: l).
Proof.
  induction l as [| y l IH]; cbn [insert_desc]; [reflexivity |].
  destruct (snd y <=? snd x) eqn:E; [reflexivity |].
  apply Z.leb_gt in E. cbn [filter] in *. rewrite IH.
  destruct (snd y =? c) eqn:Ey; [| reflexivity].
  apply Z.eqb_eq in Ey.
  destruct (snd x =? c) eqn:Ex; [| reflexivity].
  apply Z.eqb_eq in Ex. lia.
Qed.

Lemma filter_sorted_desc (c : Z) (l : list (str * Z)) :
  filter (fun it => snd it =? c) (sorted_desc l)
  = filter (fun it => snd it =? c) l.
Proof.
  induction l as [| x l IH]; simpl; [reflexivity |].
  rewrite filter_insert_desc. cbn [filter]. now rewrite IH.
Qed.

(** X6: names of equal count stand in [brand_mentions] in the order of
    their first occurrence in [[brand] + competitors]: for every count,
    the keys holding it are the vocabulary names of that count, in
    vocabulary order. *)
Theorem brand_mentions_ties (answers : list text_input) (brand : str)
  (competitors personas topics : list str) (r : report) :
  analyze_answers answers brand competitors personas topics = Ok r ->
  forall c,
  keys (filter (fun it => snd it =? c) (brand_mentions r))
  = filter (fun name =>
              entries name (brand :: competitors) * mentions name answers
              =? c)
      (first_occurrences (brand :: competitors)).
Proof.
  intros H c. apply analyze_answers_inv in H as (st & Hloop & Hrep).
  apply build_report_inv in Hrep as (_ & -> & _).
  apply final_counters in Hloop as (-> & _).
  rewrite filter_sorted_desc.
  induction (first_occurrences (brand :: competitors)) as [| k ks IH];
    [reflexivity |].
  cbn [map filter snd].
  destruct (entries k (brand :: competitors) * mentions k answers =? c);
    simpl; now rewrite IH.
Qed.

Lemma brand_mentions_ties_witness :
  exists r,
    analyze_answers [TStr (lit "Zeta and Beta"); TStr (lit "Acme, acme")]
      (lit "Acme") [lit "Nil"; lit "Zeta"; lit "Void"; lit "Beta"] [] []
    = Ok r
    /\ keys (brand_mentions r)
       = [lit "Acme"; lit "Zeta"; lit "Beta"; lit "Nil"; lit "Void"]
    /\ keys (filter (fun it => snd it =? 1) (brand_mentions r))
       = [lit "Zeta"; lit "Beta"].
Proof.
  eexists.
  match goal with
  | |- analyze_answers ?a ?b ?c ?p ?t = Ok ?r /\ _ =>
      assert (E : analyze_answers a b c p t = Ok r)
        by (vm_compute; reflexivity);
      split; [exact E |];
      pose proof (brand_mentions_ties a b c p t r E 1) as H1
  end.
  split; [reflexivity |]. rewrite H1. vm_compute. reflexivity.
Defined.

(** ** Brand hits and brand mentions *)

Lemma percent_small_pos (c t : Z) :
  1 <= t <= Z.of_nat table_size -> 1 <= c <= t ->
  exists v, percent c t = Ok v /\ 1 <= v.
Proof.
  intros Ht Hc.
  assert (Hc' : 0 <= c <= t) by lia.
  pose proof (percent_table_ok _ percent_table_computed c t Ht Hc') as H.
  unfold percent_ok in H. destruct (percent c t) as [v | e];
    [| discriminate].
  exists v. split; [reflexivity |].
  apply andb_true_iff in H. destruct H as [_ H].
  assert (E : (1 <=? c) = true) by (apply Z.leb_le; lia).
  rewrite E in H. simpl in H. now apply Z.leb_le in H.
Qed.

Lemma count_from_present (sub : str) (text : str) :
  sub <> [] -> str_in sub text = true -> 1 <= count_from sub 0 text.
Proof.
  intro Hne. induction text as [| c text IH]; intro H.
  - destruct sub; [congruence | discriminate H].
  - cbn [str_in] in H. cbn [count_from].
    destruct (startswith (c :: text) sub).
    + pose proof (count_from_nonneg sub text (length sub - 1)%nat). lia.
    + simpl in H. auto.
Qed.

(** A name that occurs is counted at least once. *)
Lemma count_present (text sub : str) :
  str_in sub text = true -> 1 <= count text sub.
Proof.
  destruct sub as [| a sub]; intro H; simpl.
  - lia.
  - apply count_from_present; [discriminate | exact H].
Qed.

Lemma mentions_nonneg (name : str) (answers : list text_input) :
  0 <= mentions name answers.
Proof.
  induction answers as [| ans rest IH]; simpl; [lia |].
  pose proof (count_nonneg (normalize ans) (lower name)). lia.
Qed.

Lemma hit_answers_zero (all_brands : list str) (answers : list text_input) :
  hit_answers all_brands answers = 0 <->
  forall name, In name all_brands -> mentions name answers = 0.
Proof.
  induction answers as [| ans rest IH]; cbn [hit_answers mentions].
  - split; auto.
  - pose proof (hit_answers_bounds all_brands rest) as Hb.
    destruct (existsb (fun b => str_in (lower b) (normalize ans)) all_brands)
      eqn:E.
    + split; [lia |]. intro H. exfalso.
      apply existsb_exists in E as (b & Hin & Hb').
      apply count_present in Hb'. specialize (H b Hin).
      pose proof (mentions_nonneg b rest). lia.
    + split.
      * intros H name Hin.
        assert (Hz : hit_answers all_brands rest = 0) by lia.
        rewrite (proj1 IH Hz name Hin).
        rewrite count_absent; [reflexivity |].
        destruct (str_in (lower name) (normalize ans)) eqn:S;
          [| reflexivity].
        assert (existsb (fun b => str_in (lower b) (normalize ans)) all_brands
                = true) by (apply existsb_exists; eauto).
        congruence.
      * intro H. rewrite (proj2 IH); [reflexivity |].
        intros name Hin. specialize (H name Hin).
        pose proof (mentions_nonneg name rest).
        pose proof (count_nonneg (normalize ans) (lower name)). lia.
Qed.

(** X7: no answer is a brand hit exactly when every name of
    [brand_mentions] is at 0; for a batch of at most a hundred answers
    this is exactly when [brand_visibility] is 0. *)
Theorem no_hits_iff_no_mentions (answers : list text_input) (brand : str)
  (competitors personas topics : list str) (r : report) :
  analyze_answers answers brand competitors personas topics = Ok r ->
  (hit_answers (brand :: competitors) answers = 0 <->
   forall name c, dict_get name (brand_mentions r) = Some c -> c = 0)
  /\ ((length answers <= table_size)%nat ->
      (brand_visibility r = 0 <->
       forall name c, dict_get name (brand_mentions r) = Some c -> c = 0)).
Proof.
  intro H.
  assert (Hm : hit_answers (brand :: competitors) answers = 0 <->
               forall name c,
                 dict_get name (brand_mentions r) = Some c -> c = 0).
  { rewrite hit_answers_zero. split.
    - intros Hz name c Hget.
      assert (Hin : In name (brand :: competitors)).
      { apply (brand_mentions_keys _ _ _ _ _ _ name H).
        destruct (in_dec str_eq_dec name (keys (brand_mentions r)))
          as [| N]; [assumption |].
        apply dict_get_None in N. congruence. }
      rewrite (brand_mentions_get _ _ _ _ _ _ _ H Hin) in Hget.
      injection Hget as <-. rewrite (Hz name Hin). lia.
    - intros Hz name Hin.
      pose proof (brand_mentions_get _ _ _ _ _ _ _ H Hin) as Hget.
      apply Hz in Hget. pose proof (entries_present _ _ Hin). nia. }
  split; [exact Hm |]. intro Hlen. rewrite <- Hm.
  pose proof (brand_visibility_percent _ _ _ _ _ _ H) as Hp.
  pose proof (hit_answers_bounds (brand :: competitors) answers) as Hb.
  assert (Hsize : 1 <= Z.max 1 (Z.of_nat (length answers))
                  <= Z.of_nat table_size)
    by (unfold table_size in *; lia).
  split.
  - intro Hz.
    destruct (Z.eq_dec (hit_answers (brand :: competitors) answers) 0)
      as [| Hne]; [assumption |].
    destruct (percent_small_pos
                (hit_answers (brand :: competitors) answers)
                (Z.max 1 (Z.of_nat (length answers))))
      as (v & Hv & Hpos); [exact Hsize | lia |].
    rewrite Hv in Hp. injection Hp as Hp. lia.
  - intro Hz. rewrite Hz in Hp.
    destruct (percent_small 0 (Z.max 1 (Z.of_nat (length answers))))
      as (v & Hv & _ & _ & Hzero & _); [exact Hsize | lia |].
    rewrite Hv in Hp. injection Hp as <-. now apply Hzero.
Qed.

Lemma no_hits_iff_no_mentions_witness :
  exists r,
    analyze_answers [TStr (lit "no relevant text here"); TStr (lit "none")]
      (lit "Acme") [lit "Zeta"] [] [] = Ok r
    /\ hit_answers [lit "Acme"; lit "Zeta"]
         [TStr (lit "no relevant text here"); TStr (lit "none")] = 0
    /\ brand_visibility r = 0.
Proof.
  eexists.
  match goal with
  | |- analyze_answers ?a ?b ?c ?p ?t = Ok ?r /\ _ =>
      assert (E : analyze_answers a b c p t = Ok r)
        by (vm_compute; reflexivity);
      split; [exact E |];
      destruct (no_hits_iff_no_mentions a b c p t r E) as [H1 H2]
  end.
  assert (Hz : forall name c,
             dict_get name [(lit "Acme", 0); (lit "Zeta", 0)] = Some c ->
             c = 0).
  { intros name c Hget. cbn [dict_get] in Hget.
    destruct (str_eq_dec name (lit "Acme")); [now injection Hget |].
    destruct (str_eq_dec name (lit "Zeta")); [now injection Hget |].
    discriminate Hget. }
  split.
  - apply H1. exact Hz.
  - apply H2; [unfold table_size; simpl; lia | exact Hz].
Defined.

(** ** An empty brand name *)

Lemma hit_answers_empty_name (competitors : list str)
  (answers : list text_input) :
  hit_answers (lit "" :: competitors) answers = Z.of_nat (length answers).
Proof.
  induction answers as [| ans rest IH]; cbn [hit_answers length];
    [reflexivity |].
  cbn [existsb]. change (lower (lit "")) with (@nil ascii).
  rewrite str_in_empty. cbn [orb]. lia.
Qed.

Lemma mentions_empty_name (answers : list text_input) :
  mentions (lit "") answers
  = sum (map (fun ans => Z.of_nat (length (normalize ans)) + 1) answers).
Proof.
  induction answers as [| ans rest IH]; cbn [mentions map sum];
    [reflexivity |].
  now rewrite IH.
Qed.

(** X8: with the empty string as brand every answer is a brand hit, the
    brand is counted once more than the answer has characters, and a
    non-empty batch of at most a hundred answers has [brand_visibility]
    100. *)
Theorem empty_brand_matches_everything (answers : list text_input)
  (competitors personas topics : list str) (r : report) :
  analyze_answers answers (lit "") competitors personas topics = Ok r ->
  hit_answers (lit "" :: competitors) answers = Z.of_nat (length answers)
  /\ dict_get (lit "") (brand_mentions r)
     = Some (entries (lit "") (lit "" :: competitors)
             * sum (map (fun ans => Z.of_nat (length (normalize ans)) + 1)
                      answers))
  /\ (answers <> [] -> (length answers <= table_size)%nat ->
      brand_visibility r = 100).
Proof.
  intro H. split; [apply hit_answers_empty_name |]. split.
  - rewrite (brand_mentions_get _ _ _ _ _ _ (lit "") H) by now left.
    now rewrite mentions_empty_name.
  - intros Hne Hlen. apply brand_visibility_percent in H.
    rewrite hit_answers_empty_name in H.
    assert (Hpos : 1 <= Z.of_nat (length answers))
      by (destruct answers; [congruence | simpl length; lia]).
    destruct (percent_small (Z.of_nat (length answers))
                (Z.max 1 (Z.of_nat (length answers))))
      as (v & Hv & _ & _ & _ & Hall);
      [unfold table_size in *; lia | lia |].
    rewrite Hv in H. injection H as <-. apply Hall. lia.
Qed.

Lemma empty_brand_matches_everything_witness :
  exists r,
    analyze_answers [TStr (lit "abc"); TNone] (lit "") [] [] [] = Ok r
    /\ dict_get (lit "") (brand_mentions r) = Some (1 * (4 + (1 + 0)))
    /\ brand_visibility r = 100.
Proof.
  eexists.
  match goal with
  | |- analyze_answers ?a ?b ?c ?p ?t = Ok ?r /\ _ =>
      assert (E : analyze_answers a b c p t = Ok r)
        by (vm_compute; reflexivity);
      split; [exact E |];
      destruct (empty_brand_matches_everything a c p t r E) as (_ & H1 & H2)
  end.
  split; [exact H1 |].
  apply H2; [discriminate | unfold table_size; simpl; lia].
Defined.

(** ** The topic heuristic *)

Lemma topic_keywords_words (t : str) :
  topic_keywords t = map lower (firstn 4 (split t)).
Proof.
  unfold topic_keywords. now rewrite split_lower, firstn_map.
Qed.

Lemma answers_matching_pos (hit : str -> str -> bool) (name : str)
  (answers : list text_input) :
  0 < answers_matching hit name answers <->
  exists ans, In ans answers /\ hit (normalize ans) name = true.
Proof.
  induction answers as [| ans rest IH]; cbn [answers_matching].
  - split; [lia | intros (a & [] & _)].
  - pose proof (answers_matching_bounds hit name rest) as Hb.
    destruct (hit (normalize ans) name) eqn:E.
    + split; [| lia]. intros _. exists ans. split; [now left | exact E].
    + split.
      * intro H. destruct (proj1 IH) as (a & Hin & Ha); [lia |].
        exists a. split; [now right | exact Ha].
      * intros (a & [<- | Hin] & Ha); [congruence |].
        assert (0 < answers_matching hit name rest)
          by (apply IH; eauto). lia.
Qed.

Lemma topic_visibility_keys (answers : list text_input) (brand : str)
  (competitors personas topics : list str) (r : report) :
  analyze_answers answers brand competitors personas topics = Ok r ->
  keys (topic_visibility r)
  = filter (fun t => 0 <? entries t topics
                          * answers_matching topic_match t answers)
      (first_occurrences topics).
Proof.
  intro H. apply analyze_answers_inv in H as (st & Hloop & Hrep).
  apply build_report_inv in Hrep as (_ & _ & _ & Htv).
  apply final_counters in Hloop as (_ & _ & _ & Et).
  rewrite Et in Htv. now apply visibility_of_map in Htv as [Kt _].
Qed.

(** X9: an answer text is a hit for a topic exactly when it has as a
    substring the lowercase form of one of the first four words of the
    topic; a topic is a key of [topic_visibility] exactly when it is one of
    [topics] and some answer is a hit for it, so a topic without a word
    never is. *)
Theorem topic_hit_rule :
  (forall t text,
     topic_match text t = true <->
     exists w, In w (firstn 4 (split t)) /\ substring (lower w) text)
  /\ (forall answers brand competitors personas topics r t,
        analyze_answers answers brand competitors personas topics = Ok r ->
        (dict_get t (topic_visibility r) <> None <->
         In t topics
         /\ exists ans, In ans answers
                        /\ topic_match (normalize ans) t = true)
        /\ (~ has_word t -> dict_get t (topic_visibility r) = None)).
Proof.
  assert (Hrule : forall t text,
            topic_match text t = true <->
            exists w, In w (firstn 4 (split t)) /\ substring (lower w) text).
  { intros t text. unfold topic_match.
    rewrite contains_any_spec, topic_keywords_words. split.
    - intros (k & Hin & Hk). apply in_map_iff in Hin as (w & <- & Hw). eauto.
    - intros (w & Hw & Hk). exists (lower w). split; [| exact Hk].
      now apply in_map. }
  split; [exact Hrule |].
  intros answers brand competitors personas topics r t H.
  assert (Hkey : dict_get t (topic_visibility r) <> None <->
                 In t topics
                 /\ exists ans, In ans answers
                                /\ topic_match (normalize ans) t = true).
  { rewrite dict_get_None, (topic_visibility_keys _ _ _ _ _ _ H).
    rewrite <- answers_matching_pos.
    pose proof (answers_matching_bounds topic_match t answers) as Hb.
    split.
    - intro Hin.
      destruct (in_dec str_eq_dec t
                  (filter (fun t0 => 0 <? entries t0 topics
                                     * answers_matching topic_match t0 answers)
                     (first_occurrences topics))) as [Hf | Hf];
        [| contradiction].
      apply filter_In in Hf as [Hf Hpos].
      apply (proj1 (first_occurrences_In _ _)) in Hf.
      apply Z.ltb_lt in Hpos. split; [exact Hf |].
      destruct (Z.eq_dec (answers_matching topic_match t answers) 0)
        as [Hz | Hz]; [| lia].
      rewrite Hz, Z.mul_0_r in Hpos. lia.
    - intros [Hin Hpos] Hnot. apply Hnot. apply filter_In. split.
      + now apply first_occurrences_In.
      + apply Z.ltb_lt. pose proof (entries_present _ _ Hin).
        apply Z.mul_pos_pos; lia. }
  split; [exact Hkey |].
  intro Hw. destruct (dict_get t (topic_visibility r)) as [v |] eqn:E;
    [| reflexivity].
  exfalso.
  assert (Hpre : Some v <> None) by discriminate.
  destruct (proj1 Hkey Hpre) as (_ & ans & _ & Hhit).
  apply Hrule in Hhit as (w & Hin & _).
  apply Hw. unfold has_word. intro Hs. rewrite Hs in Hin. destruct Hin.
Qed.

Lemma topic_hit_rule_witness :
  topic_match (lit "our cloud bill") (lit "Cloud cost of data pipelines ETL")
  = true
  /\ exists r,
       analyze_answers [TStr (lit "the ETL is slow")] (lit "Acme") [] []
         [lit "Cloud cost of data pipelines ETL"; lit "  "] = Ok r
       /\ dict_get (lit "  ") (topic_visibility r) = None.
Proof.
  destruct topic_hit_rule as [Hrule Hreport]. split.
  - apply Hrule. exists (lit "Cloud"). split; [vm_compute; tauto |].
    exists (lit "our "), (lit " bill"). reflexivity.
  - eexists.
    match goal with
    | |- analyze_answers ?a ?b ?c ?p ?t = Ok ?r /\ _ =>
        assert (E : analyze_answers a b c p t = Ok r)
          by (vm_compute; reflexivity);
        split; [exact E |];
        destruct (Hreport a b c p t r (lit "  ") E) as [_ Hblank]
    end.
    apply Hblank. unfold has_word. intro Hw. apply Hw. reflexivity.
Defined.

(** ** The calls made to the model layer *)

Section CallLog.
Variables World Handle : Type.
Variable get_llm : str -> World -> (Handle + exn) * World.
Variable invoke : Handle -> str -> World -> (response + exn) * World.

Lemma invoke_loop_log (model : str) (llm : Handle) (prompts : list str) :
  forall abm w log out w' log',
  invoke_loop invoke model llm prompts abm w log = (out, w', log') ->
  exists suffix,
    log ++ map (Invoke model) prompts = log' ++ suffix
    /\ (forall abm', out = Ok abm' -> suffix = []).
Proof.
  induction prompts as [| p rest IH]; intros abm w log out w' log' H;
    cbn [invoke_loop] in H.
  - injection H as <- <- <-. exists []. split; [reflexivity | auto].
  - destruct (invoke llm p w) as [[r | what] w1].
    + apply IH in H as (suffix & Hs & Hok). exists suffix.
      split; [| exact Hok]. rewrite <- Hs, <- app_assoc. reflexivity.
    + injection H as <- <- <-. exists (map (Invoke model) rest).
      split; [now rewrite <- app_assoc | discriminate].
Qed.

Lemma models_loop_log (pbm : dict (list str)) (models : list str) :
  forall abm w log out w' log',
  models_loop get_llm invoke pbm models abm w log = (out, w', log') ->
  exists suffix,
    log ++ expected_log pbm models = log' ++ suffix
    /\ (forall abm', out = Ok abm' -> suffix = []).
Proof.
  induction models as [| model rest IH]; intros abm w log out w' log' H;
    cbn [models_loop] in H.
  - injection H as <- <- <-. exists []. split; [reflexivity | auto].
  - unfold expected_log. cbn [flat_map]. fold (expected_log pbm rest).
    destruct (get_llm model w) as [[llm | what] w1].
    + destruct (invoke_loop invoke model llm (get_or_nil model pbm) abm w1
                  (log ++ [Acquire model])) as [[[abm1 | e] w2] log2] eqn:E;
        apply invoke_loop_log in E as (s1 & Hs1 & Hok1).
      * rewrite (Hok1 abm1 eq_refl), app_nil_r in Hs1.
        apply IH in H as (suffix & Hs & Hok). exists suffix.
        split; [| exact Hok]. rewrite <- Hs, <- Hs1, <- !app_assoc.
        reflexivity.
      * injection H as <- <- <-. exists (s1 ++ expected_log pbm rest).
        split; [| discriminate].
        rewrite (app_assoc log2), <- Hs1, <- !app_assoc. reflexivity.
    + injection H as <- <- <-.
      exists (map (Invoke model) (get_or_nil model pbm)
              ++ expected_log pbm rest).
      split; [now rewrite <- app_assoc | discriminate].
Qed.

Lemma generate_report_log (pl : payload) (w w' : World)
  (out : result batch_result) (log : list event) :
  generate_report get_llm invoke pl w = (out, w', log) ->
  match group_prompts (get_list (pl_prompts pl)) (get_list (pl_models pl))
  with
  | Ok pbm =>
      exists suffix,
        expected_log pbm (get_list (pl_models pl)) = log ++ suffix
        /\ (forall res, out = Ok res -> suffix = [])
  | Raise e => log = [] /\ w' = w
  end.
Proof.
  unfold generate_report. destruct (pl_brand pl) as [brand |].
  - cbv zeta.
    destruct (group_prompts (get_list (pl_prompts pl))
                (get_list (pl_models pl))) as [pbm | e0].
    + destruct (models_loop get_llm invoke pbm _ [] w [])
        as [[[abm | e] w1] log1] eqn:E; intro H; injection H as <- <- <-;
        apply models_loop_log in E as (suffix & Hs & Hok); exists suffix;
        (split; [exact Hs |]).
      * intros res _. now apply (Hok abm).
      * discriminate.
    + intro H. injection H as <- <- <-. auto.
  - intro H. injection H as <- <- <-.
    destruct (group_prompts (get_list (pl_prompts pl))
                (get_list (pl_models pl))) as [pbm | e0]; [| auto].
    eexists. split; [reflexivity | discriminate].
Qed.
End CallLog.

Lemma In_expected_log (pbm : dict (list str)) (models : list str) (e : event) :
  In e (expected_log pbm models) ->
  match e with
  | Acquire m => In m models
  | Invoke m p => In m models /\ In p (get_or_nil m pbm)
  end.
Proof.
  unfold expected_log. rewrite in_flat_map. intros (m & Hm & [<- | Hin]).
  - exact Hm.
  - apply in_map_iff in Hin as (p & <- & Hp). auto.
Qed.

Lemma In_queue (prompts : list prompt) (models : list str)
  (pbm : dict (list str)) (m p : str) :
  group_prompts prompts models = Ok pbm ->
  In p (get_or_nil m pbm) ->
  In (Tagged (Some m) (Some p)) prompts \/ In (Plain p) prompts.
Proof.
  intro Hg. rewrite (group_prompts_queue _ _ _ m Hg).
  rewrite in_flat_map.
  intros ([[m' |] [text |] | text] & Hin & Hp); simpl in Hp;
    try (destruct Hp; fail).
  - destruct (str_eq_dec m m') as [<- |]; [| destruct Hp].
    destruct Hp as [<- | []]. now left.
  - apply repeat_spec in Hp. subst. now right.
Qed.

(** X10: the calls to the model layer are, in order, for each entry of
    [models] the acquisition of its handle followed by one invocation per
    prompt of its queue; a run that raises has made an initial part of
    them, and none at all when routing raised.  So a handle is acquired
    only for a listed model, and a prompt is invoked only on a listed
    model and only if the payload holds it as a plain prompt or tagged
    with that model. *)
Theorem call_log_spec :
  forall (World Handle : Type)
         (get_llm : str -> World -> (Handle + exn) * World)
         (invoke : Handle -> str -> World -> (response + exn) * World)
         (pl : payload) (w w' : World) (out : result batch_result)
         (log : list event),
    generate_report get_llm invoke pl w = (out, w', log) ->
    let models := get_list (pl_models pl) in
    let prompts := get_list (pl_prompts pl) in
    (forall pbm,
       group_prompts prompts models = Ok pbm ->
       exists suffix,
         expected_log pbm models = log ++ suffix
         /\ (forall res, out = Ok res -> suffix = []))
    /\ (forall e, group_prompts prompts models = Raise e ->
                  log = [] /\ w' = w)
    /\ (forall m, In (Acquire m) log -> In m models)
    /\ (forall m p, In (Invoke m p) log ->
          In m models
          /\ (In (Tagged (Some m) (Some p)) prompts
              \/ In (Plain p) prompts)).
Proof.
  intros World Handle get_llm invoke pl w w' out log H. cbv zeta.
  pose proof (generate_report_log _ _ _ _ _ _ _ _ _ H) as Hlog.
  destruct (group_prompts (get_list (pl_prompts pl))
              (get_list (pl_models pl))) as [pbm | e0] eqn:Hg.
  - destruct Hlog as (suffix & Hs & Hok).
    assert (Hin : forall e, In e log ->
              In e (expected_log pbm (get_list (pl_models pl))))
      by (intros e He; rewrite Hs; apply in_or_app; now left).
    split; [intros pbm' E; injection E as <-; eauto |].
    split; [discriminate |]. split.
    + intros m Hm. exact (In_expected_log _ _ _ (Hin _ Hm)).
    + intros m p Hm. destruct (In_expected_log _ _ _ (Hin _ Hm)) as [H1 H2].
      split; [exact H1 |]. now apply (In_queue _ _ _ _ _ Hg).
  - destruct Hlog as [-> ->].
    split; [discriminate |]. split; [auto |].
    split; [intros m [] | intros m p []].
Qed.

Lemma call_log_spec_witness :
  let pl := mkPayload (Some (lit "Acme")) None None None
              (Some [Plain (lit "q1"); Tagged (Some (lit "m2")) (Some (lit "q2"));
                     Tagged (Some (lit "ghost")) (Some (lit "q3"))])
              (Some [lit "m1"; lit "m2"]) in
  exists res w',
    echo_report pl
    = (Ok res, w',
       [Acquire (lit "m1"); Invoke (lit "m1") (lit "q1");
        Acquire (lit "m2"); Invoke (lit "m2") (lit "q1");
        Invoke (lit "m2") (lit "q2")])
    /\ forall p, ~ In (Invoke (lit "ghost") p)
                   [Acquire (lit "m1"); Invoke (lit "m1") (lit "q1");
                    Acquire (lit "m2"); Invoke (lit "m2") (lit "q1");
                    Invoke (lit "m2") (lit "q2")].
Proof.
  cbv zeta. do 2 eexists.
  match goal with
  | |- echo_report ?pl = (Ok ?res, ?w', ?log) /\ _ =>
      assert (E : echo_report pl = (Ok res, w', log))
        by (vm_compute; reflexivity);
      split; [exact E |];
      destruct (call_log_spec nat str echo_get_llm echo_invoke pl 0%nat w'
                  (Ok res) log E) as (_ & _ & _ & Hinv)
  end.
  intros p Hin. apply Hinv in Hin as [Hm _]. simpl in Hm.
  destruct Hm as [Hm | [Hm | []]]; discriminate Hm.
Defined.

(** ** The exceptions that leave [generate_report] *)

Lemma percent_raises (c total : Z) (e : exn) :
  percent c total = Raise e -> e = OverflowError \/ e = ValueError.
Proof.
  unfold percent, int_of_float.
  destruct (SFmul prec emax (truediv c total) (float_of_int 100));
    intro H; try discriminate H; injection H as <-; auto.
Qed.

Lemma visibility_raises (total : Z) (items : dict Z) (e : exn) :
  visibility total items = Raise e -> e = OverflowError \/ e = ValueError.
Proof.
  induction items as [| [k c] items IH]; cbn [visibility]; [discriminate |].
  destruct (c >? 0); [| exact IH]. intro H.
  apply bind_Raise in H as [H | (v & _ & H)];
    [now apply percent_raises in H |].
  apply bind_Raise in H as [H | (vs & _ & H)]; [auto | discriminate].
Qed.

Lemma analyze_answers_raises (answers : list text_input) (brand : str)
  (competitors personas topics : list str) (e : exn) :
  analyze_answers answers brand competitors personas topics = Raise e ->
  (e = IndexError /\ answers <> [] /\ ~ Forall has_word personas)
  \/ e = OverflowError \/ e = ValueError.
Proof.
  unfold analyze_answers. cbv zeta. intro H.
  assert (Hrep : forall st,
            build_report (total_of answers) st = Raise e ->
            e = OverflowError \/ e = ValueError).
  { intros st Hb. unfold build_report in Hb.
    apply bind_Raise in Hb as [Hb | (bv & _ & Hb)];
      [now apply percent_raises in Hb |].
    cbv zeta in Hb. apply bind_Raise in Hb as [Hb | (pv & _ & Hb)];
      [now apply visibility_raises in Hb |].
    apply bind_Raise in Hb as [Hb | (tv & _ & Hb)];
      [now apply visibility_raises in Hb | discriminate]. }
  pose proof (well_keyed_initial (brand :: competitors) personas topics) as Hk.
  destruct (Forall_Exists_dec has_word has_word_dec personas) as [Hw | Hx].
  - destruct (answers_loop_total (brand :: competitors) personas topics
                answers _ Hk Hw) as [st Hst].
    rewrite Hst in H. right. now apply (Hrep st).
  - destruct answers as [| ans rest].
    + right. now apply (Hrep _ H).
    + rewrite answers_loop_raises in H by assumption.
      injection H as <-. left. split; [reflexivity |].
      split; [discriminate |]. intro Hw.
      apply Exists_exists in Hx as (p & Hin & Hp).
      rewrite Forall_forall in Hw. now apply Hp, Hw.
Qed.

Lemma analyze_all_raises (brand : str) (competitors personas topics : list str)
  (abm : dict (list text_input)) (e : exn) :
  analyze_all brand competitors personas topics abm = Raise e ->
  (e = IndexError /\ ~ Forall has_word personas)
  \/ e = OverflowError \/ e = ValueError.
Proof.
  assert (Hone : forall answers,
            analyze_answers answers brand competitors personas topics
            = Raise e ->
            (e = IndexError /\ ~ Forall has_word personas)
            \/ e = OverflowError \/ e = ValueError).
  { intros answers H. apply analyze_answers_raises in H. tauto. }
  assert (Hloop : forall items pm ca,
            per_model_loop brand competitors personas topics items pm ca
            = Raise e ->
            (e = IndexError /\ ~ Forall has_word personas)
            \/ e = OverflowError \/ e = ValueError).
  { induction items as [| [model answers] items IH]; intros pm ca H;
      cbn [per_model_loop] in H; [discriminate |].
    apply bind_Raise in H as [H | (r & _ & H)]; [now apply Hone in H |].
    now apply IH in H. }
  unfold analyze_all. intro H.
  apply bind_Raise in H as [H | (pc & _ & H)]; [now apply Hloop in H |].
  apply bind_Raise in H as [H | (c & _ & H)];
    [now apply Hone in H | discriminate].
Qed.

(** X11: an exception of [generate_report] is the key error of a payload
    without "brand", raised before any call; or the key error of the first
    dict prompt that lacks "model" or "prompt", raised before any call as
    well; or an exception the model layer raised, passed on as it is; or
    an exception of the scorer, raised once every call to the model layer
    has been made: the index error, only if some persona has no word, or
    an error of the conversion [int]. *)
Theorem generate_report_exceptions :
  forall (World Handle : Type)
         (get_llm : str -> World -> (Handle + exn) * World)
         (invoke : Handle -> str -> World -> (response + exn) * World)
         (pl : payload) (w w' : World) (e : exn) (log : list event),
    generate_report get_llm invoke pl w = (Raise e, w', log) ->
    let models := get_list (pl_models pl) in
    let prompts := get_list (pl_prompts pl) in
    (e = KeyError (lit "brand") /\ pl_brand pl = None /\ w' = w /\ log = [])
    \/ (pl_brand pl <> None
        /\ exists k,
             e = KeyError k /\ first_missing prompts = Some k
             /\ (k = lit "model" \/ k = lit "prompt")
             /\ w' = w /\ log = [])
    \/ (pl_brand pl <> None /\ first_missing prompts = None
        /\ layer_raises get_llm invoke e)
    \/ (pl_brand pl <> None
        /\ ((e = IndexError /\ ~ Forall has_word (get_list (pl_personas pl)))
            \/ e = OverflowError \/ e = ValueError)
        /\ exists pbm,
             group_prompts prompts models = Ok pbm
             /\ log = expected_log pbm models).
Proof.
  intros World Handle get_llm invoke pl w w' e log. cbv zeta.
  unfold generate_report. destruct (pl_brand pl) as [brand |].
  - cbv zeta. unfold group_prompts.
    pose proof (route_prompts_outcome (get_list (pl_models pl))
                  (get_list (pl_prompts pl)) []) as Hroute.
    destruct (first_missing (get_list (pl_prompts pl))) as [k |] eqn:Hk.
    + rewrite Hroute. intro H. injection H as <- <- <-. right. left.
      split; [discriminate |]. exists k. split; [reflexivity |].
      split; [reflexivity |]. split; [| auto].
      apply first_missing_In in Hk as (p & _ & Hp).
      now apply missing_key_name in Hp.
    + destruct Hroute as [pbm Hpbm]. rewrite Hpbm.
      destruct (models_loop get_llm invoke pbm _ [] w [])
        as [[[abm | e1] w1] log1] eqn:E; intro H; injection H as H <- <-.
      * right. right. right. split; [discriminate |].
        split; [now apply analyze_all_raises in H |].
        exists pbm. split; [reflexivity |].
        apply models_loop_log in E as (suffix & Hs & Hok).
        rewrite (Hok abm eq_refl), app_nil_r in Hs. now rewrite <- Hs.
      * subst e1. right. right. left. split; [discriminate |].
        split; [reflexivity |]. now apply models_loop_raises in E.
  - intro H. injection H as <- <- <-. left. auto.
Qed.

Lemma generate_report_exceptions_witness :
  let pl := mkPayload (Some (lit "Acme")) None (Some [lit ""]) None
              (Some [Plain (lit "q1")]) (Some [lit "m1"]) in
  echo_report pl
  = (Raise IndexError, 1%nat,
     [Acquire (lit "m1"); Invoke (lit "m1") (lit "q1")])
  /\ ~ Forall has_word [lit ""].
Proof.
  cbv zeta.
  assert (E : echo_report
                (mkPayload (Some (lit "Acme")) None (Some [lit ""]) None
                   (Some [Plain (lit "q1")]) (Some [lit "m1"]))
              = (Raise IndexError, 1%nat,
                 [Acquire (lit "m1"); Invoke (lit "m1") (lit "q1")]))
    by (vm_compute; reflexivity).
  split; [exact E |].
  destruct (generate_report_exceptions nat str echo_get_llm echo_invoke _ _ _
              _ _ E)
    as [(Hk & _) | [(_ & k & Hk & _) | [(_ & _ & Hl)
                                       | (_ & [(_ & Hw) | [Ho | Hv]] & _)]]];
    try discriminate.
  - now apply echo_layer_silent in Hl.
  - exact Hw.
Defined.

(** ** A run without models *)

(** X12: with "brand" present and no model listed, [generate_report]
    makes no call.  When every dict prompt holds "model" and "prompt" it
    returns: [per_model] is empty and [combined] is the report of the
    empty batch; when one lacks a key, the key error of the first such
    prompt is raised although no model is listed. *)
Theorem no_models_report :
  forall (World Handle : Type)
         (get_llm : str -> World -> (Handle + exn) * World)
         (invoke : Handle -> str -> World -> (response + exn) * World)
         (pl : payload) (w : World) (brand : str),
    pl_brand pl = Some brand ->
    get_list (pl_models pl) = [] ->
    (first_missing (get_list (pl_prompts pl)) = None ->
     generate_report get_llm invoke pl w
     = (Ok (mkBatch []
              (mkReport 0
                 (sorted_desc
                    (dict_fromkeys (brand :: get_list (pl_competitors pl)) 0))
                 [] [])),
        w, []))
    /\ (forall k,
          first_missing (get_list (pl_prompts pl)) = Some k ->
          generate_report get_llm invoke pl w = (Raise (KeyError k), w, [])).
Proof.
  intros World Handle get_llm invoke pl w brand Hb Hm.
  unfold generate_report. rewrite Hb, Hm. cbv zeta. unfold group_prompts.
  pose proof (route_prompts_outcome [] (get_list (pl_prompts pl)) [])
    as Hroute.
  split.
  - intro Hnone. rewrite Hnone in Hroute. destruct Hroute as [pbm ->].
    cbn [models_loop]. unfold analyze_all. cbn [per_model_loop bind fst snd].
    now rewrite empty_batch_report.
  - intros k Hk. rewrite Hk in Hroute. now rewrite Hroute.
Qed.

Lemma no_models_report_witness :
  echo_report (mkPayload (Some (lit "Acme")) (Some [lit "Zeta"])
                 (Some [lit ""]) None
                 (Some [Plain (lit "q1");
                        Tagged (Some (lit "m1")) (Some (lit "q2"))])
                 None)
  = (Ok (mkBatch [] (mkReport 0 [(lit "Acme", 0); (lit "Zeta", 0)] [] [])),
     0%nat, [])
  /\ echo_report (mkPayload (Some (lit "Acme")) None None None
                    (Some [Plain (lit "q1"); Tagged (Some (lit "m1")) None])
                    None)
     = (Raise (KeyError (lit "prompt")), 0%nat, []).
Proof.
  unfold echo_report. split.
  - destruct (no_models_report nat str echo_get_llm echo_invoke
                (mkPayload (Some (lit "Acme")) (Some [lit "Zeta"])
                   (Some [lit ""]) None
                   (Some [Plain (lit "q1");
                          Tagged (Some (lit "m1")) (Some (lit "q2"))])
                   None)
                0%nat (lit "Acme") eq_refl eq_refl) as [Hok _].
    etransitivity; [apply Hok; reflexivity | reflexivity].
  - destruct (no_models_report nat str echo_get_llm echo_invoke
                (mkPayload (Some (lit "Acme")) None None None
                   (Some [Plain (lit "q1"); Tagged (Some (lit "m1")) None])
                   None)
                0%nat (lit "Acme") eq_refl eq_refl) as [_ Hraise].
    apply Hraise. reflexivity.
Defined.

(** ** Order of [per_model] *)

Lemma add_key_idem (k : str) (l : list str) :
  add_key k (add_key k l) = add_key k l.
Proof.
  unfold add_key. destruct (in_dec str_eq_dec k l) as [Hin | Hout].
  - destruct (in_dec str_eq_dec k l); [reflexivity | contradiction].
  - destruct (in_dec str_eq_dec k (l ++ [k])) as [| N]; [reflexivity |].
    exfalso. apply N, in_or_app. right. now left.
Qed.

Lemma keys_dd_append_add {A : Type} (k : str) (x : A) (d : dict (list A)) :
  keys (dd_append k x d) = add_key k (keys d).
Proof.
  unfold dd_append. destruct (dict_get k d); apply keys_dict_set.
Qed.

Section KeyOrder.
Variables World Handle : Type.
Variable get_llm : str -> World -> (Handle + exn) * World.
Variable invoke : Handle -> str -> World -> (response + exn) * World.

Lemma invoke_loop_keys (model : str) (llm : Handle) (prompts : list str) :
  forall abm w log abm' w' log',
  invoke_loop invoke model llm prompts abm w log = (Ok abm', w', log') ->
  keys abm'
  = if negb (is_nil prompts) then add_key model (keys abm) else keys abm.
Proof.
  induction prompts as [| p rest IH]; intros abm w log abm' w' log' H;
    cbn [invoke_loop] in H.
  - now injection H as <- _ _.
  - destruct (invoke llm p w) as [[r | what] w1]; [| discriminate].
    apply IH in H. rewrite H, keys_dd_append_add. cbn [is_nil negb].
    destruct (negb (is_nil rest)); [apply add_key_idem | reflexivity].
Qed.

Lemma models_loop_keys (pbm : dict (list str)) (models : list str) :
  forall abm w log abm' w' log',
  models_loop get_llm invoke pbm models abm w log = (Ok abm', w', log') ->
  keys abm'
  = fold_left (fun l m => if negb (is_nil (get_or_nil m pbm))
                          then add_key m l else l) models (keys abm).
Proof.
  induction models as [| model rest IH]; intros abm w log abm' w' log' H;
    cbn [models_loop] in H.
  - now injection H as <- _ _.
  - destruct (get_llm model w) as [[llm | what] w1]; [| discriminate].
    destruct (invoke_loop invoke model llm (get_or_nil model pbm) abm w1
                (log ++ [Acquire model])) as [[[abm1 | e] w2] log2] eqn:E;
      [| discriminate].
    apply invoke_loop_keys in E. apply IH in H.
    cbn [fold_left]. now rewrite H, E.
Qed.
End KeyOrder.

(** X13: the keys of [per_model] are the models of [models] whose queue
    is not empty, in the order of their first occurrence in [models]. *)
Theorem per_model_order :
  forall (World Handle : Type)
         (get_llm : str -> World -> (Handle + exn) * World)
         (invoke : Handle -> str -> World -> (response + exn) * World)
         (pl : payload) (w w' : World) (res : batch_result)
         (log : list event),
    generate_report get_llm invoke pl w = (Ok res, w', log) ->
    let models := get_list (pl_models pl) in
    exists pbm,
      group_prompts (get_list (pl_prompts pl)) models = Ok pbm
      /\ keys (per_model res)
         = filter (fun m => negb (is_nil (get_or_nil m pbm)))
             (first_occurrences models).
Proof.
  intros World Handle get_llm invoke pl w w' res log H. cbv zeta.
  apply generate_report_inv in H
    as (brand & pbm & abm & _ & Hg & Hloop & Hall).
  exists pbm. split; [exact Hg |].
  pose proof (models_loop_inv _ _ _ _ _ _ _ _ _ _ _ _ Hloop) as (Hnd & _).
  apply models_loop_keys in Hloop.
  apply analyze_all_inv in Hall as [HF _]; [| apply Hnd; constructor].
  apply Forall2_keys in HF. rewrite HF, Hloop.
  etransitivity; [apply fold_add_keys |]. simpl.
  apply filter_ext. intro m. apply andb_true_r.
Qed.

Lemma per_model_order_witness :
  let pl := mkPayload (Some (lit "Acme")) None None None
              (Some [Tagged (Some (lit "m3")) (Some (lit "q1"));
                     Tagged (Some (lit "m1")) (Some (lit "q2"))])
              (Some [lit "m1"; lit "m2"; lit "m3"; lit "m1"]) in
  exists res w' log,
    echo_report pl = (Ok res, w', log)
    /\ keys (per_model res) = [lit "m1"; lit "m3"].
Proof.
  cbv zeta. do 3 eexists.
  match goal with
  | |- echo_report ?pl = (Ok ?res, ?w', ?log) /\ _ =>
      assert (E : echo_report pl = (Ok res, w', log))
        by (vm_compute; reflexivity);
      split; [exact E |];
      destruct (per_model_order nat str echo_get_llm echo_invoke pl 0%nat w'
                  res log E) as (pbm & Hg & Hk)
  end.
  rewrite Hk. vm_compute in Hg. injection Hg as <-.
  vm_compute. reflexivity.
Defined.

(** ** One model *)

(** X14: when [per_model] holds one report, [combined] is that report. *)
Theorem single_model_combined :
  forall (World Handle : Type)
         (get_llm : str -> World -> (Handle + exn) * World)
         (invoke : Handle -> str -> World -> (response + exn) * World)
         (pl : payload) (w w' : World) (res : batch_result)
         (log : list event) (m : str) (r : report),
    generate_report get_llm invoke pl w = (Ok res, w', log) ->
    per_model res = [(m, r)] ->
    combined res = r.
Proof.
  intros World Handle get_llm invoke pl w w' res log m r H Hpm.
  apply generate_report_inv in H as (brand & pbm & abm & _ & Hg & Hloop & Hall).
  apply models_loop_inv in Hloop as (Hnd & _).
  apply analyze_all_inv in Hall as [HF Hc]; [| apply Hnd; constructor].
  rewrite Hpm in HF. inversion HF as [| item mr abm' pm' [_ Hr] Hrest];
    subst. inversion Hrest; subst.
  simpl in Hc, Hr. rewrite app_nil_r, Hr in Hc. now injection Hc.
Qed.

Lemma single_model_combined_witness :
  let pl := mkPayload (Some (lit "Acme")) (Some [lit "Zeta"]) None None
              (Some [Plain (lit "acme or zeta?"); Plain (lit "why?")])
              (Some [lit "m1"]) in
  exists res w' log r,
    echo_report pl = (Ok res, w', log)
    /\ per_model res = [(lit "m1", r)]
    /\ combined res = r.
Proof.
  cbv zeta. do 4 eexists.
  match goal with
  | |- echo_report ?pl = (Ok ?res, ?w', ?log) /\ _ =>
      assert (E : echo_report pl = (Ok res, w', log))
        by (vm_compute; reflexivity);
      split; [exact E |];
      split; [reflexivity |];
      apply (single_model_combined nat str echo_get_llm echo_invoke pl 0%nat
               w' res log (lit "m1") _ E eq_refl)
  end.
Defined.

(** ** Plain prompts only *)

(** X15: when every prompt is plain and no model is listed twice, the
    queue of each listed model is the list of all prompts in payload
    order, and a model that is not listed has no queue. *)
Theorem broadcast_queues (prompts : list prompt) (models : list str) :
  Forall (fun p => is_plain p = true) prompts ->
  NoDup models ->
  exists pbm,
    group_prompts prompts models = Ok pbm
    /\ forall m,
         (In m models -> get_or_nil m pbm = map prompt_text_of prompts)
         /\ (~ In m models -> get_or_nil m pbm = []).
Proof.
  intros Hplain Hnd.
  assert (Hnone : first_missing prompts = None).
  { apply first_missing_None. eapply Forall_impl; [| exact Hplain].
    intros [model text | text] Hp; [discriminate Hp | reflexivity]. }
  pose proof (route_prompts_outcome models prompts []) as Hroute.
  rewrite Hnone in Hroute. destruct Hroute as [pbm Hg].
  exists pbm. split; [exact Hg |]. intro m.
  rewrite (group_prompts_queue _ _ _ m Hg). split; intro Hm.
  - assert (E : count_occ str_eq_dec models m = 1%nat).
    { pose proof (proj1 (NoDup_count_occ str_eq_dec models) Hnd m).
      apply (count_occ_In str_eq_dec) in Hm. lia. }
    clear Hnone Hg.
    induction Hplain as [| [model text | text] prompts Hp _ IH]; simpl;
      [reflexivity | discriminate Hp |].
    rewrite E. simpl. now rewrite IH.
  - apply (count_occ_not_In str_eq_dec) in Hm. clear Hnone Hg.
    induction Hplain as [| [model text | text] prompts Hp _ IH]; simpl;
      [reflexivity | discriminate Hp |].
    rewrite Hm. simpl. exact IH.
Qed.

Lemma broadcast_queues_witness :
  exists pbm,
    group_prompts [Plain (lit "q1"); Plain (lit "q2")] [lit "m1"; lit "m2"]
    = Ok pbm
    /\ get_or_nil (lit "m2") pbm = [lit "q1"; lit "q2"].
Proof.
  destruct (broadcast_queues [Plain (lit "q1"); Plain (lit "q2")]
              [lit "m1"; lit "m2"]) as (pbm & Hg & Hq).
  - repeat constructor.
  - repeat constructor; simpl; intuition discriminate.
  - exists pbm. split; [exact Hg |].
    apply (Hq (lit "m2")). right. now left.
Defined.

(** ** [contains_any] *)

(** X16: [contains_any] holds exactly when some keyword is a substring of
    the text; it fails on an empty keyword list, holds as soon as the
    empty string is a keyword, is the disjunction over a concatenation of
    keyword lists, and is kept when the text is extended on either
    side. *)
Theorem contains_any_rule :
  (forall text keywords,
     contains_any text keywords = true <->
     exists k, In k keywords /\ substring k text)
  /\ (forall text, contains_any text [] = false)
  /\ (forall text keywords,
        In (lit "") keywords -> contains_any text keywords = true)
  /\ (forall text ks1 ks2,
        contains_any text (ks1 ++ ks2)
        = contains_any text ks1 || contains_any text ks2)
  /\ (forall text keywords pre suf,
        contains_any text keywords = true ->
        contains_any (pre ++ text ++ suf) keywords = true).
Proof.
  split; [exact contains_any_spec |]. split; [reflexivity |]. split.
  - intros text keywords Hin. apply contains_any_spec. exists (lit "").
    split; [exact Hin |]. exists [], text. reflexivity.
  - split.
    + intros text ks1 ks2. unfold contains_any. apply existsb_app.
    + intros text keywords pre suf H.
      apply contains_any_spec in H as (k & Hin & (a & b & ->)).
      apply contains_any_spec. exists k. split; [exact Hin |].
      exists (pre ++ a), (b ++ suf). now rewrite <- !app_assoc.
Qed.

Lemma contains_any_rule_witness :
  contains_any (lit "see the roadmap, then decide") [lit ""; lit "xyz"] = true
  /\ contains_any (lit "see the roadmap, then decide") [lit "roadmap"] = true.
Proof.
  destruct contains_any_rule as (_ & _ & Hempty & _ & Hextend). split.
  - apply Hempty. now left.
  - apply (Hextend (lit "roadmap") [lit "roadmap"] (lit "see the ")
             (lit ", then decide")).
    reflexivity.
Defined.

(** ** The static terms *)

Lemma persona_match_static (p text : str) :
  has_word p ->
  (exists k, In k static_terms /\ substring k text) ->
  persona_match text p = true.
Proof.
  unfold has_word, persona_match, persona_keywords.
  intros Hw (k & Hin & Hk). destruct (split p) as [| first rest];
    [congruence |].
  apply contains_any_spec. exists k. split; [| exact Hk].
  right. right. exact Hin.
Qed.

Lemma answers_matching_all (hit : str -> str -> bool) (name : str)
  (answers : list text_input) :
  Forall (fun ans => hit (normalize ans) name = true) answers ->
  answers_matching hit name answers = Z.of_nat (length answers).
Proof.
  induction 1 as [| ans rest Ha _ IH]; cbn [answers_matching length];
    [reflexivity |].
  rewrite Ha, IH. lia.
Qed.

Lemma persona_visibility_items (answers : list text_input) (brand : str)
  (competitors personas topics : list str) (r : report) :
  analyze_answers answers brand competitors personas topics = Ok r ->
  keys (persona_visibility r)
  = filter (fun p => 0 <? entries p personas
                          * answers_matching persona_match p answers)
      (first_occurrences personas)
  /\ forall p v, dict_get p (persona_visibility r) = Some v ->
       percent (entries p personas
                * answers_matching persona_match p answers)
         (total_of answers) = Ok v.
Proof.
  intro H. apply analyze_answers_inv in H as (st & Hloop & Hrep).
  apply build_report_inv in Hrep as (_ & _ & Hpv & _).
  apply final_counters in Hloop as (_ & _ & Ep & _).
  rewrite Ep in Hpv. apply visibility_of_map in Hpv as [Kp Vp].
  split; [exact Kp |]. intros p v Hget. apply Vp.
  now apply dict_get_Some_In.
Qed.

Lemma static_terms_full_visibility (answers : list text_input)
  (brand : str) (competitors personas topics : list str) (r : report) :
  analyze_answers answers brand competitors personas topics = Ok r ->
  answers <> [] -> (length answers <= table_size)%nat ->
  NoDup personas ->
  Forall (fun ans => exists k, In k static_terms
                               /\ substring k (normalize ans)) answers ->
  forall p, In p personas ->
            dict_get p (persona_visibility r) = Some 100.
Proof.
  intros H Hne Hlen Hnd Hstatic p Hin.
  assert (Hw : has_word p).
  { destruct (has_word_dec p) as [| Hn]; [assumption |]. exfalso.
    destruct answers as [| ans rest]; [congruence |].
    unfold analyze_answers in H. cbv zeta in H.
    rewrite answers_loop_raises in H;
      [discriminate H | apply well_keyed_initial |].
    apply Exists_exists. eauto. }
  assert (Hall : answers_matching persona_match p answers
                 = Z.of_nat (length answers)).
  { apply answers_matching_all. eapply Forall_impl; [| exact Hstatic].
    intros ans Hk. now apply persona_match_static. }
  assert (Hone : entries p personas = 1).
  { pose proof (entries_present _ _ Hin).
    pose proof (entries_NoDup p _ Hnd). lia. }
  assert (Hpos : 1 <= Z.of_nat (length answers))
    by (destruct answers; [congruence | simpl length; lia]).
  destruct (persona_visibility_items _ _ _ _ _ _ H) as [Hk Hv].
  assert (Hkey : In p (keys (persona_visibility r))).
  { rewrite Hk. apply filter_In. split; [now apply first_occurrences_In |].
    apply Z.ltb_lt. rewrite Hone, Hall. lia. }
  destruct (dict_get p (persona_visibility r)) as [v |] eqn:E.
  - apply Hv in E. rewrite Hone, Hall, total_of_max in E.
    destruct (percent_small (1 * Z.of_nat (length answers))
                (Z.max 1 (Z.of_nat (length answers))))
      as (v' & Hv' & _ & _ & _ & Hfull);
      [unfold table_size in *; lia | lia |].
    rewrite Hv' in E. injection E as <-. f_equal. apply Hfull. lia.
  - apply dict_get_None in E. contradiction.
Qed.

(** X17: take a non-empty batch of at most a hundred answers that all
    contain one of the six static terms, and personas and topics without
    repeated entries.  If every persona has a first word, the scorer
    returns and every persona is in [persona_visibility] at 100, whatever
    else its name is; if some persona has no first word, the scorer raises
    the index error instead. *)
Theorem static_terms_hit_every_persona (answers : list text_input)
  (brand : str) (competitors personas topics : list str) :
  answers <> [] -> (length answers <= table_size)%nat ->
  NoDup personas -> NoDup topics ->
  Forall (fun ans => exists k, In k static_terms
                               /\ substring k (normalize ans)) answers ->
  (Forall has_word personas ->
   exists r,
     analyze_answers answers brand competitors personas topics = Ok r
     /\ forall p, In p personas ->
                  dict_get p (persona_visibility r) = Some 100)
  /\ (~ Forall has_word personas ->
      analyze_answers answers brand competitors personas topics
      = Raise IndexError).
Proof.
  intros Hne Hlen Np Nt Hstatic. split.
  - intro Hw.
    destruct (analyze_answers_total answers brand competitors personas
                topics Hlen Np Nt Hw) as [r Hr].
    exists r. split; [exact Hr |].
    now apply (static_terms_full_visibility answers brand competitors
                 personas topics r).
  - intro Hnw. destruct answers as [| ans rest]; [congruence |].
    destruct (Forall_Exists_dec has_word has_word_dec personas) as [| Hx];
      [contradiction |].
    unfold analyze_answers. cbv zeta.
    now rewrite answers_loop_raises by (auto using well_keyed_initial).
Qed.

Lemma static_terms_hit_every_persona_witness :
  (exists r,
     analyze_answers [TStr (lit "Our planning is done")] (lit "Acme") []
       [lit "Nurse"; lit "Pilot"] [] = Ok r
     /\ dict_get (lit "Pilot") (persona_visibility r) = Some 100)
  /\ analyze_answers [TStr (lit "Our planning is done")] (lit "Acme") []
       [lit "Nurse"; lit ""] [] = Raise IndexError.
Proof.
  assert (Hstatic : Forall (fun ans => exists k, In k static_terms
                                       /\ substring k (normalize ans))
                      [TStr (lit "Our planning is done")]).
  { repeat constructor. exists (lit "planning").
    split; [simpl; tauto |]. exists (lit "our "), (lit " is done").
    reflexivity. }
  split.
  - destruct (static_terms_hit_every_persona
                [TStr (lit "Our planning is done")] (lit "Acme") []
                [lit "Nurse"; lit "Pilot"] []) as [Hok _].
    + discriminate.
    + unfold table_size. simpl. lia.
    + repeat constructor; simpl; intuition discriminate.
    + constructor.
    + exact Hstatic.
    + destruct Hok as (r & Hr & Hp).
      * repeat constructor; unfold has_word; vm_compute; discriminate.
      * exists r. split; [exact Hr |]. apply Hp. right. now left.
  - destruct (static_terms_hit_every_persona
                [TStr (lit "Our planning is done")] (lit "Acme") []
                [lit "Nurse"; lit ""] []) as [_ Hraise].
    + discriminate.
    + unfold table_size. simpl. lia.
    + repeat constructor; simpl; intuition discriminate.
    + constructor.
    + exact Hstatic.
    + apply Hraise. intro Hw. inversion Hw as [| ? ? _ Hw']; subst.
      inversion Hw' as [| ? ? Hblank _]; subst. now apply Hblank.
Defined.

(** ** Personas and topics of the combined report *)

Lemma answers_matching_app (hit : str -> str -> bool) (name : str)
  (xs ys : list text_input) :
  answers_matching hit name (xs ++ ys)
  = answers_matching hit name xs + answers_matching hit name ys.
Proof.
  induction xs as [| x xs IH]; cbn [app answers_matching]; lia.
Qed.

Lemma answers_matching_concat (hit : str -> str -> bool) (name : str)
  (batches : list (list text_input)) :
  0 < answers_matching hit name (concat batches) <->
  exists batch, In batch batches /\ 0 < answers_matching hit name batch.
Proof.
  induction batches as [| b batches IH]; cbn [concat].
  - simpl. split; [lia | intros (x & [] & _)].
  - rewrite answers_matching_app.
    pose proof (answers_matching_bounds hit name b).
    pose proof (answers_matching_bounds hit name (concat batches)).
    split.
    + intro Hpos.
      destruct (Z.eq_dec (answers_matching hit name b) 0) as [Hz | Hnz].
      * destruct (proj1 IH) as (x & Hin & Hx); [lia |].
        exists x. split; [now right | exact Hx].
      * exists b. split; [now left | lia].
    + intros (x & [<- | Hin] & Hx); [lia |].
      assert (0 < answers_matching hit name (concat batches))
        by (apply IH; eauto). lia.
Qed.

Lemma visibility_key_iff (vocabulary : list str) (g : str -> Z) (k : str) :
  0 <= g k ->
  In k (filter (fun x => 0 <? entries x vocabulary * g x)
          (first_occurrences vocabulary))
  <-> In k vocabulary /\ 0 < g k.
Proof.
  intro Hg. rewrite filter_In, first_occurrences_In, Z.ltb_lt. split.
  - intros [Hin Hpos]. split; [exact Hin |].
    destruct (Z.eq_dec (g k) 0) as [Hz | Hz]; [| lia].
    rewrite Hz, Z.mul_0_r in Hpos. lia.
  - intros [Hin Hpos]. split; [exact Hin |].
    pose proof (entries_present _ _ Hin). apply Z.mul_pos_pos; lia.
Qed.

Lemma persona_key_iff (answers : list text_input) (brand : str)
  (competitors personas topics : list str) (r : report) (p : str) :
  analyze_answers answers brand competitors personas topics = Ok r ->
  dict_get p (persona_visibility r) <> None <->
  In p personas /\ 0 < answers_matching persona_match p answers.
Proof.
  intro H. destruct (persona_visibility_items _ _ _ _ _ _ H) as [Hk _].
  rewrite <- (visibility_key_iff personas
                (fun x => answers_matching persona_match x answers))
    by apply answers_matching_bounds.
  rewrite <- Hk, dict_get_None.
  destruct (in_dec str_eq_dec p (keys (persona_visibility r))); tauto.
Qed.

Lemma topic_key_iff (answers : list text_input) (brand : str)
  (competitors personas topics : list str) (r : report) (t : str) :
  analyze_answers answers brand competitors personas topics = Ok r ->
  dict_get t (topic_visibility r) <> None <->
  In t topics /\ 0 < answers_matching topic_match t answers.
Proof.
  intro H.
  rewrite <- (visibility_key_iff topics
                (fun x => answers_matching topic_match x answers))
    by apply answers_matching_bounds.
  rewrite <- (topic_visibility_keys _ _ _ _ _ _ H), dict_get_None.
  destruct (in_dec str_eq_dec t (keys (topic_visibility r))); tauto.
Qed.

Lemma Forall2_In_l {A B : Type} (R : A -> B -> Prop) (xs : list A)
  (ys : list B) (x : A) :
  Forall2 R xs ys -> In x xs -> exists y, In y ys /\ R x y.
Proof.
  induction 1 as [| a b xs ys Hab _ IH]; intros Hin; [destruct Hin |].
  destruct Hin as [<- | Hin].
  - exists b. split; [now left | exact Hab].
  - destruct (IH Hin) as (y & Hy & Hxy). exists y. split; [now right | auto].
Qed.

Lemma Forall2_In_r {A B : Type} (R : A -> B -> Prop) (xs : list A)
  (ys : list B) (y : B) :
  Forall2 R xs ys -> In y ys -> exists x, In x xs /\ R x y.
Proof.
  induction 1 as [| a b xs ys Hab _ IH]; intros Hin; [destruct Hin |].
  destruct Hin as [<- | Hin].
  - exists a. split; [now left | exact Hab].
  - destruct (IH Hin) as (x & Hx & Hxy). exists x. split; [now right | auto].
Qed.

(** X18: a persona is a key of [persona_visibility] in the combined
    report exactly when it is one in the report of some model, and
    likewise a topic of [topic_visibility]. *)
Theorem combined_keys_union :
  forall (World Handle : Type)
         (get_llm : str -> World -> (Handle + exn) * World)
         (invoke : Handle -> str -> World -> (response + exn) * World)
         (pl : payload) (w w' : World) (res : batch_result)
         (log : list event),
    generate_report get_llm invoke pl w = (Ok res, w', log) ->
    (forall p,
       dict_get p (persona_visibility (combined res)) <> None <->
       exists m r, In (m, r) (per_model res)
                   /\ dict_get p (persona_visibility r) <> None)
    /\ (forall t,
          dict_get t (topic_visibility (combined res)) <> None <->
          exists m r, In (m, r) (per_model res)
                      /\ dict_get t (topic_visibility r) <> None).
Proof.
  intros World Handle get_llm invoke pl w w' res log H.
  apply generate_report_inv in H as (brand & pbm & abm & _ & Hg & Hloop & Hall).
  apply models_loop_inv in Hloop as (Hnd & _).
  apply analyze_all_inv in Hall as [HF Hc]; [| apply Hnd; constructor].
  split.
  - intro p. rewrite (persona_key_iff _ _ _ _ _ _ p Hc).
    rewrite answers_matching_concat. split.
    + intros (Hin & batch & Hb & Hpos).
      destruct (proj1 (in_map_iff _ _ _) Hb) as (item & Hs & Hitem).
      subst batch.
      destruct (Forall2_In_l _ _ _ _ HF Hitem) as (mr & Hmr & Hfst & Hr).
      exists (fst mr), (snd mr).
      split; [now rewrite <- surjective_pairing |].
      apply (persona_key_iff _ _ _ _ _ _ p Hr). auto.
    + intros (m & r & Hmr & Hkey).
      destruct (Forall2_In_r _ _ _ _ HF Hmr) as (item & Hitem & Hfst & Hr).
      simpl in Hr.
      destruct (proj1 (persona_key_iff _ _ _ _ _ _ p Hr) Hkey) as [Hin Hpos].
      split; [exact Hin |]. exists (snd item).
      split; [now apply in_map | exact Hpos].
  - intro t. rewrite (topic_key_iff _ _ _ _ _ _ t Hc).
    rewrite answers_matching_concat. split.
    + intros (Hin & batch & Hb & Hpos).
      destruct (proj1 (in_map_iff _ _ _) Hb) as (item & Hs & Hitem).
      subst batch.
      destruct (Forall2_In_l _ _ _ _ HF Hitem) as (mr & Hmr & Hfst & Hr).
      exists (fst mr), (snd mr).
      split; [now rewrite <- surjective_pairing |].
      apply (topic_key_iff _ _ _ _ _ _ t Hr). auto.
    + intros (m & r & Hmr & Hkey).
      destruct (Forall2_In_r _ _ _ _ HF Hmr) as (item & Hitem & Hfst & Hr).
      simpl in Hr.
      destruct (proj1 (topic_key_iff _ _ _ _ _ _ t Hr) Hkey) as [Hin Hpos].
      split; [exact Hin |]. exists (snd item).
      split; [now apply in_map | exact Hpos].
Qed.

Lemma combined_keys_union_witness :
  let pl := mkPayload (Some (lit "Acme")) None (Some [lit "Pilot"])
              (Some [lit "Cloud cost"])
              (Some [Tagged (Some (lit "m1")) (Some (lit "nothing"));
                     Tagged (Some (lit "m2")) (Some (lit "the cloud plan"))])
              (Some [lit "m1"; lit "m2"]) in
  exists res w' log,
    echo_report pl = (Ok res, w', log)
    /\ dict_get (lit "Cloud cost") (topic_visibility (combined res)) <> None.
Proof.
  cbv zeta. do 3 eexists.
  match goal with
  | |- echo_report ?pl = (Ok ?res, ?w', ?log) /\ _ =>
      assert (E : echo_report pl = (Ok res, w', log))
        by (vm_compute; reflexivity);
      split; [exact E |];
      destruct (combined_keys_union nat str echo_get_llm echo_invoke pl 0%nat
                  w' res log E) as [_ Ht]
  end.
  apply Ht. do 2 eexists. split.
  - right. left. reflexivity.
  - vm_compute. discriminate.
Defined.
